(** * django-survey: the dynamic response form ([survey/forms.py])

    A shallow embedding of [ResponseForm]: the Python values and string
    operations the form relies on, the survey data model, the persistence
    layer as an explicit store, and the methods of the form as state-passing
    functions.  The second half of the file states and proves the properties of
    the form that the specification lists. *)

From Stdlib Require Import ZArith Ascii String List Lia.
From Stdlib Require Import Decimal DecimalString DecimalZ Sorted.
From stdpp Require Import base option list gmap strings.

Local Open Scope Z_scope.

(* ===================================================================== *)
(** * Part I: definitions *)
(* ===================================================================== *)

(** ** Python results: a value or a raised exception *)

Inductive exn : Type :=
  | IndexError
  | ValueError
  | TypeError
  | KeyError
  | AttributeError
  | DoesNotExist
  | MultipleObjectsReturned.

Inductive result (A : Type) : Type :=
  | Ok (a : A)
  | Raise (e : exn).
Arguments Ok {A} a.
Arguments Raise {A} e.

Definition rbind {A B} (r : result A) (k : A -> result B) : result B :=
  match r with
  | Ok a => k a
  | Raise e => Raise e
  end.

Definition is_ok {A} (r : result A) : bool :=
  match r with Ok _ => true | Raise _ => false end.

Declare Scope py_scope.
Delimit Scope py_scope with py.
Notation "x <- c1 ;; c2" := (rbind c1 (fun x => c2))
  (at level 100, c1 at next level, right associativity) : py_scope.

Fixpoint mapM {A B} (f : A -> result B) (l : list A) : result (list B) :=
  match l with
  | [] => Ok []
  | a :: l' => (b <- f a ;; bs <- mapM f l' ;; Ok (b :: bs))%py
  end.

(** ** Python [str] operations

    A Python string is modelled as a [string] of 8-bit characters (code points
    below 256). *)

Module Str.

(** [sub in s] *)
Fixpoint contains (sub s : string) : bool :=
  String.prefix sub s ||
  match s with
  | EmptyString => false
  | String _ s' => contains sub s'
  end.

(** [str.isspace] on one character of the Latin-1 range. *)
Definition is_space (c : ascii) : bool :=
  let n := nat_of_ascii c in
  ((9 <=? n) && (n <=? 13) || (28 <=? n) && (n <=? 32)
   || (n =? 133) || (n =? 160))%nat.

Fixpoint lstrip (s : string) : string :=
  match s with
  | EmptyString => EmptyString
  | String c s' => if is_space c then lstrip s' else s
  end.

Fixpoint rstrip (s : string) : string :=
  match s with
  | EmptyString => EmptyString
  | String c s' =>
      match rstrip s' with
      | EmptyString => if is_space c then EmptyString else String c EmptyString
      | r => String c r
      end
  end.

(** [s.strip()] *)
Definition strip (s : string) : string := rstrip (lstrip s).

(** A slice bound, resolved against the length [n] as Python does:
    negative bounds count from the end, and everything is clamped. *)
Definition clamp (n : nat) (i : Z) : nat :=
  let i' := if i <? 0 then i + Z.of_nat n else i in
  Z.to_nat (Z.min (Z.max i' 0) (Z.of_nat n)).

(** [s[lo:hi]] *)
Definition slice (s : string) (lo hi : Z) : string :=
  let n := String.length s in
  let a := clamp n lo in
  let b := clamp n hi in
  String.substring a (b - a) s.

(** [s.split(sep)] for a non-empty [sep]: [skip] counts the characters of a
    separator just matched that are still to be dropped. *)
Fixpoint split_from (sep : string) (skip : nat) (s : string) : list string :=
  match s with
  | EmptyString => [EmptyString]
  | String c s' =>
      match skip with
      | S k => split_from sep k s'
      | O =>
          if String.prefix sep s
          then EmptyString :: split_from sep (String.length sep - 1) s'
          else match split_from sep 0 s' with
               | h :: t => String c h :: t
               | [] => [String c EmptyString]
               end
      end
  end.

(** [s.split(sep)]: an empty separator is a [ValueError]. *)
Definition split (sep s : string) : result (list string) :=
  match sep with
  | EmptyString => Raise ValueError
  | _ => Ok (split_from sep 0 s)
  end.

(** [sep.join(l)] *)
Fixpoint join (sep : string) (l : list string) : string :=
  match l with
  | [] => EmptyString
  | [x] => x
  | x :: l' => x +:+ sep +:+ join sep l'
  end.

(** [s.startswith(p)] *)
Definition startswith (s p : string) : bool := String.prefix p s.

End Str.

(** [l[i]] for [i >= 0]; out of range is an [IndexError]. *)
Definition index {A} (l : list A) (i : nat) : result A :=
  match l !! i with
  | Some x => Ok x
  | None => Raise IndexError
  end.

(** ** Integers as text *)

Fixpoint all_chars (P : ascii -> bool) (s : string) : bool :=
  match s with
  | EmptyString => true
  | String c s' => P c && all_chars P s'
  end.

Definition is_digit (c : ascii) : bool :=
  let n := nat_of_ascii c in ((48 <=? n) && (n <=? 57))%nat.

(** ["{}".format(z)] and ["%d" % z] for an integer [z]. *)
Definition format_int (z : Z) : string :=
  NilEmpty.string_of_int (Z.to_int z).

(** The whitespace that [int] skips around a numeral: the six characters of
    C's [isspace], and the two characters above 127 that [str.isspace] accepts
    in the Latin-1 range, which [int] first turns into spaces.  The separators
    [\x1c] to [\x1f], which [str.strip] drops, are not among them: [int]
    leaves every character below 127 as it is. *)
Definition is_int_space (c : ascii) : bool :=
  let n := nat_of_ascii c in
  ((9 <=? n) && (n <=? 13) || (n =? 32) || (n =? 133) || (n =? 160))%nat.

Fixpoint int_lstrip (s : string) : string :=
  match s with
  | EmptyString => EmptyString
  | String c s' => if is_int_space c then int_lstrip s' else s
  end.

Fixpoint int_rstrip (s : string) : string :=
  match s with
  | EmptyString => EmptyString
  | String c s' =>
      match int_rstrip s' with
      | EmptyString => if is_int_space c then EmptyString else String c EmptyString
      | r => String c r
      end
  end.

(** The digits of a numeral without the underscores that group them: one
    underscore may stand between two digits.  [None] when an underscore comes
    first, last or after another one, when a character is neither a digit nor
    an underscore, or when there is no digit.  [after_digit] tells whether the
    character before was a digit. *)
Fixpoint digits_of (after_digit : bool) (s : string) : option string :=
  match s with
  | EmptyString => if after_digit then Some EmptyString else None
  | String c s' =>
      if is_digit c then String c <$> digits_of true s'
      else if Ascii.eqb c "_" && after_digit then digits_of false s'
      else None
  end.

(** [int(s)] in base ten: whitespace around the numeral is skipped, one sign
    may come first, and the digits may be grouped by single underscores;
    anything else is a [ValueError]. *)
Definition int_of_str (s : string) : result Z :=
  let t := int_rstrip (int_lstrip s) in
  let '(neg, ds) :=
    match t with
    | String "-"%char r => (true, r)
    | String "+"%char r => (false, r)
    | _ => (false, t)
    end in
  match digits_of false ds ≫= NilEmpty.uint_of_string with
  | Some u => Ok (if neg then - Z.of_uint u else Z.of_uint u)
  | None => Raise ValueError
  end.

(** ** External collaborators

    The form reaches three things that live outside the repository: the
    project settings, Django's [slugify], and Python's global random
    generator.  Each is an interface here. *)

(** [django.conf.settings]: the separator of the choices of an answer group. *)
Class Settings := { CHOICES_SEPARATOR : string }.

(** [django.utils.text.slugify] *)
Class Text := { slugify : string -> string }.

(** The [random] module: the hidden generator state, [random.seed(a)] for an
    integer [a], the primitive [_randbelow(n)] and [random.randint(a, b)]. *)
Class Random := {
  rng : Type;
  seed : Z -> rng;
  randbelow : nat -> rng -> nat * rng;
  randint : Z -> Z -> rng -> Z * rng
}.

(** [random.shuffle(x)]: for [i] from [len(x) - 1] down to [1], draw
    [j = randbelow(i + 1)] and swap [x[i]] with [x[j]]. *)
Fixpoint shuffle_from `{Random} {A} (i : nat) (x : list A) (g : rng)
  : result (list A) * rng :=
  match i with
  | O => (Ok x, g)
  | S i' =>
      let '(j, g') := randbelow (S i) g in
      match x !! i, x !! j with
      | Some xi, Some xj => shuffle_from i' (<[j := xi]> (<[i := xj]> x)) g'
      | _, _ => (Raise IndexError, g')
      end
  end.

Definition shuffle `{Random} {A} (x : list A) (g : rng) : result (list A) * rng :=
  shuffle_from (length x - 1)%nat x g.

(** ** Data model ([survey.models], as the form reads it) *)

Inductive AnswerGroupType : Type :=
  | TEXT | SHORT_TEXT | RADIO | SELECT | SELECT_IMAGE | SELECT_MULTIPLE
  | INTEGER | FLOAT | DATE.

Inductive DisplayMethod : Type :=
  | BY_QUESTION | BY_CATEGORY | ALL_IN_ONE_PAGE.

#[global] Instance AnswerGroupType_eq_dec : EqDecision AnswerGroupType.
Proof. solve_decision. Defined.
#[global] Instance DisplayMethod_eq_dec : EqDecision DisplayMethod.
Proof. solve_decision. Defined.
#[global] Instance exn_eq_dec : EqDecision exn.
Proof. solve_decision. Defined.

(** A value carried by a form field or a request: [None], a string, an integer,
    or a list of strings (the value of a multiple choice). *)
Inductive FieldValue : Type :=
  | VNone
  | VStr (s : string)
  | VInt (z : Z)
  | VList (l : list string).

#[global] Instance FieldValue_eq_dec : EqDecision FieldValue.
Proof. solve_decision. Defined.

(** Python truth value of a [FieldValue]. *)
Definition truthy (v : FieldValue) : bool :=
  match v with
  | VNone => false
  | VStr s => negb (String.eqb s "")
  | VInt z => negb (z =? 0)
  | VList l => match l with [] => false | _ => true end
  end.

Record Category := {
  cat_id : Z;
  cat_name : string;
  cat_description : string
}.

(** [get_choices] is the declared choice list of the group, as
    [(value, label)] pairs. *)
Record AnswerGroup := {
  ag_pk : Z;
  ag_type : AnswerGroupType;
  ag_name : string;
  ag_prefix : option string;
  ag_suffix : option string;
  get_choices : list (string * string)
}.

Record Question := {
  q_pk : Z;
  q_text : string;
  q_required : bool;
  q_category : option Category;
  q_order : option Z;
  q_answer_groups : list AnswerGroup
}.

Record Survey := {
  survey_id : Z;
  display_method : DisplayMethod;
  editable_answers : bool;
  survey_questions : list Question;
  survey_categories : list Category
}.

Record User := {
  is_authenticated : bool;
  user_id : Z
}.

Record Response := {
  response_pk : option Z;
  response_survey : Z;
  response_user : option Z;
  interview_uuid : string;
  response_random_seed : Z;
  response_extra : string
}.

Record Answer := {
  answer_pk : option Z;
  answer_response : option Z;
  answer_question : Z;
  answer_group_id : Z;
  body : FieldValue
}.

#[global] Instance Response_eq_dec : EqDecision Response.
Proof. solve_decision. Defined.
#[global] Instance Answer_eq_dec : EqDecision Answer.
Proof. solve_decision. Defined.

(** ** Python dictionaries that are iterated

    A [dict] keeps its keys in insertion order; assigning to an existing key
    keeps the key where it is. *)

Definition odict (K V : Type) : Type := list (K * V).

Section odict.
Context {K V : Type} `{EqDecision K}.

(** [d.get(k)] *)
Fixpoint od_get (k : K) (d : odict K V) : option V :=
  match d with
  | [] => None
  | (k', v) :: d' => if decide (k' = k) then Some v else od_get k d'
  end.

(** [d[k] = v] *)
Fixpoint od_set (k : K) (v : V) (d : odict K V) : odict K V :=
  match d with
  | [] => [(k, v)]
  | (k', v') :: d' =>
      if decide (k' = k) then (k', v) :: d' else (k', v') :: od_set k v d'
  end.

(** [k in d] *)
Definition od_mem (k : K) (d : odict K V) : bool :=
  match od_get k d with Some _ => true | None => false end.

End odict.

(** ** Query sets *)

(** The store decides where [NULL] goes in an ascending [ORDER BY]. *)
Class Database := { nulls_first : bool }.

(** [order_by] as a stable insertion sort along [leb]. *)
Fixpoint insert_by {A} (leb : A -> A -> bool) (a : A) (l : list A) : list A :=
  match l with
  | [] => [a]
  | b :: l' => if leb a b then a :: l else b :: insert_by leb a l'
  end.

Definition order_by {A} (leb : A -> A -> bool) (l : list A) : list A :=
  foldr (insert_by leb) [] l.

(** [a] strictly before [b] in a nullable ascending column. *)
Definition null_ltb `{Database} (a b : option Z) : bool :=
  match a, b with
  | None, None => false
  | None, Some _ => nulls_first
  | Some _, None => negb nulls_first
  | Some x, Some y => x <? y
  end.

Definition null_eqb (a b : option Z) : bool :=
  match a, b with
  | None, None => true
  | Some x, Some y => x =? y
  | _, _ => false
  end.

(** The order of [order_by("order", "id")] on questions. *)
Definition order_id_leb `{Database} (a b : Question) : bool :=
  null_ltb (q_order a) (q_order b)
  || (null_eqb (q_order a) (q_order b) && (q_pk a <=? q_pk b)).

(** [order_by("pk")] on answer groups. *)
Definition pk_leb (a b : AnswerGroup) : bool := ag_pk a <=? ag_pk b.

Definition category_id (q : Question) : option Z := cat_id <$> q_category q.

(** [questions.filter(category__isnull=True)] *)
Definition filter_category_isnull (qs : list Question) : list Question :=
  filter (fun q => q_category q = None) qs.

(** [questions.filter(order__isnull=True)] *)
Definition filter_order_isnull (qs : list Question) : list Question :=
  filter (fun q => q_order q = None) qs.

(** [questions.filter(category=c)] *)
Definition filter_category (c : Category) (qs : list Question) : list Question :=
  filter (fun q => category_id q = Some (cat_id c)) qs.

(** Modelled from the spec: [Survey.non_empty_categories] of [survey.models],
    which is not part of the sources at hand: the categories that have at least
    one question, in their stored order. *)
Definition non_empty_categories (s : Survey) : list Category :=
  filter (fun c => filter_category c (survey_questions s) <> []) (survey_categories s).

(** Modelled from the spec: [Survey.is_all_in_one_page] of [survey.models]:
    the display mode is the single-page one. *)
Definition is_all_in_one_page (s : Survey) : bool :=
  bool_decide (display_method s = ALL_IN_ONE_PAGE).

(** [l[i]] for any integer [i]: a negative index counts from the end. *)
Definition index_Z {A} (l : list A) (i : Z) : result A :=
  let n := Z.of_nat (length l) in
  if (0 <=? i) && (i <? n) then index l (Z.to_nat i)
  else if (- n <=? i) && (i <? 0) then index l (Z.to_nat (n + i))
  else Raise IndexError.

(** ** The form *)

Inductive FieldClass : Type :=
  | CharField | MultipleChoiceField | IntegerField | FloatField | DateField
  | ChoiceField.

Inductive Widget : Type :=
  | Textarea | TextInput | RadioSelect | Select | ImageSelectWidget
  | CheckboxSelectMultiple.

#[global] Instance FieldClass_eq_dec : EqDecision FieldClass.
Proof. solve_decision. Defined.
#[global] Instance Widget_eq_dec : EqDecision Widget.
Proof. solve_decision. Defined.

(** [ResponseForm.FIELDS]: a missing key is a [KeyError]. *)
Definition FIELDS (t : AnswerGroupType) : result FieldClass :=
  match t with
  | TEXT => Ok CharField
  | SHORT_TEXT => Ok CharField
  | SELECT_MULTIPLE => Ok MultipleChoiceField
  | INTEGER => Ok IntegerField
  | FLOAT => Ok FloatField
  | DATE => Ok DateField
  | _ => Raise KeyError
  end.

(** [ResponseForm.WIDGETS] *)
Definition WIDGETS (t : AnswerGroupType) : result Widget :=
  match t with
  | TEXT => Ok Textarea
  | SHORT_TEXT => Ok TextInput
  | RADIO => Ok RadioSelect
  | SELECT => Ok Select
  | SELECT_IMAGE => Ok ImageSelectWidget
  | SELECT_MULTIPLE => Ok CheckboxSelectMultiple
  | _ => Raise KeyError
  end.

(** The value of a widget attribute: a string, or [True]. *)
Inductive AttrValue : Type :=
  | AStr (s : string)
  | ATrue.

(** What [get_question_initial] returns: the dictionary recovered from the
    stored answers (answer group id to value), or whatever [data.get] gave. *)
Inductive Initial : Type :=
  | InitialDict (d : gmap Z FieldValue)
  | InitialData (v : FieldValue).

(** Python truth value of an [Initial]. *)
Definition initial_truthy (i : Initial) : bool :=
  match i with
  | InitialDict d => negb (bool_decide (d = ∅))
  | InitialData v => truthy v
  end.

Record Field := {
  field_class : FieldClass;
  required : bool;
  label : string;
  initial : option FieldValue;
  choices : option (list (string * string));
  widget : option Widget;
  attrs : gmap string AttrValue
}.

Definition set_attr (k : string) (v : AttrValue) (f : Field) : Field :=
  {| field_class := field_class f; required := required f; label := label f;
     initial := initial f; choices := choices f; widget := widget f;
     attrs := <[k := v]> (attrs f) |}.

(** The keyword arguments assembled by [add_question]. *)
Record FieldKwargs := {
  kw_required : bool;
  kw_initial : option Initial;
  kw_choices : option (gmap Z (list (string * string)));
  kw_widget : option (gmap Z Widget)
}.

(** One entry of [self.answer_groups]. *)
Record QuestionGroup := {
  group_text : string;
  group_fields : list (string * option string * option string)
}.

(** An attribute that starts as [False], and is then [None] or an object. *)
Inductive Cached (A : Type) : Type :=
  | Unset
  | CNone
  | CSome (a : A).
Arguments Unset {A}.
Arguments CNone {A}.
Arguments CSome {A} a.

Record ResponseForm := {
  survey : Survey;
  user : User;
  extra : string;
  step : option Z;
  random_seed : Z;
  uuid : string;
  categories : list Category;
  qs_with_no_cat : list Question;
  randomize_questions : list Question;
  steps_count : Z;
  response : Cached Response;
  answers : Cached (gmap Z (odict Z Answer));
  answer_groups : odict string QuestionGroup;
  fields : odict string Field;
  cleaned_data : odict string FieldValue
}.

(** ** The persistence layer and the world a form runs in *)

(** What [survey_completed.send] carries. *)
Record Signal := {
  signal_instance : Response;
  signal_survey_id : Z;
  signal_interview_uuid : string;
  signal_responses : list (Z * FieldValue)
}.

Record Store := {
  Question_objects : gmap Z Question;
  AnswerGroup_objects : gmap Z AnswerGroup;
  Response_objects : list Response;
  Answer_objects : list Answer;
  next_response_pk : Z;
  next_answer_pk : Z
}.

Record World `{Random} := {
  self : ResponseForm;
  store : Store;
  generator : rng;
  sent : list Signal
}.

(** *** Attribute updates *)

Definition with_response (r : Cached Response) (f : ResponseForm) : ResponseForm :=
  {| survey := survey f; user := user f; extra := extra f; step := step f;
     random_seed := random_seed f; uuid := uuid f; categories := categories f;
     qs_with_no_cat := qs_with_no_cat f;
     randomize_questions := randomize_questions f;
     steps_count := steps_count f; response := r; answers := answers f;
     answer_groups := answer_groups f; fields := fields f;
     cleaned_data := cleaned_data f |}.

Definition with_answers (a : Cached (gmap Z (odict Z Answer))) (f : ResponseForm)
  : ResponseForm :=
  {| survey := survey f; user := user f; extra := extra f; step := step f;
     random_seed := random_seed f; uuid := uuid f; categories := categories f;
     qs_with_no_cat := qs_with_no_cat f;
     randomize_questions := randomize_questions f;
     steps_count := steps_count f; response := response f; answers := a;
     answer_groups := answer_groups f; fields := fields f;
     cleaned_data := cleaned_data f |}.

Definition with_fields (fs : odict string Field) (gs : odict string QuestionGroup)
  (f : ResponseForm) : ResponseForm :=
  {| survey := survey f; user := user f; extra := extra f; step := step f;
     random_seed := random_seed f; uuid := uuid f; categories := categories f;
     qs_with_no_cat := qs_with_no_cat f;
     randomize_questions := randomize_questions f;
     steps_count := steps_count f; response := response f; answers := answers f;
     answer_groups := gs; fields := fs;
     cleaned_data := cleaned_data f |}.

Definition with_seed_extra (s : Z) (e : string) (f : ResponseForm) : ResponseForm :=
  {| survey := survey f; user := user f; extra := e; step := step f;
     random_seed := s; uuid := uuid f; categories := categories f;
     qs_with_no_cat := qs_with_no_cat f;
     randomize_questions := randomize_questions f;
     steps_count := steps_count f; response := response f; answers := answers f;
     answer_groups := answer_groups f; fields := fields f;
     cleaned_data := cleaned_data f |}.

Definition with_cleaned_data (d : odict string FieldValue) (f : ResponseForm)
  : ResponseForm :=
  {| survey := survey f; user := user f; extra := extra f; step := step f;
     random_seed := random_seed f; uuid := uuid f; categories := categories f;
     qs_with_no_cat := qs_with_no_cat f;
     randomize_questions := randomize_questions f;
     steps_count := steps_count f; response := response f; answers := answers f;
     answer_groups := answer_groups f; fields := fields f;
     cleaned_data := d |}.

Definition with_responses (rs : list Response) (n : Z) (st : Store) : Store :=
  {| Question_objects := Question_objects st;
     AnswerGroup_objects := AnswerGroup_objects st;
     Response_objects := rs; Answer_objects := Answer_objects st;
     next_response_pk := n; next_answer_pk := next_answer_pk st |}.

Definition with_answer_rows (l : list Answer) (n : Z) (st : Store) : Store :=
  {| Question_objects := Question_objects st;
     AnswerGroup_objects := AnswerGroup_objects st;
     Response_objects := Response_objects st; Answer_objects := l;
     next_response_pk := next_response_pk st; next_answer_pk := n |}.

(** *** The monad of the methods: a result and the world after the call.
    A raised exception keeps the changes made before it. *)

Section methods.
Context `{Settings, Text, Random, Database}.

Definition M (A : Type) : Type := World -> result A * World.

Definition ret {A} (a : A) : M A := fun w => (Ok a, w).

Definition lift {A} (r : result A) : M A := fun w => (r, w).

Definition bind {A B} (m : M A) (k : A -> M B) : M B :=
  fun w =>
    match m w with
    | (Ok a, w') => k a w'
    | (Raise e, w') => (Raise e, w')
    end.

Definition get_self : M ResponseForm := fun w => (Ok (self w), w).

Definition modify_self (u : ResponseForm -> ResponseForm) : M unit :=
  fun w => (Ok tt, {| self := u (self w); store := store w;
                      generator := generator w; sent := sent w |}).

Definition get_store : M Store := fun w => (Ok (store w), w).

Definition modify_store (u : Store -> Store) : M unit :=
  fun w => (Ok tt, {| self := self w; store := u (store w);
                      generator := generator w; sent := sent w |}).

Definition put_generator (g : rng) : M unit :=
  fun w => (Ok tt, {| self := self w; store := store w;
                      generator := g; sent := sent w |}).

Definition send (s : Signal) : M unit :=
  fun w => (Ok tt, {| self := self w; store := store w;
                      generator := generator w; sent := sent w ++ [s] |}).

(** [for x in l: body(x)] *)
Fixpoint for_each {A} (l : list A) (body : A -> M unit) : M unit :=
  match l with
  | [] => ret tt
  | x :: l' => bind (body x) (fun _ => for_each l' body)
  end.

End methods.

Declare Scope form_scope.
Delimit Scope form_scope with form.
Notation "x <- c1 ;; c2" := (bind c1 (fun x => c2))
  (at level 100, c1 at next level, right associativity) : form_scope.
Notation "c1 ;;; c2" := (bind c1 (fun _ => c2))
  (at level 100, right associativity) : form_scope.

(** ** Managers of the persistence layer *)

(** [Response.objects.get(user=u, survey=s)] *)
Definition Response_get (u : User) (s : Survey) (st : Store) : result Response :=
  match filter (fun r => response_user r = Some (user_id u)
                         /\ response_survey r = survey_id s)
               (Response_objects st) with
  | [] => Raise DoesNotExist
  | [r] => Ok r
  | _ => Raise MultipleObjectsReturned
  end.

(** [Answer.objects.filter(response=r)]; [r] is [None] or a saved response. *)
Definition Answer_filter (r : option Response) (st : Store) : list Answer :=
  filter (fun a => answer_response a = (r ≫= response_pk)) (Answer_objects st).

(** [Question.objects.get(pk=k)] *)
Definition Question_get (k : Z) (st : Store) : result Question :=
  match Question_objects st !! k with
  | Some q => Ok q
  | None => Raise DoesNotExist
  end.

(** [AnswerGroup.objects.get(pk=k)] *)
Definition AnswerGroup_get (k : Z) (st : Store) : result AnswerGroup :=
  match AnswerGroup_objects st !! k with
  | Some g => Ok g
  | None => Raise DoesNotExist
  end.

Definition set_response_pk (k : Z) (r : Response) : Response :=
  {| response_pk := Some k; response_survey := response_survey r;
     response_user := response_user r; interview_uuid := interview_uuid r;
     response_random_seed := response_random_seed r;
     response_extra := response_extra r |}.

Definition set_answer_pk (k : Z) (a : Answer) : Answer :=
  {| answer_pk := Some k; answer_response := answer_response a;
     answer_question := answer_question a; answer_group_id := answer_group_id a;
     body := body a |}.

(** Replace the row with primary key [k], if there is one. *)
Definition update_row {A} (pk : A -> option Z) (k : Z) (row : A) (rows : list A)
  : list A :=
  map (fun r => if decide (pk r = Some k) then row else r) rows.

Definition has_row {A} (pk : A -> option Z) (k : Z) (rows : list A) : bool :=
  existsb (fun r => bool_decide (pk r = Some k)) rows.

(** [response.save()]: an unsaved object takes the next primary key and is
    inserted; a saved one replaces its row (or is inserted when the row is
    gone).  The object after the call is returned with the new store. *)
Definition Response_save (r : Response) (st : Store) : Response * Store :=
  match response_pk r with
  | None =>
      let r' := set_response_pk (next_response_pk st) r in
      (r', with_responses (Response_objects st ++ [r']) (next_response_pk st + 1) st)
  | Some k =>
      if has_row response_pk k (Response_objects st)
      then (r, with_responses (update_row response_pk k r (Response_objects st))
                              (next_response_pk st) st)
      else (r, with_responses (Response_objects st ++ [r]) (next_response_pk st) st)
  end.

(** [answer.save()] *)
Definition Answer_save (a : Answer) (st : Store) : Answer * Store :=
  match answer_pk a with
  | None =>
      let a' := set_answer_pk (next_answer_pk st) a in
      (a', with_answer_rows (Answer_objects st ++ [a']) (next_answer_pk st + 1) st)
  | Some k =>
      if has_row answer_pk k (Answer_objects st)
      then (a, with_answer_rows (update_row answer_pk k a (Answer_objects st))
                                (next_answer_pk st) st)
      else (a, with_answer_rows (Answer_objects st ++ [a]) (next_answer_pk st) st)
  end.

(** ** Pieces of the methods that do not touch the world *)

(** [int(x)] on a keyword argument. *)
Definition int_of_value (v : FieldValue) : result Z :=
  match v with
  | VInt z => Ok z
  | VStr s => int_of_str s
  | _ => Raise TypeError
  end.

(** Lines 49-52: [self.step], from the optional keyword [step]; a missing
    keyword is the [KeyError] that is caught. *)
Definition init_step (kw : option FieldValue) : result (option Z) :=
  match kw with
  | None => Ok None
  | Some v => (z <- int_of_value v ;; Ok (Some z))%py
  end.

(** Lines 65-68 *)
Definition init_steps_count (s : Survey) (cats : list Category) (no_cat : list Question)
  : Z :=
  if decide (display_method s = BY_CATEGORY)
  then Z.of_nat (length cats) + (match no_cat with [] => 0 | _ => 1 end)
  else Z.of_nat (length (survey_questions s)).

(** [enumerate(l)] *)
Fixpoint enumerate_from {A} (i : Z) (l : list A) : list (Z * A) :=
  match l with
  | [] => []
  | x :: l' => (i, x) :: enumerate_from (i + 1) l'
  end.

Definition enumerate {A} (l : list A) : list (Z * A) := enumerate_from 0 l.

(** The field identifier of [add_question]:
    ["question_{}_{}".format(question.pk, ag.pk)]. *)
Definition field_id (question_pk ag_pk : Z) : string :=
  "question_" +:+ format_int question_pk +:+ "_" +:+ format_int ag_pk.

(** ["question_{}".format(question.pk)] *)
Definition question_id (question_pk : Z) : string :=
  "question_" +:+ format_int question_pk.

Section decoding.
Context `{Settings, Text}.

(** Lines 207-208: one piece of a stored multiple choice. *)
Definition decode_choice (unformated_choice : string) : result string :=
  (parts <- Str.split "'" unformated_choice ;;
   choice <- index parts 1 ;;
   Ok (slugify choice))%py.

(** Lines 200-211: the initial value of a multiple choice, from the stored
    body. *)
Definition multiple_initial (answer_body : string) : result (list string) :=
  if String.eqb answer_body "[]" then Ok []
  else if Str.contains "[" answer_body && Str.contains "]" answer_body then
    let unformated_choices := Str.strip (Str.slice answer_body 1 (-1)) in
    (pieces <- Str.split CHOICES_SEPARATOR unformated_choices ;;
     mapM decode_choice pieces)%py
  else Ok [slugify answer_body].

(** The body of the loop of lines 197-213 for one stored answer.  The body of
    a stored answer is text; the string operations of the multiple-choice
    branch fail on anything else. *)
Definition initial_of_answer (ag_types : gmap Z AnswerGroup) (answer : Answer)
  : result FieldValue :=
  match ag_type <$> (ag_types !! answer_group_id answer) with
  | Some SELECT_MULTIPLE =>
      match body answer with
      | VStr s => (l <- multiple_initial s ;; Ok (VList l))%py
      | _ => Raise TypeError
      end
  | Some _ => Ok (body answer)
  | None => Raise DoesNotExist
  end.

(** Lines 196-213: the dictionary recovered from the stored answers. *)
Fixpoint initial_of_answers (ag_types : gmap Z AnswerGroup)
    (answers : odict Z Answer) (initial : gmap Z FieldValue)
  : result (gmap Z FieldValue) :=
  match answers with
  | [] => Ok initial
  | (ag_id, answer) :: rest =>
      (v <- initial_of_answer ag_types answer ;;
       initial_of_answers ag_types rest (<[ag_id := v]> initial))%py
  end.

(** Lines 194-213: the value recovered from the stored answers of the
    question; nothing is decoded when there are none. *)
Definition recovered (st : Store) (answers : odict Z Answer) : result Initial :=
  match answers with
  | [] => Ok (InitialDict ∅)
  | _ => (d <- initial_of_answers (AnswerGroup_objects st) answers ∅ ;;
          Ok (InitialDict d))%py
  end.

(** Lines 214-217: data that is true replaces the recovered value by
    [data.get("question_%d" % question.pk)]. *)
Definition overridden (question : Question) (data : option (odict string FieldValue))
    (initial : Initial) : Initial :=
  match data with
  | Some ((_ :: _) as d) =>
      InitialData (default VNone (od_get (question_id (q_pk question)) d))
  | _ => initial
  end.

End decoding.

(** ** The methods of [ResponseForm] *)

Section ResponseForm.
Context `{Settings, Text, Random, Database}.
Local Open Scope form_scope.

(** [_get_preexisting_response] (lines 128-148) *)
Definition _get_preexisting_response : M (option Response) :=
  f <- get_self ;;
  match response f with
  | CSome r => ret (Some r)
  | _ =>
      if negb (is_authenticated (user f)) then
        modify_self (with_response CNone) ;;; ret None
      else
        st <- get_store ;;
        match Response_get (user f) (survey f) st with
        | Ok r => modify_self (with_response (CSome r)) ;;; ret (Some r)
        | Raise DoesNotExist => modify_self (with_response CNone) ;;; ret None
        | Raise e => lift (Raise e)
        end
  end.

(** Lines 166-170: the answers of a response, by question id and then by
    answer group id. *)
Definition group_answers (l : list Answer) : gmap Z (odict Z Answer) :=
  fold_left
    (fun (m : gmap Z (odict Z Answer)) a =>
       let m' := match m !! answer_question a with
                 | Some _ => m
                 | None => <[answer_question a := []]> m
                 end in
       <[answer_question a :=
           od_set (answer_group_id a) a (default [] (m' !! answer_question a))]> m')
    l ∅.

(** Lines 161-174: read the answers of the response from the store. *)
Definition fetch_answers : M (gmap Z (odict Z Answer)) :=
  r <- _get_preexisting_response ;;
  (match r with
   | None => modify_self (with_answers CNone)
   | Some _ => ret tt
   end) ;;;
  st <- get_store ;;
  let m := group_answers (Answer_filter r st) in
  modify_self (with_answers (CSome m)) ;;; ret m.

(** [_get_preexisting_answers] (lines 150-174).  A cached dictionary is
    reused only when it is not empty.  Filtering never raises, so the
    handler of line 171 has nothing to catch. *)
Definition _get_preexisting_answers : M (gmap Z (odict Z Answer)) :=
  f <- get_self ;;
  match answers f with
  | CSome m => if bool_decide (m = ∅) then fetch_answers else ret m
  | _ => fetch_answers
  end.

(** [_get_preexisting_answer(question, None)] (lines 184-186): with no
    answer group, the answers of the question by answer group id. *)
Definition _get_preexisting_answer_all (question : Question) : M (odict Z Answer) :=
  answers <- _get_preexisting_answers ;;
  ret (default [] (answers !! q_pk question)).

(** [_get_preexisting_answer(question, answer_group)]: a model object is
    always true, so the group's answer is looked up. *)
Definition _get_preexisting_answer (question : Question) (answer_group : AnswerGroup)
  : M (option Answer) :=
  qanswers <- _get_preexisting_answer_all question ;;
  ret (od_get (ag_pk answer_group) qanswers).

(** [get_question_initial] (lines 188-218) *)
Definition get_question_initial (question : Question)
    (data : option (odict string FieldValue)) : M Initial :=
  answers <- _get_preexisting_answer_all question ;;
  st <- get_store ;;
  initial <- lift (recovered st answers) ;;
  ret (overridden question data initial).

(** [get_question_widget] (lines 220-228): one missing widget makes the
    whole answer [None]. *)
Definition get_question_widget (question : Question) : option (gmap Z Widget) :=
  match mapM (fun ag => (w <- WIDGETS (ag_type ag) ;; Ok (ag_pk ag, w))%py)
             (q_answer_groups question) with
  | Ok l => Some (list_to_map (reverse l))
  | Raise _ => None
  end.

(** Lines 238-251 for one answer group. *)
Definition add_choices (qchoices : gmap Z (list (string * string))) (ag : AnswerGroup)
  : gmap Z (list (string * string)) :=
  if negb (bool_decide (ag_type ag ∈ [TEXT; SHORT_TEXT; INTEGER; FLOAT; DATE]))
  then
    let choices := get_choices ag in
    let choices :=
      if bool_decide (ag_type ag ∈ [SELECT; SELECT_IMAGE])
      then ("", "-------------") :: choices
      else choices in
    match choices with
    | [] => qchoices
    | _ => <[ag_pk ag := choices]> qchoices
    end
  else qchoices.

(** [get_question_choices] (lines 230-252) *)
Definition get_question_choices (question : Question)
  : option (gmap Z (list (string * string))) :=
  let qchoices := fold_left add_choices (q_answer_groups question) ∅ in
  if bool_decide (qchoices = ∅) then None else Some qchoices.

(** Lines 266-270: the [initial] keyword of one field.  [ag.pk in x] is a key
    lookup on a dictionary, is false on a list of strings, and is a
    [TypeError] on anything else that can come out of [data]. *)
Definition field_initial (pk : Z) (i : option Initial) : result (option FieldValue) :=
  match i with
  | None => Ok None
  | Some (InitialDict d) => Ok (d !! pk)
  | Some (InitialData (VList _)) => Ok None
  | Some (InitialData _) => Raise TypeError
  end.

(** [get_question_fields] (lines 254-286) *)
Definition get_question_fields (question : Question) (kwargs : FieldKwargs)
  : result (list (AnswerGroup * Field)) :=
  mapM
    (fun ag =>
       (i <- field_initial (ag_pk ag) (kw_initial kwargs) ;;
        Ok (ag,
            {| field_class := match FIELDS (ag_type ag) with
                              | Ok c => c
                              | Raise _ => ChoiceField
                              end;
               required := kw_required kwargs;
               label := ag_name ag;
               initial := i;
               choices := kw_choices kwargs ≫= (fun m => m !! ag_pk ag);
               widget := kw_widget kwargs ≫= (fun m => m !! ag_pk ag);
               attrs := ∅ |}))%py)
    (order_by pk_leb (q_answer_groups question)).

(** Lines 304-307 *)
Definition decorate (question : Question) (agf : AnswerGroup * Field)
  : AnswerGroup * Field :=
  let '(ag, field) := agf in
  let field :=
    set_attr "category"
      (AStr (match q_category question with
             | Some c => cat_name c
             | None => ""
             end)) field in
  (ag, if decide (ag_type ag = DATE) then set_attr "class" (AStr "date") field
       else field).

(** Lines 310-316 for one field. *)
Definition register_field (question : Question) (agf : AnswerGroup * Field)
    (f : ResponseForm) : ResponseForm :=
  let '(ag, field) := agf in
  let idf := field_id (q_pk question) (ag_pk ag) in
  let idq := question_id (q_pk question) in
  let fs := od_set idf field (fields f) in
  let gs := if od_mem idq (answer_groups f) then answer_groups f
            else od_set idq {| group_text := q_text question; group_fields := [] |}
                   (answer_groups f) in
  let gs := match od_get idq gs with
            | Some g =>
                od_set idq
                  {| group_text := group_text g;
                     group_fields := group_fields g ++ [(idf, ag_prefix ag, ag_suffix ag)] |}
                  gs
            | None => gs
            end in
  with_fields fs gs f.

(** [add_question] (lines 288-316) *)
Definition add_question (question : Question)
    (data : option (odict string FieldValue)) : M unit :=
  initial <- get_question_initial question data ;;
  let kwargs :=
    {| kw_required := q_required question;
       kw_initial := if initial_truthy initial then Some initial else None;
       kw_choices := get_question_choices question;
       kw_widget := match get_question_widget question with
                    | Some m => if bool_decide (m = ∅) then None else Some m
                    | None => None
                    end |} in
  fields <- lift (get_question_fields question kwargs) ;;
  let fields := map (decorate question) fields in
  for_each fields (fun agf => modify_self (register_field question agf)).

(** Lines 96-99 and 105-108: [random.seed(self.random_seed)] and then
    [random.shuffle], on the global generator. *)
Definition seeded_shuffle {A} (l : list A) : M (list A) :=
  f <- get_self ;;
  let '(r, g) := shuffle l (seed (random_seed f)) in
  put_generator g ;;; lift r.

(** Lines 104-108: the questions of the survey in the order of the form. *)
Definition all_questions : M (list Question) :=
  f <- get_self ;;
  let questions := order_by order_id_leb (survey_questions (survey f)) in
  match randomize_questions f with
  | [] => ret questions
  | _ => seeded_shuffle questions
  end.

(** Lines 91-99: the questions of the step of a survey shown by category. *)
Definition questions_of_category_step (step : Z) : M (list Question) :=
  f <- get_self ;;
  qs_for_step <-
    (if step =? Z.of_nat (length (categories f)) then ret (qs_with_no_cat f)
     else
       c <- lift (index_Z (categories f) step) ;;
       ret (order_by order_id_leb (filter_category c (survey_questions (survey f))))) ;;
  match randomize_questions f with
  | [] => ret qs_for_step
  | _ => seeded_shuffle qs_for_step
  end.

(** [add_questions] (lines 86-114) *)
Definition add_questions (data : option (odict string FieldValue)) : M unit :=
  f <- get_self ;;
  match decide (display_method (survey f) = BY_CATEGORY), step f with
  | left _, Some step =>
      qs_for_step <- questions_of_category_step step ;;
      for_each qs_for_step (fun question => add_question question data)
  | _, _ =>
      questions <- all_questions ;;
      for_each (enumerate questions)
        (fun '(i, question) =>
           let not_to_keep :=
             match step f with
             | Some step => negb (i =? step)
             | None => false
             end in
           if bool_decide (display_method (survey f) = BY_QUESTION) && not_to_keep
           then ret tt
           else add_question question data)
  end.

(** [has_next_step] (lines 318-322): comparing [None] with an integer is a
    [TypeError]. *)
Definition has_next_step (f : ResponseForm) : result bool :=
  if negb (is_all_in_one_page (survey f)) then
    match step f with
    | Some step => if step <? steps_count f - 1 then Ok true else Ok false
    | None => Raise TypeError
    end
  else Ok false.

End ResponseForm.

(** ** Construction and saving *)

(** The arguments of the constructor, and the identifier that [uuid.uuid4]
    draws for this form. *)
Record InitArgs := {
  arg_survey : Survey;
  arg_user : User;
  arg_extra : option string;
  arg_step : option FieldValue;
  arg_seed : option FieldValue;
  arg_data : option (odict string FieldValue);
  arg_uuid : string
}.

(** [x is not None] on a cached attribute ([False] is not [None]). *)
Definition is_not_None {A} (c : Cached A) : bool :=
  match c with CNone => false | _ => true end.

(** [s.split(sep, 1)] for a non-empty [sep]. *)
Fixpoint split_once (sep s : string) : list string :=
  match s with
  | EmptyString => [EmptyString]
  | String c s' =>
      if String.prefix sep s
      then [EmptyString; String.substring (String.length sep) (String.length s) s]
      else match split_once sep s' with
           | h :: t => String c h :: t
           | [] => [String c EmptyString]
           end
  end.

(** [a, b = l] *)
Definition unpack2 {A} (l : list A) : result (A * A) :=
  match l with
  | [a; b] => Ok (a, b)
  | _ => Raise ValueError
  end.

(** Line 382: [value, img_src = field_value.split(":", 1)] *)
Definition split_image_value (field_value : FieldValue) : result (string * string) :=
  match field_value with
  | VStr s => unpack2 (split_once ":" s)
  | _ => Raise AttributeError
  end.

(** Lines 46-73, once [step] and [seed] have been read: the form before its
    first query. *)
Definition new_form `{Database} (a : InitArgs) (step : option Z) (random_seed : Z)
  : ResponseForm :=
  let survey := arg_survey a in
  let categories := non_empty_categories survey in
  let qs_with_no_cat :=
    order_by order_id_leb (filter_category_isnull (survey_questions survey)) in
  {| survey := survey; user := arg_user a;
     extra := default "" (arg_extra a); step := step;
     random_seed := random_seed; uuid := arg_uuid a;
     categories := categories; qs_with_no_cat := qs_with_no_cat;
     randomize_questions := filter_order_isnull (survey_questions survey);
     steps_count := init_steps_count survey categories qs_with_no_cat;
     response := Unset; answers := Unset;
     answer_groups := []; fields := []; cleaned_data := [] |}.

Section ResponseForm_save.
Context `{Settings, Text, Random, Database}.
Local Open Scope form_scope.

(** Lines 46-73: the attributes set before the first query. *)
Definition init_attributes (a : InitArgs) (g : rng) : result (ResponseForm * rng) :=
  match init_step (arg_step a) with
  | Raise e => Raise e
  | Ok step =>
      let '(random_seed, g') :=
        match arg_seed a with
        | Some v => match int_of_value v with
                    | Ok z => (z, g)
                    | Raise _ => randint 0 1000000 g
                    end
        | None => randint 0 1000000 g
        end in
      Ok (new_form a step random_seed, g')
  end.

(** Lines 75-84 *)
Definition init_questions (data : option (odict string FieldValue)) : M unit :=
  r <- _get_preexisting_response ;;
  (match r with
   | Some r => modify_self (with_seed_extra (response_random_seed r) (response_extra r))
   | None => ret tt
   end) ;;;
  add_questions data ;;;
  f <- get_self ;;
  if negb (editable_answers (survey f)) && is_not_None (response f) then
    modify_self (fun f =>
      with_fields (map (fun '(name, fld) => (name, set_attr "disabled" ATrue fld)) (fields f))
                  (answer_groups f) f)
  else ret tt.

(** [__init__] (lines 44-84): the world with the new form, unless the
    constructor raises. *)
Definition __init__ (a : InitArgs) (st : Store) (g : rng) (out : list Signal)
  : result World :=
  match init_attributes a g with
  | Raise e => Raise e
  | Ok (f, g') =>
      match init_questions (arg_data a)
              {| self := f; store := st; generator := g'; sent := out |} with
      | (Ok _, w) => Ok w
      | (Raise e, _) => Raise e
      end
  end.

(** Lines 369-389: one item of [cleaned_data]; the pair added to
    [data["responses"]], if any. *)
Definition save_answer (response : Response) (field_name : string)
    (field_value : FieldValue) : M (option (Z * FieldValue)) :=
  if Str.startswith field_name "question_" then
    parts <- lift (Str.split "_" field_name) ;;
    q_id <- lift (rbind (index parts 1) int_of_str) ;;
    ag_id <- lift (rbind (index parts 2) int_of_str) ;;
    st <- get_store ;;
    question <- lift (Question_get q_id st) ;;
    answer_group <- lift (AnswerGroup_get ag_id st) ;;
    answer <- _get_preexisting_answer question answer_group ;;
    let cached := bool_decide (is_Some answer) in
    let answer :=
      default {| answer_pk := None; answer_response := None;
                 answer_question := q_pk question;
                 answer_group_id := ag_pk answer_group; body := VNone |} answer in
    (if decide (ag_type answer_group = SELECT_IMAGE)
     then _ <- lift (split_image_value field_value) ;; ret tt
     else ret tt) ;;;
    let answer :=
      {| answer_pk := answer_pk answer; answer_response := response_pk response;
         answer_question := answer_question answer;
         answer_group_id := answer_group_id answer; body := field_value |} in
    st <- get_store ;;
    let '(answer, st') := Answer_save answer st in
    modify_store (fun _ => st') ;;;
    (if cached then
       modify_self (fun f =>
         match answers f with
         | CSome m =>
             with_answers
               (CSome (<[q_pk question :=
                           od_set (ag_pk answer_group) answer
                             (default [] (m !! q_pk question))]> m)) f
         | _ => f
         end)
     else ret tt) ;;;
    ret (Some (answer_question answer, body answer))
  else ret None.

(** The loop of lines 368-389. *)
Fixpoint save_answers (response : Response) (items : odict string FieldValue)
    (responses : list (Z * FieldValue)) : M (list (Z * FieldValue)) :=
  match items with
  | [] => ret responses
  | (field_name, field_value) :: items' =>
      r <- save_answer response field_name field_value ;;
      save_answers response items'
        (match r with Some p => responses ++ [p] | None => responses end)
  end.

(** [save] (lines 348-391) *)
Definition save : M (option Response) :=
  preexisting <- _get_preexisting_response ;;
  f <- get_self ;;
  if negb (editable_answers (survey f)) && bool_decide (is_Some preexisting)
  then ret None
  else
    let response :=
      default {| response_pk := None; response_survey := survey_id (survey f);
                 response_user := None; interview_uuid := "";
                 response_random_seed := 0; response_extra := "" |}
              preexisting in
    let response :=
      {| response_pk := response_pk response;
         response_survey := survey_id (survey f);
         response_user := if is_authenticated (user f) then Some (user_id (user f))
                          else response_user response;
         interview_uuid := uuid f;
         response_random_seed := random_seed f;
         response_extra := extra f |} in
    st <- get_store ;;
    let '(response, st') := Response_save response st in
    modify_store (fun _ => st') ;;;
    (match preexisting with
     | Some _ => modify_self (with_response (CSome response))
     | None => ret tt
     end) ;;;
    responses <- save_answers response (cleaned_data f) [] ;;
    send {| signal_instance := response;
            signal_survey_id := response_survey response;
            signal_interview_uuid := interview_uuid response;
            signal_responses := responses |} ;;;
    ret (Some response).

End ResponseForm_save.

(** ** Instances of the collaborators, for running the model *)

Module Sample.

(** The separator django-survey ships as its default. *)
Definition comma_settings : Settings := {| CHOICES_SEPARATOR := "," |}.

(** A project that has chosen another separator. *)
Definition semicolon_settings : Settings := {| CHOICES_SEPARATOR := ";" |}.

Definition lower (c : ascii) : ascii :=
  let n := nat_of_ascii c in
  if ((65 <=? n) && (n <=? 90))%nat then ascii_of_nat (n + 32) else c.

(** [\w] on ASCII *)
Definition is_word (c : ascii) : bool :=
  let n := nat_of_ascii c in
  ((48 <=? n) && (n <=? 57) || (65 <=? n) && (n <=? 90)
   || (97 <=? n) && (n <=? 122) || (n =? 95))%nat.

Definition is_hyphen (c : ascii) : bool := (nat_of_ascii c =? 45)%nat.

Definition is_ascii (c : ascii) : bool := (nat_of_ascii c <? 128)%nat.

(** [re.sub(r'[^\w\s-]', '', s)] on lower-cased ASCII *)
Fixpoint keep_slug_chars (s : string) : string :=
  match s with
  | EmptyString => EmptyString
  | String c s' =>
      if is_ascii c && (is_word c || Str.is_space c || is_hyphen c)
      then String (lower c) (keep_slug_chars s')
      else keep_slug_chars s'
  end.

(** [re.sub(r'[-\s]+', '-', s)]: [in_run] tells whether the previous character
    was part of the run being replaced. *)
Fixpoint collapse_runs (in_run : bool) (s : string) : string :=
  match s with
  | EmptyString => EmptyString
  | String c s' =>
      if Str.is_space c || is_hyphen c
      then if in_run then collapse_runs true s'
           else String "-"%char (collapse_runs true s')
      else String c (collapse_runs false s')
  end.

(** [slugify] of Django 3.1 on ASCII text; characters outside ASCII, which
    Django first decomposes, are simply dropped by this instance. *)
Definition slugify_ascii (value : string) : string :=
  collapse_runs false (Str.strip (keep_slug_chars value)).

Definition ascii_text : Text := {| slugify := slugify_ascii |}.

(** A small affine generator standing in for Python's generator. *)
Definition lcg_next (g : Z) : Z := 5 * g + 3.

Definition lcg_randbelow (n : nat) (g : Z) : nat * Z :=
  (Z.to_nat (g mod Z.of_nat n), lcg_next g).

Definition lcg : Random :=
  {| rng := Z;
     seed := Z.abs;
     randbelow := lcg_randbelow;
     randint := fun a b g => (a + g mod (b - a + 1), lcg_next g) |}.

Definition nulls_last : Database := {| nulls_first := false |}.

(** A survey with two categories and five questions. *)
Definition colours : Category := {| cat_id := 1; cat_name := "Colours"; cat_description := "" |}.
Definition shapes : Category := {| cat_id := 2; cat_name := "Shapes"; cat_description := "" |}.
Definition unused : Category := {| cat_id := 3; cat_name := "Unused"; cat_description := "" |}.

Definition group (pk : Z) (t : AnswerGroupType) (cs : list (string * string))
  : AnswerGroup :=
  {| ag_pk := pk; ag_type := t; ag_name := "Answer"; ag_prefix := None;
     ag_suffix := None; get_choices := cs |}.

Definition rgb : list (string * string) :=
  [("red", "Red"); ("green", "Green"); ("blue", "Blue")].

Definition question (pk : Z) (c : option Category) (o : option Z)
    (gs : list AnswerGroup) : Question :=
  {| q_pk := pk; q_text := "Question " +:+ format_int pk; q_required := true;
     q_category := c; q_order := o; q_answer_groups := gs |}.

Definition q9 := question 9 (Some colours) (Some 1) [group 41 SELECT_MULTIPLE rgb].
Definition q17 := question 17 (Some colours) (Some 2)
                    [group 42 SELECT rgb; group 43 RADIO rgb].
Definition q20 := question 20 (Some shapes) (Some 3) [group 44 INTEGER []].
Definition q21 := question 21 None (Some 4) [group 45 SELECT_IMAGE rgb].
Definition q22 := question 22 None (Some 5) [group 46 TEXT []].

Definition survey_with (m : DisplayMethod) (editable : bool) : Survey :=
  {| survey_id := 1; display_method := m; editable_answers := editable;
     survey_questions := [q20; q9; q22; q17; q21];
     survey_categories := [colours; shapes; unused] |}.

Definition alice : User := {| is_authenticated := true; user_id := 7 |}.

Definition schema : Store :=
  {| Question_objects := list_to_map (map (fun q => (q_pk q, q)) [q9; q17; q20; q21; q22]);
     AnswerGroup_objects :=
       list_to_map (map (fun g => (ag_pk g, g))
                      (concat (map q_answer_groups [q9; q17; q20; q21; q22])));
     Response_objects := []; Answer_objects := [];
     next_response_pk := 1; next_answer_pk := 1 |}.

Definition args_for (s : Survey) (step : option FieldValue) : InitArgs :=
  {| arg_survey := s; arg_user := alice; arg_extra := None;
     arg_step := step; arg_seed := Some (VInt 5); arg_data := None;
     arg_uuid := "0f8fad5bd9cb469fa16570867728950e" |}.

Definition args (m : DisplayMethod) (editable : bool) (step : option FieldValue)
  : InitArgs :=
  args_for (survey_with m editable) step.

(** Surveys shown by category with three non-empty categories, with and
    without questions outside every category. *)
Definition q30 := question 30 (Some unused) (Some 6) [group 47 SHORT_TEXT []].

Definition three_categories (uncategorized : bool) : Survey :=
  {| survey_id := 2; display_method := BY_CATEGORY; editable_answers := true;
     survey_questions :=
       if uncategorized then [q20; q9; q22; q17; q30] else [q20; q9; q17; q30];
     survey_categories := [colours; shapes; unused] |}.


(** Alice's saved response to the survey, and a store that holds it together
    with some answers. *)
Definition alice_response : Response :=
  {| response_pk := Some 1; response_survey := 1; response_user := Some 7;
     interview_uuid := "6fa459eaee8a3ca4894edb77e160355e";
     response_random_seed := 5; response_extra := "" |}.

Definition stored_answer (pk q g : Z) (b : FieldValue) : Answer :=
  {| answer_pk := Some pk; answer_response := Some 1; answer_question := q;
     answer_group_id := g; body := b |}.

Definition store_with (l : list Answer) : Store :=
  {| Question_objects := Question_objects schema;
     AnswerGroup_objects := AnswerGroup_objects schema;
     Response_objects := [alice_response]; Answer_objects := l;
     next_response_pk := 2; next_answer_pk := 1 + Z.of_nat (length l) |}.


(** The world in which a form for [a] has just been allocated (line 73), over
    the store [st]. *)
Definition world (a : InitArgs) (step : option Z) (st : Store) : @World lcg :=
  @Build_World lcg (@new_form nulls_last a step 5) st (0 : Z) [].

(** The same world once the form is validated with [cleaned]. *)
Definition submitted (a : InitArgs) (step : option Z) (st : Store)
    (cleaned : odict string FieldValue) : @World lcg :=
  @Build_World lcg (with_cleaned_data cleaned (@new_form nulls_last a step 5)) st
    (0 : Z) [].

(** The keyword arguments of the fields of question 17, with no initial
    value. *)
Definition q17_kwargs : FieldKwargs :=
  {| kw_required := true; kw_initial := None;
     kw_choices := get_question_choices q17;
     kw_widget := get_question_widget q17 |}.

Definition empty_option : string * string := ("", "-------------").

End Sample.

(** ** The text a multiple choice is stored as

    Line 385 gives the answer the list of the chosen tokens as its body, and
    the text column keeps Python's [str] of it: [repr] of each token, joined by
    a comma and a space, between brackets. *)

(** [str.isprintable] on one character of the Latin-1 range. *)
Definition is_printable (c : ascii) : bool :=
  let n := nat_of_ascii c in
  ((32 <=? n) && (n <=? 126) || (161 <=? n) && negb (n =? 173))%nat.

Definition hex_digit (n : nat) : ascii :=
  if (n <? 10)%nat then ascii_of_nat (48 + n) else ascii_of_nat (87 + n).

(** The two lower-case hexadecimal digits of a character. *)
Definition hex2 (c : ascii) : string :=
  let n := nat_of_ascii c in
  String (hex_digit (n / 16)) (String (hex_digit (n mod 16)) EmptyString).

Definition double_quote : ascii := ascii_of_nat 34.
Definition backslash : ascii := ascii_of_nat 92.

(** One character inside [repr], between quotes [q]. *)
Definition repr_char (q c : ascii) : string :=
  if Ascii.eqb c q || Ascii.eqb c backslash then String backslash (String c EmptyString)
  else if Ascii.eqb c (ascii_of_nat 9) then String backslash "t"
  else if Ascii.eqb c (ascii_of_nat 10) then String backslash "n"
  else if Ascii.eqb c (ascii_of_nat 13) then String backslash "r"
  else if is_printable c then String c EmptyString
  else String backslash (String "x" (hex2 c)).

Fixpoint repr_body (q : ascii) (s : string) : string :=
  match s with
  | EmptyString => EmptyString
  | String c s' => repr_char q c +:+ repr_body q s'
  end.

(** [repr(s)]: between single quotes, unless [s] holds a single quote and no
    double quote. *)
Definition repr (s : string) : string :=
  let q := if Str.contains "'" s
              && negb (Str.contains (String double_quote EmptyString) s)
           then double_quote else "'"%char in
  String q (repr_body q s +:+ String q EmptyString).

(** [str(tokens)] for a list of strings. *)
Definition str_of_list (tokens : list string) : string :=
  "[" +:+ Str.join ", " (map repr tokens) +:+ "]".

(** A token between single quotes, as it is. *)
Definition quote (token : string) : string := "'" +:+ token +:+ "'".

(** The quoted tokens joined by [joiner], between brackets. *)
Definition encode_joined (joiner : string) (tokens : list string) : string :=
  "[" +:+ Str.join joiner (map quote tokens) +:+ "]".

(** The characters that [repr] writes as they are between single quotes. *)
Definition is_plain_char (c : ascii) : bool :=
  is_printable c && negb (Ascii.eqb c "'") && negb (Ascii.eqb c backslash).

(** The tokens for which the stored text can be read back: [repr] writes them
    between single quotes as they are, and they do not hold the separator. *)
Definition plain `{Settings} (token : string) : Prop :=
  all_chars is_plain_char token = true
  /\ Str.contains CHOICES_SEPARATOR token = false.

(** The element of [l] at the integer [i], if [i] is a position of [l]. *)
Definition at_index {A} (l : list A) (i : Z) : option A :=
  if i <? 0 then None else l !! Z.to_nat i.

(** The world a constructor call ends in, or [w] when it raises. *)
Definition built `{Random} (r : result World) (w : World) : World :=
  match r with
  | Ok w' => w'
  | Raise _ => w
  end.

(** The body of the loop of lines 110-114 for a survey shown by question at
    step [k]. *)
Definition keep_step `{Settings, Text, Random} (data : option (odict string FieldValue)) (k : Z)
    (iq : Z * Question) : M unit :=
  let '(i, question) := iq in
  if negb (i =? k) then ret tt else add_question question data.

(** The world with the form replaced. *)
Definition with_self `{Random} (f : ResponseForm) (w : World) : World :=
  {| self := f; store := store w; generator := generator w; sent := sent w |}.

(** The world after some other use of the generator. *)
Definition with_generator `{Random} (g : rng) (w : World) : World :=
  {| self := self w; store := store w; generator := g; sent := sent w |}.

(** What [random._randbelow] promises: a number below its argument. *)
Definition randbelow_in_range `{Random} : Prop :=
  forall (n : nat) (g : rng), (0 < n)%nat -> (fst (randbelow n g) < n)%nat.

(** A method that only reads the store and sends nothing. *)
Definition read_only `{Random} {A} (m : M A) : Prop :=
  forall w, store (snd (m w)) = store w /\ sent (snd (m w)) = sent w.

(** The answer that line 380 makes when none is stored. *)
Definition new_answer (question : Question) (answer_group : AnswerGroup) : Answer :=
  {| answer_pk := None; answer_response := None;
     answer_question := q_pk question;
     answer_group_id := ag_pk answer_group; body := VNone |}.

(** Lines 385 and 388: the answer with its body and response set. *)
Definition filled (answer : Answer) (response : Response) (value : FieldValue)
  : Answer :=
  {| answer_pk := answer_pk answer; answer_response := response_pk response;
     answer_question := answer_question answer;
     answer_group_id := answer_group_id answer; body := value |}.

(** The attributes of a form that are fixed once lines 46-68 have run. *)
Definition same_schema (f f' : ResponseForm) : Prop :=
  survey f' = survey f /\ user f' = user f /\ step f' = step f
  /\ uuid f' = uuid f /\ categories f' = categories f
  /\ qs_with_no_cat f' = qs_with_no_cat f
  /\ randomize_questions f' = randomize_questions f
  /\ steps_count f' = steps_count f.

(** A method keeps them, whatever the world it starts in and however it
    ends. *)
Definition frame `{Random} {A} (m : M A) : Prop :=
  forall w, same_schema (self w) (self (snd (m w))).

(** A body is unbracketed when it does not hold both an opening and a closing
    bracket; this is the test of line 203. *)
Definition bracketed (s : string) : bool :=
  Str.contains "[" s && Str.contains "]" s.

(** ** Predicates on strings used in the statements *)

(** The characters of a formatted integer. *)
Definition is_int_char (c : ascii) : bool :=
  is_digit c || Ascii.eqb c "-".

(** [clean sep x tail]: scanning [x ++ tail] from the left, no occurrence of
    [sep] starts inside [x]. *)
Fixpoint clean (sep x tail : string) : bool :=
  match x with
  | EmptyString => true
  | String _ x' => negb (String.prefix sep (x +:+ tail)) && clean sep x' tail
  end.


(** ** The remaining methods of the form *)

(** A section header: a category of the survey, or the unsaved
    [Category(name="No category", description="No cat desc")]. *)
Inductive Header : Type :=
  | Saved (c : Category)
  | Unsaved (name description : string).

Definition no_category : Header := Unsaved "No category" "No cat desc".

(** [current_categories] (lines 116-126) *)
Definition current_categories (f : ResponseForm) : result (list Header) :=
  if decide (display_method (survey f) = BY_CATEGORY) then
    match step f with
    | Some step =>
        if step <? Z.of_nat (length (categories f))
        then (c <- index_Z (categories f) step ;; Ok [Saved c])%py
        else Ok [no_category]
    | None => Ok [no_category]
    end
  else
    let extras := match qs_with_no_cat f with
                  | [] => []
                  | _ => [no_category]
                  end in
    Ok (map Saved (categories f) ++ extras).

(** [groups_by_question] (lines 393-395): [self[k]] is a [KeyError] when the
    form has no field [k]. *)
Definition groups_by_question (f : ResponseForm)
  : result (list (string * list (Field * option string * option string))) :=
  mapM (fun '(_, v) =>
          (l <- mapM (fun '(k, p, s) =>
                        match od_get k (fields f) with
                        | Some field => Ok (field, p, s)
                        | None => Raise KeyError
                        end)
                     (group_fields v) ;;
           Ok (group_text v, l))%py)
       (answer_groups f).

(** The keyword arguments given to [reverse] for the route
    ["survey-detail-step"]. *)
Record StepRoute := {
  route_id : Z;
  route_step : option Z;
  route_seed : Z
}.

(** [django.urls.reverse], for that route. *)
Class Urls := { reverse : StepRoute -> string }.

(** ["?{}".format(self.extra) if self.extra else ""] *)
Definition remainder (f : ResponseForm) : string :=
  if String.eqb (extra f) "" then "" else "?" +:+ extra f.

(** [self.random_seed if self.randomize_questions else 0] *)
Definition route_seed_of (f : ResponseForm) : Z :=
  match randomize_questions f with
  | [] => 0
  | _ => random_seed f
  end.

(** [next_step_url] (lines 324-332): [None] when there is no next step. *)
Definition next_step_url `{Urls} (f : ResponseForm) : result (option string) :=
  (next <- has_next_step f ;;
   if next : bool then
     match step f with
     | Some step =>
         Ok (Some (reverse {| route_id := survey_id (survey f);
                              route_step := Some (step + 1);
                              route_seed := route_seed_of f |}
                   +:+ remainder f))
     | None => Raise TypeError
     end
   else Ok None)%py.

(** [current_step_url] (lines 334-346) *)
Definition current_step_url `{Urls} (f : ResponseForm) : string :=
  reverse {| route_id := survey_id (survey f);
             route_step := step f;
             route_seed := route_seed_of f |}
  +:+ remainder f.

(** ** Relations between the world before and after a method *)

(** The world with another store. *)
Definition with_store `{Random} (st : Store) (w : World) : World :=
  {| self := self w; store := st; generator := generator w; sent := sent w |}.

(** A method takes the world from [w] to some [w'] with [R w w'], however it
    ends. *)
Definition keeps `{Random} {A} (R : World -> World -> Prop) (m : M A) : Prop :=
  forall w, R w (snd (m w)).

(** A relation between the form before and the form after. *)
Definition on_self `{Random} (R : ResponseForm -> ResponseForm -> Prop)
    (w w' : World) : Prop :=
  R (self w) (self w').

(** The fields and their grouping are untouched. *)
Definition same_fields (f f' : ResponseForm) : Prop :=
  fields f' = fields f /\ answer_groups f' = answer_groups f.

(** The seed, the passthrough string and the validated data are untouched. *)
Definition same_seed (f f' : ResponseForm) : Prop :=
  random_seed f' = random_seed f /\ extra f' = extra f
  /\ cleaned_data f' = cleaned_data f.

(** A cached response stays. *)
Definition response_stays (f f' : ResponseForm) : Prop :=
  forall r, response f = CSome r -> response f' = CSome r.

(** Every field named in the grouping is a field of the form. *)
Definition grouped_fields_exist (f : ResponseForm) : Prop :=
  forall idq g idf p s,
    (idq, g) ∈ answer_groups f -> (idf, p, s) ∈ group_fields g ->
    od_mem idf (fields f) = true.

(** A form whose schema attributes are those a constructor call sets. *)
Definition constructed `{Database} (f : ResponseForm) : Prop :=
  exists a step random_seed, same_schema (new_form a step random_seed) f.

(** The keyword arguments that [add_question] builds from an initial value. *)
Definition kwargs_of (question : Question) (initial : Initial) : FieldKwargs :=
  {| kw_required := q_required question;
     kw_initial := if initial_truthy initial then Some initial else None;
     kw_choices := get_question_choices question;
     kw_widget := match get_question_widget question with
                  | Some m => if bool_decide (m = ∅) then None else Some m
                  | None => None
                  end |}.

(** The identifiers of the fields of a question, for its answer groups in the
    order of [get_question_fields]. *)
Definition field_ids (question : Question) : list string :=
  map (fun ag => field_id (q_pk question) (ag_pk ag))
      (order_by pk_leb (q_answer_groups question)).

(** The rows of [self.answer_groups] for these fields. *)
Definition field_rows (question : Question)
  : list (string * option string * option string) :=
  map (fun ag => (field_id (q_pk question) (ag_pk ag), ag_prefix ag, ag_suffix ag))
      (order_by pk_leb (q_answer_groups question)).

(** The seed, the passthrough string and the validated data are untouched,
    and a cached response stays. *)
Definition seed_and_response_stay (f f' : ResponseForm) : Prop :=
  same_seed f f' /\ response_stays f f'.

(** The cached response, if there is one, is the response that the store
    holds for the user and the survey of the form. *)
Definition cache_in_sync `{Random} (w : World) : Prop :=
  forall r,
    response (self w) = CSome r ->
    Response_get (user (self w)) (survey (self w)) (store w) = Ok r.

(** The store is read and not written, nothing is sent, and a response that
    gets cached is the one the store holds. *)
Definition looks_up `{Random} (w w' : World) : Prop :=
  store w' = store w /\ sent w' = sent w
  /\ survey (self w') = survey (self w) /\ user (self w') = user (self w)
  /\ forall r,
       response (self w') = CSome r ->
       response (self w) = CSome r
       \/ Response_get (user (self w)) (survey (self w)) (store w) = Ok r.

(** No widget of the form is disabled; all of them are. *)
Definition no_field_disabled (f : ResponseForm) : Prop :=
  Forall (fun p => attrs p.2 !! "disabled" = None) (fields f).

Definition all_fields_disabled (f : ResponseForm) : Prop :=
  Forall (fun p => attrs p.2 !! "disabled" = Some ATrue) (fields f).

Definition stay_enabled (f f' : ResponseForm) : Prop :=
  no_field_disabled f -> no_field_disabled f'.

Definition stay_grouped (f f' : ResponseForm) : Prop :=
  grouped_fields_exist f -> grouped_fields_exist f'.

(** Lines 83-84: every widget gets the attribute [disabled]. *)
Definition disable_all (f : ResponseForm) : ResponseForm :=
  with_fields (map (fun '(name, fld) => (name, set_attr "disabled" ATrue fld)) (fields f))
              (answer_groups f) f.

(** ** Pieces of [save] *)

(** Lines 353-359: the response that [save] writes, from the one found (or a
    new one) and the attributes of the form. *)
Definition stamped (f : ResponseForm) (preexisting : option Response) : Response :=
  let response :=
    default {| response_pk := None; response_survey := survey_id (survey f);
               response_user := None; interview_uuid := "";
               response_random_seed := 0; response_extra := "" |}
            preexisting in
  {| response_pk := response_pk response;
     response_survey := survey_id (survey f);
     response_user := if is_authenticated (user f) then Some (user_id (user f))
                      else response_user response;
     interview_uuid := uuid f;
     response_random_seed := random_seed f;
     response_extra := extra f |}.

(** Line 390: what [survey_completed.send] gets. *)
Definition completed (response : Response) (responses : list (Z * FieldValue))
  : Signal :=
  {| signal_instance := response;
     signal_survey_id := response_survey response;
     signal_interview_uuid := interview_uuid response;
     signal_responses := responses |}.

(** The world after one more signal. *)
Definition with_sent `{Random} (s : Signal) (w : World) : World :=
  {| self := self w; store := store w; generator := generator w;
     sent := sent w ++ [s] |}.

(** The test of line 369. *)
Definition is_question_field (item : string * FieldValue) : bool :=
  Str.startswith item.1 "question_".

(** The responses of a user to a survey: the filter of [Response_get]. *)
Definition responses_of (u : User) (s : Survey) (rows : list Response)
  : list Response :=
  filter (fun r => response_user r = Some (user_id u)
                   /\ response_survey r = survey_id s) rows.

(** Every stored response has a primary key, and no two have the same. *)
Definition keyed (st : Store) : Prop :=
  NoDup (map response_pk (Response_objects st))
  /\ Forall (fun r => response_pk r <> None) (Response_objects st).

(** [save] never touches the responses, the questions or the answer groups
    once the response is written, and sends nothing before the end. *)
Definition writes_answers_only `{Random} (w w' : World) : Prop :=
  Response_objects (store w') = Response_objects (store w)
  /\ next_response_pk (store w') = next_response_pk (store w)
  /\ Question_objects (store w') = Question_objects (store w)
  /\ AnswerGroup_objects (store w') = AnswerGroup_objects (store w)
  /\ sent w' = sent w /\ generator w' = generator w.

(** The form at another step. *)
Definition with_step (k : Z) (f : ResponseForm) : ResponseForm :=
  {| survey := survey f; user := user f; extra := extra f; step := Some k;
     random_seed := random_seed f; uuid := uuid f; categories := categories f;
     qs_with_no_cat := qs_with_no_cat f;
     randomize_questions := randomize_questions f;
     steps_count := steps_count f; response := response f; answers := answers f;
     answer_groups := answer_groups f; fields := fields f;
     cleaned_data := cleaned_data f |}.

(** A resolver for the route, for running the model. *)
Definition path_urls : Urls :=
  {| reverse := fun r =>
       "/survey/" +:+ format_int (route_id r) +:+ "-"
       +:+ match route_step r with
           | Some k => format_int k
           | None => "None"
           end
       +:+ "-" +:+ format_int (route_seed r) +:+ "/" |}.

(** The items of [cleaned_data] that [save] looks at. *)
Definition question_items (items : odict string FieldValue)
  : odict string FieldValue :=
  List.filter is_question_field items.

(** ** The cache of the answers *)

(** [answers.get(q, {}).get(g)] on the dictionary of lines 166-170. *)
Definition answer_of (m : gmap Z (odict Z Answer)) (q g : Z) : option Answer :=
  (m !! q) ≫= od_get g.

(** One round of the loop of lines 167-170. *)
Definition group_answer (m : gmap Z (odict Z Answer)) (a : Answer)
  : gmap Z (odict Z Answer) :=
  let m' := match m !! answer_question a with
            | Some _ => m
            | None => <[answer_question a := []]> m
            end in
  <[answer_question a :=
      od_set (answer_group_id a) a (default [] (m' !! answer_question a))]> m'.

(** A stored answer whose group is known and is not a multiple choice. *)
Definition plainly_stored (st : Store) (a : Answer) : Prop :=
  exists g, AnswerGroup_objects st !! answer_group_id a = Some g
            /\ ag_type g <> SELECT_MULTIPLE.
(* ===================================================================== *)
(** * Part II: properties *)
(* ===================================================================== *)

(** ** Strings *)

#[local] Arguments String.append !_ _ / : simpl nomatch.

Lemma append_nil_r (s : string) : s +:+ "" = s.
Proof. induction s as [|c s IH]; simpl; congruence. Qed.

Lemma append_assoc (a b c : string) : (a +:+ b) +:+ c = a +:+ (b +:+ c).
Proof. induction a as [|x a IH]; simpl; congruence. Qed.

Lemma length_append (a b : string) :
  String.length (a +:+ b) = (String.length a + String.length b)%nat.
Proof. induction a as [|x a IH]; simpl; congruence. Qed.

Lemma prefix_nil (s : string) : String.prefix "" s = true.
Proof. destruct s; reflexivity. Qed.

Lemma prefix_cons (a b : ascii) (s t : string) :
  String.prefix (String a s) (String b t) = bool_decide (a = b) && String.prefix s t.
Proof.
  simpl. destruct (ascii_dec a b) as [->|Hne].
  - by rewrite bool_decide_true.
  - by rewrite bool_decide_false.
Qed.

Lemma prefix_append (a rest : string) : String.prefix a (a +:+ rest) = true.
Proof.
  induction a as [|x a IH]; [apply prefix_nil|].
  simpl. destruct (ascii_dec x x); [exact IH | congruence].
Qed.

Lemma contains_char_cons (c d : ascii) (s : string) :
  Str.contains (String c "") (String d s)
  = bool_decide (c = d) || Str.contains (String c "") s.
Proof.
  cbn [Str.contains]. rewrite prefix_cons, prefix_nil, andb_true_r. reflexivity.
Qed.

(** If [sep] is a prefix of [u ++ c :: v], it is a prefix of [u] or holds [c]. *)
Lemma prefix_app_char (sep u : string) (c : ascii) (v : string) :
  String.prefix sep (u +:+ String c v) = true ->
  String.prefix sep u = true \/ Str.contains (String c "") sep = true.
Proof.
  revert sep. induction u as [|a u IH]; intros [|d sep]; simpl append.
  - intros _. by left.
  - rewrite prefix_cons. intros [Hd _]%andb_true_iff.
    right. rewrite contains_char_cons.
    apply bool_decide_eq_true in Hd as ->. by rewrite bool_decide_true.
  - intros _. by left.
  - rewrite !prefix_cons. intros [Hd Hp]%andb_true_iff.
    destruct (IH _ Hp) as [Hu | Hc].
    + left. by rewrite Hd, Hu.
    + right. rewrite contains_char_cons, Hc. apply orb_true_r.
Qed.

Lemma contains_prefix_false (sep s : string) :
  Str.contains sep s = false -> String.prefix sep s = false.
Proof. destruct s; cbn [Str.contains]; intros [? _]%orb_false_iff; done. Qed.

Lemma contains_tail_false (sep : string) (c : ascii) (s : string) :
  Str.contains sep (String c s) = false -> Str.contains sep s = false.
Proof. cbn [Str.contains]. intros [_ ?]%orb_false_iff. done. Qed.

Lemma contains_append_r (sub a b : string) :
  Str.contains sub b = true -> Str.contains sub (a +:+ b) = true.
Proof.
  intros Hb. induction a as [|x a IH]; [exact Hb|].
  simpl append. cbn [Str.contains]. rewrite IH. apply orb_true_r.
Qed.

(** A chunk free of [sep] and closed by a character foreign to [sep] is
    [clean], whatever follows. *)
Lemma clean_closed (sep x : string) (c : ascii) (tail : string) :
  sep <> "" ->
  Str.contains sep x = false ->
  Str.contains (String c "") sep = false ->
  clean sep (x +:+ String c "") tail = true.
Proof.
  intros Hsep Hx Hc. induction x as [|a x IH].
  - destruct sep as [|d sep]; [done|].
    cbn [append clean]. rewrite prefix_cons. rewrite contains_char_cons in Hc.
    apply orb_false_iff in Hc as [Hcd _].
    apply bool_decide_eq_false in Hcd.
    rewrite bool_decide_false by congruence. reflexivity.
  - cbn [append clean]. rewrite IH by (by eapply contains_tail_false).
    rewrite andb_true_r. apply negb_true_iff.
    destruct (String.prefix sep (String a (x +:+ String c "") +:+ tail)) eqn:Hp; [|done].
    exfalso.
    replace (String a (x +:+ String c "") +:+ tail)
      with (String a x +:+ String c tail) in Hp
      by (cbn [append]; by rewrite append_assoc).
    apply prefix_app_char in Hp as [Hp | Hp]; [|congruence].
    apply contains_prefix_false in Hx. congruence.
Qed.

Lemma clean_append (sep x y tail : string) :
  clean sep (x +:+ y) tail = clean sep x (y +:+ tail) && clean sep y tail.
Proof.
  induction x as [|a x IH]; [reflexivity|].
  cbn [append clean]. rewrite IH, append_assoc. apply andb_assoc.
Qed.

(** ** [split] *)

Lemma split_from_nonempty (sep : string) (k : nat) (s : string) :
  Str.split_from sep k s <> [].
Proof.
  revert k. induction s as [|c s IH]; intros k; cbn [Str.split_from]; [done|].
  destruct k; [|apply IH].
  destruct (String.prefix sep (String c s)); [done|].
  destruct (Str.split_from sep 0 s); done.
Qed.

(** Dropping the rest of a separator that was just matched. *)
Lemma split_from_skip (sep a rest : string) :
  Str.split_from sep (String.length a) (a +:+ rest) = Str.split_from sep 0 rest.
Proof. induction a as [|x a IH]; simpl; [by destruct rest | exact IH]. Qed.

Lemma split_from_sep (sep rest : string) :
  sep <> "" ->
  Str.split_from sep 0 (sep +:+ rest) = "" :: Str.split_from sep 0 rest.
Proof.
  intros Hsep. destruct sep as [|d sep]; [done|].
  pose proof (prefix_append (String d sep) rest) as Hp.
  cbn [append Str.split_from] in *. rewrite Hp.
  cbn [String.length]. rewrite Nat.sub_succ, Nat.sub_0_r.
  by rewrite split_from_skip.
Qed.

(** A clean chunk goes whole into the first piece. *)
Lemma split_from_clean (sep x tail : string) :
  clean sep x tail = true ->
  Str.split_from sep 0 (x +:+ tail)
  = match Str.split_from sep 0 tail with
    | h :: t => (x +:+ h) :: t
    | [] => []
    end.
Proof.
  induction x as [|a x IH].
  - intros _. simpl. by destruct (Str.split_from sep 0 tail).
  - cbn [clean]. intros [Hp Hx]%andb_true_iff. apply negb_true_iff in Hp.
    cbn [append Str.split_from] in *. rewrite Hp, (IH Hx).
    pose proof (split_from_nonempty sep 0 tail).
    by destruct (Str.split_from sep 0 tail).
Qed.

Lemma split_from_clean_end (sep x : string) :
  clean sep x "" = true -> Str.split_from sep 0 x = [x].
Proof.
  intros Hx. pose proof (split_from_clean sep x "" Hx) as E.
  rewrite append_nil_r in E. rewrite E. simpl. by rewrite append_nil_r.
Qed.

Lemma split_from_clean_sep (sep x rest : string) :
  sep <> "" ->
  clean sep x (sep +:+ rest) = true ->
  Str.split_from sep 0 (x +:+ sep +:+ rest) = x :: Str.split_from sep 0 rest.
Proof.
  intros Hsep Hx. rewrite (split_from_clean _ _ _ Hx), split_from_sep by done.
  by rewrite append_nil_r.
Qed.

(** ** Slices and [strip] *)

Lemma substring_0_append (a b : string) :
  String.substring 0 (String.length a) (a +:+ b) = a.
Proof. induction a as [|x a IH]; cbn; [by destruct b | by rewrite IH]. Qed.

(** [s[1:-1]] takes the two end characters off. *)
Lemma slice_inner (c : ascii) (inner : string) (d : ascii) :
  Str.slice (String c (inner +:+ String d "")) 1 (-1) = inner.
Proof.
  unfold Str.slice, Str.clamp. cbn [String.length].
  rewrite length_append. cbn [String.length].
  replace (1 <? 0) with false by reflexivity.
  replace (-1 <? 0) with true by reflexivity.
  set (n := String.length inner).
  replace (Z.to_nat (Z.min (Z.max 1 0) (Z.of_nat (S (n + 1))))) with 1%nat by lia.
  replace (Z.to_nat (Z.min (Z.max (-1 + Z.of_nat (S (n + 1))) 0) (Z.of_nat (S (n + 1)))))
    with (S n) by lia.
  replace (S n - 1)%nat with n by lia.
  cbn [String.substring]. apply substring_0_append.
Qed.

Lemma rstrip_closed (a : string) (c : ascii) :
  Str.is_space c = false ->
  Str.rstrip (a +:+ String c "") = a +:+ String c "".
Proof.
  intros Hc. induction a as [|x a IH].
  - cbn. by rewrite Hc.
  - cbn [append Str.rstrip]. rewrite IH. by destruct a.
Qed.

(** A string that starts and ends with characters that are not spaces is its
    own [strip]. *)
Lemma strip_closed (c : ascii) (a : string) (d : ascii) :
  Str.is_space c = false -> Str.is_space d = false ->
  Str.strip (String c (a +:+ String d "")) = String c (a +:+ String d "").
Proof.
  intros Hc Hd. unfold Str.strip. cbn [Str.lstrip]. rewrite Hc.
  change (String c (a +:+ String d "")) with (String c a +:+ String d "").
  by apply rstrip_closed.
Qed.

Lemma rstrip_no_space (s : string) :
  all_chars (fun c => negb (Str.is_space c)) s = true -> Str.rstrip s = s.
Proof.
  induction s as [|c s IH]; [done|].
  cbn [all_chars Str.rstrip]. intros [Hc Hs]%andb_true_iff.
  rewrite (IH Hs). apply negb_true_iff in Hc. rewrite Hc. by destruct s.
Qed.

Lemma strip_no_space (s : string) :
  all_chars (fun c => negb (Str.is_space c)) s = true -> Str.strip s = s.
Proof.
  intros Hs. unfold Str.strip.
  replace (Str.lstrip s) with s; [by apply rstrip_no_space|].
  destruct s as [|c s]; [done|]. cbn [all_chars] in Hs.
  apply andb_true_iff in Hs as [Hc _]. apply negb_true_iff in Hc.
  cbn [Str.lstrip]. by rewrite Hc.
Qed.

Lemma all_chars_impl (P Q : ascii -> bool) (s : string) :
  (forall c, P c = true -> Q c = true) ->
  all_chars P s = true -> all_chars Q s = true.
Proof.
  intros HPQ. induction s as [|c s IH]; [done|]. cbn [all_chars].
  intros [Hc Hs]%andb_true_iff. by rewrite (HPQ _ Hc), IH.
Qed.

Lemma all_chars_contains (P : ascii -> bool) (c : ascii) (s : string) :
  P c = false -> all_chars P s = true -> Str.contains (String c "") s = false.
Proof.
  intros Hc. induction s as [|d s IH]; [done|]. cbn [all_chars].
  intros [Hd Hs]%andb_true_iff. rewrite contains_char_cons, (IH Hs).
  rewrite bool_decide_false; [done|]. intros ->. congruence.
Qed.

(** ** What [repr] writes as it is *)

Lemma repr_char_plain (c : ascii) :
  is_plain_char c = true -> repr_char "'" c = String c "".
Proof. by destruct c as [[] [] [] [] [] [] [] []]; vm_compute. Qed.

Lemma repr_body_plain (t : string) :
  all_chars is_plain_char t = true -> repr_body "'" t = t.
Proof.
  induction t as [|c t IH]; [done|]. cbn [all_chars repr_body].
  intros [Hc Ht]%andb_true_iff. by rewrite (repr_char_plain c Hc), (IH Ht).
Qed.

Lemma plain_no_quote (t : string) :
  all_chars is_plain_char t = true -> Str.contains "'" t = false.
Proof. by apply all_chars_contains. Qed.

(** A plain token is written between single quotes, unchanged. *)
Lemma repr_plain (t : string) :
  all_chars is_plain_char t = true -> repr t = quote t.
Proof.
  intros Ht. unfold repr, quote. rewrite (plain_no_quote t Ht). cbn [andb].
  by rewrite (repr_body_plain t Ht).
Qed.

Lemma str_of_list_plain (tokens : list string) :
  Forall (fun t => all_chars is_plain_char t = true) tokens ->
  str_of_list tokens = encode_joined ", " tokens.
Proof.
  intros Hts. unfold str_of_list, encode_joined. do 3 f_equal.
  induction Hts as [|t ts Ht _ IH]; [done|]. cbn [map]. by rewrite (repr_plain t Ht), IH.
Qed.

(** ** Decoding a stored multiple choice *)

Lemma clean_char (c : ascii) (x tail : string) :
  Str.contains (String c "") x = false -> clean (String c "") x tail = true.
Proof.
  induction x as [|a x IH]; [done|].
  rewrite contains_char_cons. intros [Hca Hx]%orb_false_iff.
  cbn [clean append]. rewrite prefix_cons, Hca, (IH Hx). reflexivity.
Qed.

Lemma quote_eq (t : string) : quote t = String "'" (t +:+ String "'" "").
Proof. reflexivity. Qed.

Lemma split_quote_piece (pad t : string) :
  Str.contains "'" pad = false ->
  Str.contains "'" t = false ->
  Str.split_from "'" 0 (pad +:+ quote t) = [pad; t; ""].
Proof.
  intros Hpad Ht. rewrite quote_eq.
  change (String "'" (t +:+ String "'" "")) with ("'" +:+ t +:+ "'" +:+ "").
  rewrite split_from_clean_sep by (done || by apply clean_char).
  rewrite split_from_clean_sep by (done || by apply clean_char).
  reflexivity.
Qed.

Section decoding_facts.
Context `{Settings, Text}.

Lemma decode_choice_piece (pad t : string) :
  Str.contains "'" pad = false ->
  Str.contains "'" t = false ->
  decode_choice (pad +:+ quote t) = Ok (slugify t).
Proof.
  intros Hpad Ht. unfold decode_choice, Str.split.
  rewrite split_quote_piece by done. reflexivity.
Qed.

Lemma mapM_decode_pieces (pad : string) (ts : list string) :
  Str.contains "'" pad = false ->
  Forall (fun t => Str.contains "'" t = false) ts ->
  mapM decode_choice (map (fun t => pad +:+ quote t) ts) = Ok (map slugify ts).
Proof.
  intros Hpad Hts. induction Hts as [|t ts Ht _ IH]; [done|].
  cbn [map mapM]. rewrite decode_choice_piece by done.
  cbn [rbind]. rewrite IH. reflexivity.
Qed.

End decoding_facts.

(** The pieces that [split] finds in the joined, quoted tokens. *)
Lemma split_join_quoted (sep pad p t : string) (ts : list string) :
  sep <> "" ->
  Str.contains "'" sep = false ->
  Str.contains sep pad = false ->
  Str.contains sep p = false ->
  Forall (fun t => Str.contains sep t = false) (t :: ts) ->
  Str.split_from sep 0 (p +:+ Str.join (sep +:+ pad) (map quote (t :: ts)))
  = (p +:+ quote t) :: map (fun t => pad +:+ quote t) ts.
Proof.
  intros Hsep Hq Hpad. revert p t.
  assert (Hclean : forall p t tail,
            Str.contains sep p = false -> Str.contains sep t = false ->
            clean sep (p +:+ quote t) tail = true).
  { intros p t tail Hp Ht. rewrite quote_eq.
    change (p +:+ String "'" (t +:+ String "'" ""))
      with (p +:+ String "'" "" +:+ (t +:+ String "'" "")).
    rewrite <- append_assoc, clean_append.
    rewrite !clean_closed by done. reflexivity. }
  induction ts as [|t' ts IH]; intros p t Hp Hts.
  - apply Forall_cons in Hts as [Ht _]. cbn [map Str.join].
    by apply split_from_clean_end, Hclean.
  - apply Forall_cons in Hts as [Ht Hts].
    change (Str.join (sep +:+ pad) (map quote (t :: t' :: ts)))
      with (quote t +:+ (sep +:+ pad) +:+ Str.join (sep +:+ pad) (map quote (t' :: ts))).
    rewrite (append_assoc sep pad), <- (append_assoc p (quote t)).
    rewrite split_from_clean_sep by (done || by apply Hclean).
    rewrite IH by done. reflexivity.
Qed.

Lemma join_quoted_closed (joiner t : string) (ts : list string) :
  exists a, Str.join joiner (map quote (t :: ts)) = String "'" (a +:+ String "'" "").
Proof.
  revert t. induction ts as [|t' ts IH]; intros t.
  - exists t. reflexivity.
  - destruct (IH t') as [a Ha].
    change (Str.join joiner (map quote (t :: t' :: ts)))
      with (quote t +:+ joiner +:+ Str.join joiner (map quote (t' :: ts))).
    rewrite Ha, quote_eq.
    exists (t +:+ String "'" "" +:+ joiner +:+ String "'" a).
    cbn [append]. f_equal.
    repeat (rewrite ?append_assoc; cbn [append]). reflexivity.
Qed.

Section multiple_initial_facts.
Context `{Settings, Text}.

(** Decoding the body made from [tokens] with a joiner that is the separator
    and then some padding. *)
Lemma multiple_initial_joined (pad : string) (tokens : list string) :
  CHOICES_SEPARATOR <> "" ->
  Str.contains "'" CHOICES_SEPARATOR = false ->
  Str.contains CHOICES_SEPARATOR pad = false ->
  Str.contains "'" pad = false ->
  Forall (fun t => Str.contains "'" t = false
                   /\ Str.contains CHOICES_SEPARATOR t = false) tokens ->
  multiple_initial (encode_joined (CHOICES_SEPARATOR +:+ pad) tokens)
  = Ok (map slugify tokens).
Proof.
  intros Hsep Hq Hpad Hqpad Hts. destruct tokens as [|t ts]; [reflexivity|].
  unfold multiple_initial, encode_joined.
  destruct (join_quoted_closed (CHOICES_SEPARATOR +:+ pad) t ts) as [a Ha].
  assert (Hbody : "[" +:+ Str.join (CHOICES_SEPARATOR +:+ pad) (map quote (t :: ts)) +:+ "]"
                  = String "[" (Str.join (CHOICES_SEPARATOR +:+ pad) (map quote (t :: ts))
                                +:+ String "]" "")) by reflexivity.
  rewrite Hbody.
  replace (String.eqb _ "[]") with false
    by (rewrite Ha; reflexivity).
  replace (Str.contains "[" _) with true
    by (rewrite contains_char_cons; by rewrite bool_decide_true).
  replace (Str.contains "]" _) with true.
  2:{ symmetry.
      change (String "[" (?x +:+ String "]" "")) with ("[" +:+ x +:+ "]").
      rewrite <- append_assoc. by apply contains_append_r. }
  cbn [andb]. rewrite slice_inner.
  rewrite Ha at 1. rewrite strip_closed by reflexivity. rewrite <- Ha.
  unfold Str.split. destruct CHOICES_SEPARATOR as [|c0 sep0] eqn:Hs; [done|].
  rewrite <- Hs in *. cbn [rbind].
  pose proof (split_join_quoted CHOICES_SEPARATOR pad "" t ts Hsep Hq Hpad) as Hsplit.
  cbn [append] in Hsplit. rewrite Hsplit.
  - change (quote t :: map (fun t0 => pad +:+ quote t0) ts)
      with (("" +:+ quote t) :: map (fun t0 => pad +:+ quote t0) ts).
    cbn [mapM]. rewrite decode_choice_piece.
    + cbn [rbind]. rewrite mapM_decode_pieces; [reflexivity | done |].
      apply Forall_cons in Hts as [_ Hts].
      eapply Forall_impl; [exact Hts|]. by intros ? [? ?].
    + reflexivity.
    + apply Forall_cons in Hts as [[? _] _]. done.
  - by destruct CHOICES_SEPARATOR.
  - eapply Forall_impl; [exact Hts|]. by intros ? [? ?].
Qed.

(** The text that Python's [str] makes of a list of plain tokens is read back
    when the separator is the comma: the space after each comma stays outside
    the quotes.  (So it is when the separator is the comma and the space.) *)
Lemma multiple_initial_str_of_list (tokens : list string) :
  CHOICES_SEPARATOR = "," \/ CHOICES_SEPARATOR = ", " ->
  Forall plain tokens ->
  multiple_initial (str_of_list tokens) = Ok (map slugify tokens).
Proof.
  intros Hsep Htokens.
  assert (Hplain : Forall (fun t => all_chars is_plain_char t = true) tokens).
  { eapply Forall_impl; [exact Htokens|]. by intros t [? _]. }
  assert (Hclean : Forall (fun t => Str.contains "'" t = false
                                    /\ Str.contains CHOICES_SEPARATOR t = false) tokens).
  { eapply Forall_impl; [exact Htokens|]. intros t [Ht ?].
    split; [by apply plain_no_quote | done]. }
  rewrite (str_of_list_plain tokens Hplain). destruct Hsep as [Hsep|Hsep].
  - change ", " with ("," +:+ " "). rewrite <- Hsep.
    apply multiple_initial_joined;
      [by rewrite Hsep | by rewrite Hsep | by rewrite Hsep | done | exact Hclean].
  - change ", " with (", " +:+ ""). rewrite <- Hsep.
    apply multiple_initial_joined;
      [by rewrite Hsep | by rewrite Hsep | by rewrite Hsep | done | exact Hclean].
Qed.

End multiple_initial_facts.

(** ** [get_question_initial] *)

Section initial_facts.
Context `{Settings, Text, Random, Database}.

Lemma get_question_initial_unfold question data (w w' : World) r :
  _get_preexisting_answer_all question w = (r, w') ->
  get_question_initial question data w
  = ((answers <- r ;; i <- recovered (store w') answers ;;
      Ok (overridden question data i))%py, w').
Proof.
  intros Hr. unfold get_question_initial, bind at 1. rewrite Hr.
  destruct r as [answers|e]; [|reflexivity].
  cbn [rbind]. unfold bind, get_store, lift, ret.
  by destruct (recovered (store w') answers).
Qed.

(** A single stored multiple choice whose body is the text [s]. *)
Lemma recovered_multiple st g answer s :
  ag_type <$> (AnswerGroup_objects st !! answer_group_id answer) = Some SELECT_MULTIPLE ->
  body answer = VStr s ->
  recovered st [(g, answer)]
  = (l <- multiple_initial s ;; Ok (InitialDict {[g := VList l]}))%py.
Proof.
  intros Ht Hb. unfold recovered. cbn [initial_of_answers].
  unfold initial_of_answer. rewrite Ht, Hb.
  destruct (multiple_initial s) as [l|e]; [|reflexivity].
  cbn [rbind]. by rewrite insert_empty.
Qed.

End initial_facts.

(** ** The stored text of a multiple choice (C1) *)

Lemma bracketed_not_empty_list (s : string) :
  bracketed s = false -> String.eqb s "[]" = false.
Proof.
  intros Hs. destruct (String.eqb_spec s "[]") as [->|]; [|done].
  by vm_compute in Hs.
Qed.

Section C1.
Context `{Settings, Text, Random, Database}.

(** C1, as amended.  Let the answers recovered for a question be the single
    answer of a multiple-choice group [g].  If its body is the text that [save]
    leaves in the store for the list [tokens], Python's [str] of the list,
    where the separator is the comma (or the comma and the space that [str]
    puts between the items) and every token is plain ([repr] writes it between
    single quotes as it is, and it does not hold the separator), then
    [get_question_initial] gives for [g] the list of the slugified tokens, in
    order.  The body ["[]"] gives the empty list, and a body that is not
    bracketed gives the one-element list of its slug. *)
Theorem multiple_choice_roundtrip (w w' : World) (question : Question) (g : Z)
    (answer : Answer) :
  _get_preexisting_answer_all question w = (Ok [(g, answer)], w') ->
  ag_type <$> (AnswerGroup_objects (store w') !! answer_group_id answer)
    = Some SELECT_MULTIPLE ->
  (forall tokens,
     CHOICES_SEPARATOR = "," \/ CHOICES_SEPARATOR = ", " ->
     Forall plain tokens ->
     body answer = VStr (str_of_list tokens) ->
     get_question_initial question None w
     = (Ok (InitialDict {[g := VList (map slugify tokens)]}), w'))
  /\ (body answer = VStr "[]" ->
      get_question_initial question None w = (Ok (InitialDict {[g := VList []]}), w'))
  /\ (forall s,
        bracketed s = false ->
        body answer = VStr s ->
        get_question_initial question None w
        = (Ok (InitialDict {[g := VList [slugify s]]}), w')).
Proof.
  intros Hall Htype.
  pose proof (get_question_initial_unfold question None w w' _ Hall) as Hget.
  cbn [rbind] in Hget. repeat split.
  - intros tokens Hsep Htokens Hbody.
    rewrite Hget, (recovered_multiple _ _ _ _ Htype Hbody).
    by rewrite (multiple_initial_str_of_list tokens Hsep Htokens).
  - intros Hbody. rewrite Hget, (recovered_multiple _ _ _ _ Htype Hbody).
    reflexivity.
  - intros s Hs Hbody. rewrite Hget, (recovered_multiple _ _ _ _ Htype Hbody).
    unfold multiple_initial. rewrite (bracketed_not_empty_list s Hs).
    unfold bracketed in Hs. rewrite Hs. reflexivity.
Qed.

End C1.

Section C1_examples.
Import Sample.
#[local] Existing Instances comma_settings ascii_text lcg nulls_last.

(** What [str] writes for some lists of tokens. *)
Example str_of_list_examples :
  str_of_list ["red"; "Blue sky"] = "['red', 'Blue sky']"
  /\ str_of_list [] = "[]"
  /\ str_of_list ["it's"] = String "[" (String double_quote ("it's" +:+ String double_quote "]"))
  /\ str_of_list ["a,b"] = "['a,b']".
Proof. by split_and!. Qed.

Lemma multiple_choice_roundtrip_witness :
  let a := stored_answer 1 9 41 (VStr (str_of_list ["red"; "Blue sky"])) in
  let w := world (args ALL_IN_ONE_PAGE true None) None (store_with [a]) in
  get_question_initial q9 None w
  = (Ok (InitialDict {[41 := VList ["red"; "blue-sky"]]}),
     snd (_get_preexisting_answer_all q9 w)).
Proof.
  intros a w.
  refine (proj1 (multiple_choice_roundtrip w _ q9 41 a _ _) ["red"; "Blue sky"] _ _ _).
  - reflexivity.
  - reflexivity.
  - by left.
  - by repeat constructor.
  - reflexivity.
Defined.

(** C1 as stated fails.  A token with an apostrophe is written between double
    quotes, and is read back from the apostrophe on; a token that holds the
    separator is cut at it; and with a separator that is not the comma only
    the first token of a list comes back. *)
Lemma multiple_choice_roundtrip_counterexample :
  let w tokens :=
    world (args ALL_IN_ONE_PAGE true None) None
      (store_with [stored_answer 1 9 41 (VStr (str_of_list tokens))]) in
  let decoded (settings : Settings) tokens :=
    fst (@get_question_initial settings ascii_text lcg q9 None (w tokens)) in
  (decoded comma_settings ["it's"] = Ok (InitialDict {[41 := VList ["s"]]})
   /\ map slugify ["it's"] = ["its"]
   /\ decoded comma_settings ["it's"]
      <> Ok (InitialDict {[41 := VList (map slugify ["it's"])]}))
  /\ (decoded comma_settings ["a,b"] = Ok (InitialDict {[41 := VList ["a"; ""]]})
      /\ decoded comma_settings ["a,b"]
         <> Ok (InitialDict {[41 := VList (map slugify ["a,b"])]}))
  /\ (decoded semicolon_settings ["red"; "blue"] = Ok (InitialDict {[41 := VList ["red"]]})
      /\ decoded semicolon_settings ["red"; "blue"]
         <> Ok (InitialDict {[41 := VList (map slugify ["red"; "blue"])]})).
Proof.
  intros w decoded.
  assert (E1 : decoded comma_settings ["it's"] = Ok (InitialDict {[41 := VList ["s"]]}))
    by (vm_compute; reflexivity).
  assert (E2 : decoded comma_settings ["a,b"] = Ok (InitialDict {[41 := VList ["a"; ""]]}))
    by (vm_compute; reflexivity).
  assert (E3 : decoded semicolon_settings ["red"; "blue"]
               = Ok (InitialDict {[41 := VList ["red"]]}))
    by (vm_compute; reflexivity).
  split_and!; first [done | rewrite ?E1, ?E2, ?E3; intros [=]].
Qed.

End C1_examples.

(** ** The methods leave the schema attributes of the form alone *)

Lemma same_schema_refl (f : ResponseForm) : same_schema f f.
Proof. by repeat split. Qed.

Lemma same_schema_trans (f1 f2 f3 : ResponseForm) :
  same_schema f1 f2 -> same_schema f2 f3 -> same_schema f1 f3.
Proof.
  intros (?&?&?&?&?&?&?&?) (?&?&?&?&?&?&?&?). repeat split; congruence.
Qed.

Section frame.
Context `{Settings, Text, Random, Database}.

Lemma frame_ret {A} (a : A) : frame (ret a).
Proof. intros w. apply same_schema_refl. Qed.

Lemma frame_lift {A} (r : result A) : frame (lift r).
Proof. intros w. apply same_schema_refl. Qed.

Lemma frame_get_self : frame get_self.
Proof. intros w. apply same_schema_refl. Qed.

Lemma frame_get_store : frame get_store.
Proof. intros w. apply same_schema_refl. Qed.

Lemma frame_modify_store u : frame (modify_store u).
Proof. intros w. apply same_schema_refl. Qed.

Lemma frame_put_generator g : frame (put_generator g).
Proof. intros w. apply same_schema_refl. Qed.

Lemma frame_send s : frame (send s).
Proof. intros w. apply same_schema_refl. Qed.

Lemma frame_modify_self (u : ResponseForm -> ResponseForm) :
  (forall f, same_schema f (u f)) -> frame (modify_self u).
Proof. intros Hu w. apply Hu. Qed.

Lemma frame_bind {A B} (m : M A) (k : A -> M B) :
  frame m -> (forall a, frame (k a)) -> frame (bind m k).
Proof.
  intros Hm Hk w. unfold bind. specialize (Hm w).
  destruct (m w) as [[a|e] w']; [|exact Hm].
  eapply same_schema_trans; [exact Hm | apply Hk].
Qed.

Lemma frame_for_each {A} (l : list A) (body : A -> M unit) :
  (forall a, frame (body a)) -> frame (for_each l body).
Proof.
  intros Hb. induction l as [|a l IH]; [apply frame_ret|].
  apply frame_bind; [apply Hb | intros _; exact IH].
Qed.

Lemma same_schema_with_response r f : same_schema f (with_response r f).
Proof. by repeat split. Qed.

Lemma same_schema_with_answers a f : same_schema f (with_answers a f).
Proof. by repeat split. Qed.

Lemma same_schema_with_fields fs gs f : same_schema f (with_fields fs gs f).
Proof. by repeat split. Qed.

Lemma same_schema_with_seed_extra s e f : same_schema f (with_seed_extra s e f).
Proof. by repeat split. Qed.

Lemma same_schema_register_field q agf f : same_schema f (register_field q agf f).
Proof. destruct agf. apply same_schema_with_fields. Qed.

End frame.

Create HintDb frame.

#[local] Hint Resolve frame_ret frame_lift frame_get_self frame_get_store
  frame_modify_store frame_put_generator frame_send
  same_schema_with_response same_schema_with_answers same_schema_with_fields
  same_schema_with_seed_extra same_schema_register_field same_schema_refl : frame.

(** Take a method apart along its binds and case distinctions. *)
Ltac frame_step :=
  match goal with
  | |- frame (bind _ _) => apply frame_bind; [|intros ?]
  | |- frame (for_each _ _) => apply frame_for_each; intros ?
  | |- frame (modify_self _) => apply frame_modify_self; intros ?
  | |- frame (match ?x with _ => _ end) => destruct x
  | |- frame (let '(_, _) := ?x in _) => destruct x
  | |- same_schema _ (match ?x with _ => _ end) => destruct x
  | |- _ => solve [auto with frame]
  end.

Ltac frame := repeat frame_step.

Section frame_methods.
Context `{Settings, Text, Random, Database}.

Lemma frame_get_preexisting_response : frame _get_preexisting_response.
Proof. unfold _get_preexisting_response. frame. Qed.

Lemma frame_fetch_answers : frame fetch_answers.
Proof.
  unfold fetch_answers. pose proof frame_get_preexisting_response. frame.
Qed.

Lemma frame_get_preexisting_answers : frame _get_preexisting_answers.
Proof.
  unfold _get_preexisting_answers. pose proof frame_fetch_answers. frame.
Qed.

Lemma frame_get_preexisting_answer_all q : frame (_get_preexisting_answer_all q).
Proof.
  unfold _get_preexisting_answer_all. pose proof frame_get_preexisting_answers.
  frame.
Qed.

Lemma frame_get_question_initial q data : frame (get_question_initial q data).
Proof.
  unfold get_question_initial. pose proof (frame_get_preexisting_answer_all q).
  frame.
Qed.

Lemma frame_add_question q data : frame (add_question q data).
Proof.
  unfold add_question. pose proof (frame_get_question_initial q data). frame.
Qed.

Lemma frame_seeded_shuffle {A} (l : list A) : frame (seeded_shuffle l).
Proof. unfold seeded_shuffle. frame. Qed.

Lemma frame_all_questions : frame all_questions.
Proof.
  unfold all_questions. pose proof (@frame_seeded_shuffle Question). frame.
Qed.

Lemma frame_questions_of_category_step k : frame (questions_of_category_step k).
Proof.
  unfold questions_of_category_step.
  pose proof (@frame_seeded_shuffle Question). frame.
Qed.

Lemma frame_add_questions data : frame (add_questions data).
Proof.
  unfold add_questions.
  pose proof frame_all_questions. pose proof frame_questions_of_category_step.
  pose proof (fun q => frame_add_question q data). frame.
Qed.

Lemma frame_init_questions data : frame (init_questions data).
Proof.
  unfold init_questions.
  pose proof frame_get_preexisting_response. pose proof (frame_add_questions data).
  frame.
Qed.

(** A constructed form has the schema attributes of lines 46-68. *)
Lemma init_schema (a : InitArgs) st g out (w : World) :
  __init__ a st g out = Ok w ->
  exists step random_seed,
    init_step (arg_step a) = Ok step
    /\ same_schema (new_form a step random_seed) (self w).
Proof.
  unfold __init__, init_attributes.
  destruct (init_step (arg_step a)) as [k|e]; [|done].
  set (sg := match arg_seed a with Some _ => _ | None => _ end).
  destruct sg as [z g'].
  set (w0 := {| self := new_form a k z; store := st; generator := g'; sent := out |}).
  pose proof (frame_init_questions (arg_data a) w0) as Hf.
  destruct (init_questions (arg_data a) w0) as [[[]|e] w1]; [|done].
  intros [= <-]. by exists k, z.
Qed.

End frame_methods.

(** ** Query sets *)

Lemma insert_by_perm {A} (leb : A -> A -> bool) (a : A) (l : list A) :
  insert_by leb a l ≡ₚ a :: l.
Proof.
  induction l as [|b l IH]; [done|]. cbn [insert_by].
  destruct (leb a b); [done|]. rewrite IH. apply Permutation_swap.
Qed.

(** [order_by] only rearranges. *)
Lemma order_by_perm {A} (leb : A -> A -> bool) (l : list A) :
  order_by leb l ≡ₚ l.
Proof.
  unfold order_by. induction l as [|a l IH]; [done|].
  cbn [foldr]. by rewrite insert_by_perm, IH.
Qed.

Lemma order_by_nil_iff {A} (leb : A -> A -> bool) (l : list A) :
  order_by leb l = [] <-> l = [].
Proof.
  split; [|by intros ->].
  intros E. apply Permutation_nil_r. by rewrite <- E, order_by_perm.
Qed.

Lemma filter_nil_iff {A} (P : A -> Prop) `{!forall x, Decision (P x)} (l : list A) :
  filter P l = [] <-> ~ Exists P l.
Proof.
  induction l as [|a l IH].
  - split; [intros _ E; inversion E | done].
  - rewrite filter_cons. destruct (decide (P a)) as [Ha|Ha].
    + split; [done|]. intros E. destruct E. by left.
    + rewrite IH. split.
      * intros E1 E2. inversion E2; subst; done.
      * intros E1 E2. apply E1. by right.
Qed.

(** ** The number of steps (C5) *)

Section C5.
Context `{Settings, Text, Random, Database}.

(** C5.  For a constructed form, [steps_count] is the number of non-empty
    categories, plus one exactly when some question has no category, if the
    survey is shown by category, and the number of questions if it is shown by
    question; so three non-empty categories give four steps with uncategorized
    questions and three without. *)
Theorem steps_count_formula (a : InitArgs) (st : Store) (g : rng)
    (out : list Signal) (w : World) :
  __init__ a st g out = Ok w ->
  let s := arg_survey a in
  let uncategorized := Exists (fun q => q_category q = None) (survey_questions s) in
  (display_method s = BY_CATEGORY ->
   steps_count (self w)
   = Z.of_nat (length (non_empty_categories s))
     + (if decide uncategorized then 1 else 0))
  /\ (display_method s = BY_QUESTION ->
      steps_count (self w) = Z.of_nat (length (survey_questions s)))
  /\ (display_method s = BY_CATEGORY ->
      length (non_empty_categories s) = 3%nat ->
      (uncategorized -> steps_count (self w) = 4)
      /\ (~ uncategorized -> steps_count (self w) = 3)).
Proof.
  intros Hinit s uncategorized.
  destruct (init_schema _ _ _ _ _ Hinit) as (k & z & _ & Hs).
  destruct Hs as (_&_&_&_&_&_&_&Hcount). cbn [new_form steps_count] in Hcount.
  unfold init_steps_count in Hcount. fold s in Hcount.
  assert (Hcat : display_method s = BY_CATEGORY ->
                 steps_count (self w)
                 = Z.of_nat (length (non_empty_categories s))
                   + (if decide uncategorized then 1 else 0)).
  { intros Hm. rewrite Hcount. rewrite decide_True by done. f_equal.
    destruct (order_by order_id_leb (filter_category_isnull (survey_questions s)))
      as [|q l] eqn:E.
    - apply order_by_nil_iff, filter_nil_iff in E. by rewrite decide_False.
    - rewrite decide_True; [done|].
      destruct (decide uncategorized) as [|Hn]; [done|].
      unfold uncategorized in Hn. rewrite <- filter_nil_iff in Hn.
      unfold filter_category_isnull in E. rewrite Hn in E. done. }
  split; [exact Hcat|]. split.
  - intros Hm. rewrite Hcount. rewrite decide_False by congruence. done.
  - intros Hm H3. rewrite (Hcat Hm), H3. split; intros Hu.
    + by rewrite decide_True.
    + by rewrite decide_False.
Qed.

End C5.

Section C5_examples.
Import Sample.
#[local] Existing Instances comma_settings ascii_text lcg nulls_last.

Lemma steps_count_formula_witness :
  let w := built (__init__ (args_for (three_categories true) None) schema (0 : Z) [])
                 (world (args_for (three_categories true) None) None schema) in
  let w' := built (__init__ (args_for (three_categories false) None) schema (0 : Z) [])
                  (world (args_for (three_categories false) None) None schema) in
  let w'' := built (__init__ (args BY_QUESTION true (Some (VInt 2))) schema (0 : Z) [])
                   (world (args BY_QUESTION true None) None schema) in
  steps_count (self w) = 4 /\ steps_count (self w') = 3 /\ steps_count (self w'') = 5.
Proof.
  intros w w' w''. split; [|split].
  - refine (proj1 (proj2 (proj2 (steps_count_formula
              (args_for (three_categories true) None) schema (0 : Z) [] w _)) _ _) _).
    + vm_compute. reflexivity.
    + reflexivity.
    + vm_compute. reflexivity.
    + apply Exists_cons_tl, Exists_cons_tl, Exists_cons_hd. reflexivity.
  - refine (proj2 (proj2 (proj2 (steps_count_formula
              (args_for (three_categories false) None) schema (0 : Z) [] w' _)) _ _) _).
    + vm_compute. reflexivity.
    + reflexivity.
    + vm_compute. reflexivity.
    + intros E. repeat (apply Exists_cons in E as [E|E]; [discriminate E|]).
      inversion E.
  - refine (proj1 (proj2 (steps_count_formula
              (args BY_QUESTION true (Some (VInt 2))) schema (0 : Z) [] w'' _)) _).
    + vm_compute. reflexivity.
    + reflexivity.
Defined.

End C5_examples.

(** ** [has_next_step] (C6, C10) *)

Lemma is_all_in_one_page_true (s : Survey) :
  is_all_in_one_page s = true <-> display_method s = ALL_IN_ONE_PAGE.
Proof. unfold is_all_in_one_page. apply bool_decide_eq_true. Qed.

(** C6.  [has_next_step] returns [True] exactly when the survey is not shown
    on one page and the step is an integer below [steps_count - 1]; with an
    integer step it always returns, and that boolean is the conjunction; on a
    one-page survey it returns [False] whatever the step. *)
Theorem has_next_step_iff (f : ResponseForm) :
  (has_next_step f = Ok true
   <-> display_method (survey f) <> ALL_IN_ONE_PAGE
       /\ exists n, step f = Some n /\ n < steps_count f - 1)
  /\ (forall n, step f = Some n ->
      has_next_step f
      = Ok (bool_decide (display_method (survey f) <> ALL_IN_ONE_PAGE
                         /\ n < steps_count f - 1)))
  /\ (display_method (survey f) = ALL_IN_ONE_PAGE -> has_next_step f = Ok false).
Proof.
  unfold has_next_step.
  destruct (is_all_in_one_page (survey f)) eqn:Hall; cbn [negb].
  - apply is_all_in_one_page_true in Hall. split; [|split].
    + split; [done|]. by intros [? _].
    + intros n _. rewrite bool_decide_false; [done|]. by intros [? _].
    + done.
  - assert (Hne : display_method (survey f) <> ALL_IN_ONE_PAGE).
    { intros E. apply is_all_in_one_page_true in E. congruence. }
    split; [|split].
    + destruct (step f) as [k|].
      * destruct (Z.ltb_spec k (steps_count f - 1)).
        -- split; [|done]. intros _. split; [done|]. by exists k.
        -- split; [done|]. intros [_ (n & [= <-] & ?)]. lia.
      * split; [done|]. by intros [_ (n & ? & _)].
    + intros n ->. destruct (Z.ltb_spec n (steps_count f - 1)).
      * by rewrite bool_decide_true.
      * rewrite bool_decide_false; [done|]. intros [_ ?]. lia.
    + done.
Qed.

Section C10.
Context `{Settings, Text, Random, Database}.

(** C10.  On a survey that is not shown on one page, a form without a step
    makes [has_next_step] raise a [TypeError]; the call returns a boolean
    exactly when the step is an integer or the survey is shown on one page.
    Such forms are the ones constructed without the [step] keyword. *)
Theorem has_next_step_partial (f : ResponseForm) :
  (display_method (survey f) <> ALL_IN_ONE_PAGE -> step f = None ->
   has_next_step f = Raise TypeError)
  /\ (is_ok (has_next_step f) = true
      <-> step f <> None \/ display_method (survey f) = ALL_IN_ONE_PAGE)
  /\ (forall (a : InitArgs) st g out (w : World),
        __init__ a st g out = Ok w -> self w = f -> arg_step a = None ->
        step f = None).
Proof.
  split; [|split].
  - intros Hne Hstep. unfold has_next_step.
    destruct (is_all_in_one_page (survey f)) eqn:Hall.
    + apply is_all_in_one_page_true in Hall. done.
    + cbn [negb]. by rewrite Hstep.
  - unfold has_next_step.
    destruct (is_all_in_one_page (survey f)) eqn:Hall; cbn [negb].
    + apply is_all_in_one_page_true in Hall. split; [by right | done].
    + assert (Hne : display_method (survey f) <> ALL_IN_ONE_PAGE).
      { intros E. apply is_all_in_one_page_true in E. congruence. }
      destruct (step f) as [k|].
      * split; [by left|]. intros _. by destruct (k <? steps_count f - 1).
      * split; [done|]. intros [?|?]; done.
  - intros a st g out w Hinit <- Hstep.
    destruct (init_schema _ _ _ _ _ Hinit) as (k & z & Hk & Hs).
    destruct Hs as (_&_&->&_). cbn [new_form step].
    rewrite Hstep in Hk. cbn in Hk. congruence.
Qed.

End C10.

Section next_step_examples.
Import Sample.
#[local] Existing Instances comma_settings ascii_text lcg nulls_last.

Lemma has_next_step_iff_witness :
  let f := self (world (args BY_QUESTION true None) (Some 2) schema) in
  let f1 := self (world (args ALL_IN_ONE_PAGE true None) (Some 2) schema) in
  has_next_step f = Ok true /\ has_next_step f1 = Ok false.
Proof.
  intros f f1. split.
  - apply (proj1 (has_next_step_iff f)). split; [discriminate|].
    exists 2. split; [reflexivity | vm_compute; reflexivity].
  - apply (proj2 (proj2 (has_next_step_iff f1))). reflexivity.
Defined.

Lemma has_next_step_partial_witness :
  let w := built (__init__ (args BY_QUESTION true None) schema (0 : Z) [])
                 (world (args BY_QUESTION true None) None schema) in
  has_next_step (self w) = Raise TypeError.
Proof.
  intros w.
  pose proof (@has_next_step_partial comma_settings ascii_text lcg nulls_last (self w))
    as (Hraise & _ & Hstep).
  apply Hraise.
  - vm_compute. discriminate.
  - apply (Hstep (args BY_QUESTION true None) schema (0 : Z) [] w).
    + vm_compute. reflexivity.
    + reflexivity.
    + reflexivity.
Defined.

End next_step_examples.

(** ** Resubmitted data (C9) *)

Section C9.
Context `{Settings, Text, Random, Database}.

(** What [get_question_initial] returns.  With data that is supplied and not
    empty, it ends in the same world as without data and, wherever the
    recovery from the stored answers returns at all, returns what the data
    holds under ["question_<pk>"] ([None] when it holds nothing) in place of
    the recovered value, whatever that value is. *)
Lemma resubmission_precedence (w : World) (question : Question)
    (d : odict string FieldValue) :
  d <> [] ->
  get_question_initial question (Some d) w
  = (match fst (get_question_initial question None w) with
     | Ok _ => Ok (InitialData (default VNone (od_get (question_id (q_pk question)) d)))
     | Raise e => Raise e
     end,
     snd (get_question_initial question None w)).
Proof.
  intros Hd. destruct (_get_preexisting_answer_all question w) as [r w'] eqn:E.
  rewrite !(get_question_initial_unfold _ _ _ _ _ E). cbn [fst snd]. f_equal.
  destruct r as [answers|e]; [|done]. cbn [rbind].
  destruct (recovered (store w') answers); [|done].
  cbn [rbind]. destruct d as [|c d]; [congruence | reflexivity].
Qed.

End C9.

Section C9_examples.
Import Sample.
#[local] Existing Instances comma_settings ascii_text lcg nulls_last.

Lemma resubmission_precedence_witness :
  let a := stored_answer 1 9 41 (VStr "['red']") in
  let w := world (args ALL_IN_ONE_PAGE true None) None (store_with [a]) in
  fst (get_question_initial q9 None w) = Ok (InitialDict {[41 := VList ["red"]]})
  /\ fst (get_question_initial q9 (Some [("question_9", VList ["green"])]) w)
     = Ok (InitialData (VList ["green"])).
Proof.
  intros a w. split; [vm_compute; reflexivity|].
  rewrite (resubmission_precedence w q9 [("question_9", VList ["green"])]);
    [|discriminate].
  vm_compute. reflexivity.
Defined.

(** C9 at the inputs where the code fails it.  The store holds an answer of
    Alice to the multiple choice 41 of question 9, and without data the field
    of the group starts from it.  With resubmitted data, [get_question_initial]
    returns what the data holds for the question in place of the stored
    value, as lines 214-217 mean it to; but no field receives it.  For a
    string under ["question_9"], the test [ag.pk in fkw["initial"]] of line
    267 raises a [TypeError] and the form gets no field; for a list there, the
    test is false and line 270 drops the initial value; and for data posted
    under the names of the fields, [data.get("question_9")] is [None]: in both
    cases the field starts empty, with neither the resubmitted nor the stored
    value. *)
Theorem resubmitted_value_reaches_no_field :
  let a := stored_answer 1 9 41 (VStr "['red']") in
  let w := world (args ALL_IN_ONE_PAGE true None) None (store_with [a]) in
  let initial_with data :=
    initial <$> od_get "question_9_41" (fields (self (snd (add_question q9 data w)))) in
  let text := Some [("question_9", VStr "green")] in
  let chosen := Some [("question_9", VList ["green"])] in
  let posted := Some [("question_9_41", VList ["green"])] in
  (fst (add_question q9 None w) = Ok tt
   /\ initial_with None = Some (Some (VList ["red"])))
  /\ (fst (get_question_initial q9 text w) = Ok (InitialData (VStr "green"))
      /\ fst (add_question q9 text w) = Raise TypeError
      /\ fields (self (snd (add_question q9 text w))) = [])
  /\ (fst (get_question_initial q9 chosen w) = Ok (InitialData (VList ["green"]))
      /\ fst (add_question q9 chosen w) = Ok tt
      /\ initial_with chosen = Some None)
  /\ (fst (get_question_initial q9 posted w) = Ok (InitialData VNone)
      /\ fst (add_question q9 posted w) = Ok tt
      /\ initial_with posted = Some None).
Proof. intros a w initial_with text chosen posted. split_and!; vm_compute; reflexivity. Qed.

End C9_examples.

(** ** The questions of a step (C7) *)

Section C7.
Context `{Settings, Text, Random, Database}.

(** Past the step, the loop adds nothing. *)
Lemma for_each_after data (k i : Z) (qs : list Question) (w : World) :
  k < i -> for_each (enumerate_from i qs) (keep_step data k) w = (Ok tt, w).
Proof.
  revert i w. induction qs as [|q qs IH]; intros i w Hi; [reflexivity|].
  cbn [enumerate_from for_each]. unfold bind at 1. cbn [keep_step].
  replace (i =? k) with false by lia. cbn [negb ret].
  apply IH. lia.
Qed.

(** From index [i] on, the loop adds the question at offset [k - i], if any. *)
Lemma for_each_keep_step data (k i : Z) (qs : list Question) (w : World) :
  i <= k ->
  for_each (enumerate_from i qs) (keep_step data k) w
  = match qs !! Z.to_nat (k - i) with
    | Some q => add_question q data w
    | None => (Ok tt, w)
    end.
Proof.
  revert i w. induction qs as [|q qs IH]; intros i w Hi; [reflexivity|].
  cbn [enumerate_from for_each]. unfold bind at 1. cbn [keep_step].
  destruct (Z.eqb_spec i k) as [->|Hne]; cbn [negb].
  - rewrite Z.sub_diag. change ((q :: qs) !! Z.to_nat 0) with (Some q). cbv beta iota.
    destruct (add_question q data w) as [[[]|e] w']; [|reflexivity].
    apply for_each_after. lia.
  - cbn [ret]. rewrite IH by lia.
    replace (Z.to_nat (k - i)) with (S (Z.to_nat (k - (i + 1)))) by lia.
    reflexivity.
Qed.

(** C7.  On a survey shown by question, with an integer step [k],
    [add_questions] runs as [add_question] on the question at index [k] of the
    ordered (and, if some question has no order, shuffled) list of all
    questions, and on no other; when [k] is not an index of that list, no
    question is added. *)
Theorem by_question_step (data : option (odict string FieldValue)) (w : World)
    (k : Z) :
  display_method (survey (self w)) = BY_QUESTION ->
  step (self w) = Some k ->
  add_questions data w
  = bind all_questions
      (fun questions =>
         match at_index questions k with
         | Some question => add_question question data
         | None => ret tt
         end) w.
Proof.
  intros Hm Hk. unfold add_questions. unfold bind at 1. cbn [get_self].
  rewrite Hm, Hk. cbn [decide].
  destruct (decide (BY_QUESTION = BY_CATEGORY)) as [?|_]; [done|].
  unfold bind. destruct (all_questions w) as [[questions|e] w']; [|reflexivity].
  rewrite bool_decide_true by done. cbn [andb].
  change (fun '(i, question) =>
            if negb (i =? k) then ret tt else add_question question data)
    with (keep_step data k).
  unfold at_index, enumerate. destruct (Z.ltb_spec k 0).
  - by apply for_each_after.
  - rewrite for_each_keep_step by done. rewrite Z.sub_0_r.
    by destruct (questions !! Z.to_nat k).
Qed.

End C7.

Section C7_examples.
Import Sample.
#[local] Existing Instances comma_settings ascii_text lcg nulls_last.

Lemma by_question_step_witness :
  let w := world (args BY_QUESTION true None) (Some 2) schema in
  length (survey_questions (survey (self w))) = 5%nat
  /\ add_questions None w = add_question q20 None w
  /\ map fst (fields (self (snd (add_questions None w)))) = ["question_20_44"].
Proof.
  intros w. split; [reflexivity|].
  assert (E : add_questions None w = add_question q20 None w).
  { rewrite (by_question_step None w 2); [|reflexivity..].
    vm_compute. reflexivity. }
  split; [exact E|]. rewrite E. vm_compute. reflexivity.
Defined.

End C7_examples.

(** ** Choice lists (C8) *)

(** Settle memberships in explicit lists of constants. *)
Ltac type_cases :=
  repeat (rewrite ?elem_of_cons, ?elem_of_nil in * ); intuition congruence.

Lemma mapM_elem_of {A B} (f : A -> result B) (l : list A) (l' : list B) (y : B) :
  mapM f l = Ok l' -> y ∈ l' -> exists x, x ∈ l /\ f x = Ok y.
Proof.
  revert l'. induction l as [|a l IH]; intros l'; cbn [mapM].
  - intros [= <-] Hy. by apply elem_of_nil in Hy.
  - destruct (f a) as [b|e] eqn:Ea; [|done]. cbn [rbind].
    destruct (mapM f l) as [bs|e]; [|done]. cbn [rbind].
    intros [= <-] [->|Hy]%elem_of_cons.
    + exists a. split; [left | done].
    + destruct (IH bs eq_refl Hy) as (x & Hx & Hfx). exists x. split; [by right | done].
Qed.

Lemma elem_of_map {A B} (f : A -> B) (l : list A) (x : A) :
  x ∈ l -> f x ∈ map f l.
Proof.
  induction l as [|a l IH]; [by intros ?%elem_of_nil|].
  intros [->|Hx]%elem_of_cons; cbn [map]; [left | right; auto].
Qed.

Lemma add_choices_other qchoices ag pk :
  ag_pk ag <> pk -> add_choices qchoices ag !! pk = qchoices !! pk.
Proof.
  intros Hne. unfold add_choices.
  destruct (negb _); [|done].
  destruct (if bool_decide _ then _ else _); [done|].
  by rewrite lookup_insert_ne.
Qed.

Lemma fold_add_choices_other (l : list AnswerGroup) qchoices pk :
  pk ∉ map ag_pk l -> fold_left add_choices l qchoices !! pk = qchoices !! pk.
Proof.
  revert qchoices. induction l as [|a l IH]; intros qchoices Hpk; [done|].
  cbn [fold_left map] in *. apply not_elem_of_cons in Hpk as [Hne Hpk].
  rewrite IH by done. by apply add_choices_other.
Qed.

Lemma fold_add_choices_elem (l : list AnswerGroup) qchoices ag :
  NoDup (map ag_pk l) -> ag ∈ l ->
  fold_left add_choices l qchoices !! ag_pk ag
  = add_choices qchoices ag !! ag_pk ag.
Proof.
  revert qchoices. induction l as [|a l IH]; intros qchoices Hnd Hag.
  - by apply elem_of_nil in Hag.
  - cbn [fold_left map] in *. apply NoDup_cons in Hnd as [Ha Hnd].
    apply elem_of_cons in Hag as [->|Hag].
    + by apply fold_add_choices_other.
    + rewrite IH by done.
      assert (ag_pk a <> ag_pk ag).
      { intros E. apply Ha. rewrite E. by apply elem_of_map. }
      unfold add_choices at 1 3.
      destruct (negb (bool_decide (ag_type ag ∈ _))); [|by apply add_choices_other].
      destruct (if bool_decide _ then _ else _); [by apply add_choices_other|].
      by rewrite !lookup_insert_eq.
Qed.

Lemma get_question_choices_lookup (question : Question) (ag : AnswerGroup) :
  NoDup (map ag_pk (q_answer_groups question)) ->
  ag ∈ q_answer_groups question ->
  get_question_choices question ≫= (fun m => m !! ag_pk ag)
  = add_choices ∅ ag !! ag_pk ag.
Proof.
  intros Hnd Hag. unfold get_question_choices.
  rewrite <- (fold_add_choices_elem _ ∅ ag Hnd Hag).
  case_bool_decide as E; [|done]. by rewrite E.
Qed.

(** C8, as amended.  The choices of the field made for an answer group are the
    declared choices of the group with the empty option in front for the types
    SELECT and SELECT_IMAGE, and the declared choices as they are, if there are
    any, for the types RADIO and SELECT_MULTIPLE. *)
Theorem choices_of_field (question : Question) (kwargs : FieldKwargs)
    (l : list (AnswerGroup * Field)) (ag : AnswerGroup) (field : Field) :
  NoDup (map ag_pk (q_answer_groups question)) ->
  kw_choices kwargs = get_question_choices question ->
  get_question_fields question kwargs = Ok l ->
  (ag, field) ∈ l ->
  (ag_type ag ∈ [SELECT; SELECT_IMAGE] ->
   choices field = Some (("", "-------------") :: get_choices ag))
  /\ (ag_type ag ∈ [RADIO; SELECT_MULTIPLE] ->
      choices field = match get_choices ag with
                      | [] => None
                      | declared => Some declared
                      end).
Proof.
  intros Hnd Hkw Hfields Hin.
  destruct (mapM_elem_of _ _ _ _ Hfields Hin) as (ag' & Hag' & Hf).
  destruct (field_initial (ag_pk ag') (kw_initial kwargs)) as [i|e]; [|done].
  cbn [rbind] in Hf. injection Hf as <- <-. cbn [choices].
  rewrite Hkw, get_question_choices_lookup;
    [|done | by rewrite <- (order_by_perm pk_leb)].
  unfold add_choices. split; intros Ht.
  - rewrite (bool_decide_true (ag_type ag' ∈ [SELECT; SELECT_IMAGE])) by done.
    rewrite bool_decide_false.
    + cbn [negb]. by rewrite lookup_insert_eq.
    + intros Hn. type_cases.
  - rewrite (bool_decide_false (ag_type ag' ∈ [SELECT; SELECT_IMAGE])).
    2:{ intros Hn. type_cases. }
    rewrite bool_decide_false.
    2:{ intros Hn. type_cases. }
    cbn [negb]. destruct (get_choices ag'); [done|]. by rewrite lookup_insert_eq.
Qed.

Section C8_examples.
Import Sample.

Lemma choices_of_field_witness :
  exists l field,
    get_question_fields q17 q17_kwargs = Ok l
    /\ (group 42 SELECT rgb, field) ∈ l
    /\ choices field = Some (empty_option :: rgb).
Proof.
  destruct (get_question_fields q17 q17_kwargs) as [l|e] eqn:E;
    [|vm_compute in E; discriminate E].
  assert (Hin : exists field, (group 42 SELECT rgb, field) ∈ l).
  { vm_compute in E. injection E as <-. eexists. left. }
  destruct Hin as [field Hin]. exists l, field.
  split; [reflexivity|]. split; [exact Hin|].
  refine (proj1 (choices_of_field q17 q17_kwargs l (group 42 SELECT rgb) field
                   _ _ E Hin) _).
  - cbn. repeat constructor; type_cases.
  - reflexivity.
  - cbn. type_cases.
Defined.

(** C8 as stated fails for radio groups: their field gets the declared choices
    with no empty option in front. *)
Lemma choices_of_field_counterexample :
  (l <- get_question_fields q17 q17_kwargs ;;
   Ok (map (fun agf => (ag_pk (fst agf), ag_type (fst agf), choices (snd agf))) l))%py
  = Ok [(42, SELECT, Some (empty_option :: rgb)); (43, RADIO, Some rgb)]
  /\ Some rgb <> Some (empty_option :: get_choices (group 43 RADIO rgb)).
Proof. split; [vm_compute; reflexivity | discriminate]. Qed.

End C8_examples.

(** ** Locked answers (C3) *)

Section C3.
Context `{Settings, Text, Random, Database}.

Lemma with_response_same (f : ResponseForm) : with_response (response f) f = f.
Proof. by destruct f. Qed.

Lemma with_self_same (w : World) : with_self (self w) w = w.
Proof. by destruct w. Qed.

(** The lookup of the response when the store holds it. *)
Lemma get_preexisting_response_found (w : World) (r : Response) :
  is_authenticated (user (self w)) = true ->
  Response_get (user (self w)) (survey (self w)) (store w) = Ok r ->
  exists r',
    _get_preexisting_response w
    = (Ok (Some r'), with_self (with_response (CSome r') (self w)) w).
Proof.
  intros Hauth Hget. unfold _get_preexisting_response, bind at 1. cbn [get_self].
  destruct (response (self w)) as [| |c] eqn:Hc.
  - exists r. rewrite Hauth. cbn [negb]. unfold bind at 1. cbn [get_store].
    by rewrite Hget.
  - exists r. rewrite Hauth. cbn [negb]. unfold bind at 1. cbn [get_store].
    by rewrite Hget.
  - exists c. by rewrite <- Hc, with_response_same, with_self_same.
Qed.

(** C3.  When the answers of the survey cannot be edited and the store holds
    the response of the authenticated user, [save] returns [None]; the store
    (every response and every answer in it) is as before, nothing is sent, and
    the generator is untouched.  Of the form only the cached response can
    change: it holds a response afterwards. *)
Theorem save_locked (w : World) (r : Response) :
  editable_answers (survey (self w)) = false ->
  is_authenticated (user (self w)) = true ->
  Response_get (user (self w)) (survey (self w)) (store w) = Ok r ->
  fst (save w) = Ok None
  /\ store (snd (save w)) = store w
  /\ sent (snd (save w)) = sent w
  /\ generator (snd (save w)) = generator w
  /\ exists r', self (snd (save w)) = with_response (CSome r') (self w).
Proof.
  intros Hlock Hauth Hget.
  destruct (get_preexisting_response_found w r Hauth Hget) as [r' Hr].
  assert (E : save w = (Ok None, with_self (with_response (CSome r') (self w)) w)).
  { unfold save, bind at 1. rewrite Hr. unfold bind at 1.
    cbn [get_self with_self self with_response survey]. by rewrite Hlock. }
  rewrite E. split_and!; try reflexivity. by exists r'.
Qed.

End C3.

Section C3_examples.
Import Sample.
#[local] Existing Instances comma_settings ascii_text lcg nulls_last.

Lemma save_locked_witness :
  let st := store_with [stored_answer 1 17 42 (VStr "red")] in
  let w := submitted (args ALL_IN_ONE_PAGE false None) None st
             [("question_17_42", VStr "blue")] in
  fst (save w) = Ok None /\ store (snd (save w)) = st.
Proof.
  intros st w.
  destruct (save_locked w alice_response) as (Hr & Hst & _);
    [reflexivity | reflexivity | reflexivity |].
  split; [exact Hr | exact Hst].
Defined.

End C3_examples.

(** ** The seeded shuffle (C4) *)

Section C4.
Context `{Settings, Text, Random, Database}.

Lemma seeded_shuffle_unfold {A} (l : list A) (w : World) :
  seeded_shuffle l w
  = (fst (shuffle l (seed (random_seed (self w)))),
     with_generator (snd (shuffle l (seed (random_seed (self w))))) w).
Proof.
  unfold seeded_shuffle, bind at 1. cbn [get_self].
  destruct (shuffle l (seed (random_seed (self w)))) as [r g].
  unfold bind, put_generator, lift. reflexivity.
Qed.

Lemma all_questions_unfold (w : World) :
  all_questions w
  = let questions := order_by order_id_leb (survey_questions (survey (self w))) in
    match randomize_questions (self w) with
    | [] => (Ok questions, w)
    | _ => seeded_shuffle questions w
    end.
Proof.
  unfold all_questions, bind, get_self, ret.
  by destruct (randomize_questions (self w)).
Qed.

Lemma questions_of_category_step_unfold (k : Z) (w : World) :
  questions_of_category_step k w
  = match (if k =? Z.of_nat (length (categories (self w)))
           then Ok (qs_with_no_cat (self w))
           else (c <- index_Z (categories (self w)) k ;;
                 Ok (order_by order_id_leb
                       (filter_category c (survey_questions (survey (self w))))))%py)
    with
    | Ok qs_for_step =>
        match randomize_questions (self w) with
        | [] => (Ok qs_for_step, w)
        | _ => seeded_shuffle qs_for_step w
        end
    | Raise e => (Raise e, w)
    end.
Proof.
  unfold questions_of_category_step, bind, get_self, ret, lift.
  destruct (k =? Z.of_nat (length (categories (self w)))).
  - by destruct (randomize_questions (self w)).
  - destruct (index_Z (categories (self w)) k); [|done]. cbn [rbind].
    by destruct (randomize_questions (self w)).
Qed.

(** C4.  The seeded shuffle of [l] is [shuffle] run on the generator state
    that [seed] makes from the seed of the form: a function of the list and
    of the seed alone.  Two worlds whose forms have the same seed shuffle alike,
    whatever their generators hold; in particular shuffling again, after any
    other use of the generator, repeats the first outcome.  The same holds for
    the two question lists that [add_questions] builds. *)
Theorem seeded_shuffle_deterministic {A} (l : list A) (w : World) :
  fst (seeded_shuffle l w) = fst (shuffle l (seed (random_seed (self w))))
  /\ (forall w2 : World,
        random_seed (self w2) = random_seed (self w) ->
        fst (seeded_shuffle l w2) = fst (seeded_shuffle l w))
  /\ (forall g : rng,
        fst (seeded_shuffle l (with_generator g (snd (seeded_shuffle l w))))
        = fst (seeded_shuffle l w))
  /\ (forall g : rng,
        fst (all_questions (with_generator g w)) = fst (all_questions w)
        /\ forall k, fst (questions_of_category_step k (with_generator g w))
                     = fst (questions_of_category_step k w)).
Proof.
  split; [|split; [|split]].
  - by rewrite seeded_shuffle_unfold.
  - intros w2 Hs. by rewrite !seeded_shuffle_unfold, Hs.
  - intros g. by rewrite !seeded_shuffle_unfold.
  - intros g. split.
    + rewrite !all_questions_unfold. cbn [with_generator self].
      destruct (randomize_questions (self w)); [done|].
      by rewrite !seeded_shuffle_unfold.
    + intros k. rewrite !questions_of_category_step_unfold.
      cbn [with_generator self].
      destruct (if k =? _ then _ else _); [|done].
      destruct (randomize_questions (self w)); [done|].
      by rewrite !seeded_shuffle_unfold.
Qed.

End C4.

Section C4_examples.
Import Sample.
#[local] Existing Instances comma_settings ascii_text lcg nulls_last.

Lemma seeded_shuffle_deterministic_witness :
  let w := world (args ALL_IN_ONE_PAGE true None) None schema in
  let w2 := with_generator (2024 : Z) (snd (seeded_shuffle [q9; q17; q20; q21; q22] w)) in
  fst (seeded_shuffle [q9; q17; q20; q21; q22] w2)
  = fst (seeded_shuffle [q9; q17; q20; q21; q22] w)
  /\ fst (seeded_shuffle [1; 2; 3; 4; 5] w) = Ok [2; 4; 3; 5; 1].
Proof.
  intros w w2. split.
  - apply (proj1 (proj2 (seeded_shuffle_deterministic [q9; q17; q20; q21; q22] w))).
    reflexivity.
  - rewrite (proj1 (seeded_shuffle_deterministic [1; 2; 3; 4; 5] w)).
    vm_compute. reflexivity.
Defined.

End C4_examples.

(** *** The shuffle returns a rearrangement *)

Lemma insert_perm_cons {A} (x : list A) (j : nat) (y a : A) :
  x !! j = Some y -> y :: <[j := a]> x ≡ₚ a :: x.
Proof.
  revert j. induction x as [|b x IH]; intros [|j] Hj; try done.
  - injection Hj as ->. apply Permutation_swap.
  - cbn in Hj |- *. rewrite Permutation_swap, (IH _ Hj). apply Permutation_swap.
Qed.

(** Line [x[i], x[j] = x[j], x[i]] of [random.shuffle]. *)
Lemma swap_perm {A} (x : list A) (i j : nat) (xi xj : A) :
  x !! i = Some xi -> x !! j = Some xj -> <[j := xi]> (<[i := xj]> x) ≡ₚ x.
Proof.
  revert i j. induction x as [|b x IH]; intros [|i] [|j] Hi Hj; try done.
  - injection Hi as ->. injection Hj as ->. done.
  - injection Hi as ->. cbn in Hj |- *. by apply insert_perm_cons.
  - injection Hj as ->. cbn in Hi |- *. symmetry.
    rewrite <- (insert_perm_cons x i xi xj Hi). done.
  - cbn in Hi, Hj |- *. by rewrite (IH _ _ Hi Hj).
Qed.

Section shuffle_facts.
Context `{Random}.
Hypothesis in_range : randbelow_in_range.

Lemma shuffle_from_perm {A} (i : nat) (x : list A) (g : rng) :
  (i < length x)%nat ->
  exists x', fst (shuffle_from i x g) = Ok x' /\ x' ≡ₚ x.
Proof.
  revert x g. induction i as [|i IH]; intros x g Hi; [by exists x|].
  cbn [shuffle_from]. pose proof (in_range (S (S i)) g ltac:(lia)) as Hj.
  destruct (randbelow (S (S i)) g) as [j g']. cbn [fst] in Hj.
  destruct (lookup_lt_is_Some_2 x (S i) Hi) as [xi Hxi].
  destruct (lookup_lt_is_Some_2 x j ltac:(lia)) as [xj Hxj].
  rewrite Hxi, Hxj.
  destruct (IH (<[j := xi]> (<[S i := xj]> x)) g') as (x' & Hx' & Hp).
  { rewrite !length_insert. lia. }
  exists x'. split; [exact Hx'|]. rewrite Hp. by apply swap_perm.
Qed.

(** With a generator that keeps its promise, [shuffle] returns, and what it
    returns is a rearrangement of its argument. *)
Lemma shuffle_perm {A} (x : list A) (g : rng) :
  exists x', fst (shuffle x g) = Ok x' /\ x' ≡ₚ x.
Proof.
  unfold shuffle. destruct x as [|a x]; [by exists []|].
  apply shuffle_from_perm. cbn [length]. lia.
Qed.

End shuffle_facts.

(** ** Field identifiers (C2) *)

Lemma string_of_uint_digits (u : Decimal.uint) :
  all_chars is_digit (NilEmpty.string_of_uint u) = true.
Proof. induction u; cbn [NilEmpty.string_of_uint all_chars]; by rewrite ?IHu. Qed.

Lemma format_int_chars (z : Z) : all_chars is_int_char (format_int z) = true.
Proof.
  assert (Hd : forall u, all_chars is_int_char (NilEmpty.string_of_uint u) = true).
  { intros u. eapply all_chars_impl; [|apply string_of_uint_digits].
    intros c Hc. unfold is_int_char. by rewrite Hc. }
  unfold format_int. destruct (Z.to_int z); cbn [NilEmpty.string_of_int]; [apply Hd|].
  cbn [all_chars]. by rewrite Hd.
Qed.

Lemma format_int_no_space (z : Z) : Str.strip (format_int z) = format_int z.
Proof.
  apply strip_no_space. eapply all_chars_impl; [|apply format_int_chars].
  intros c. unfold is_int_char, is_digit, Str.is_space.
  destruct (Ascii.eqb_spec c "-") as [->|_]; [done|]. rewrite orb_false_r.
  intros [H1 H2]%andb_true_iff. apply Nat.leb_le in H1, H2.
  repeat match goal with
         | |- context [(?a <=? ?b)%nat] => destruct (Nat.leb_spec a b)
         | |- context [(?a =? ?b)%nat] => destruct (Nat.eqb_spec a b)
         end; cbn; (done || lia).
Qed.

Lemma format_int_no_underscore (z : Z) : Str.contains "_" (format_int z) = false.
Proof. eapply all_chars_contains; [|apply format_int_chars]. reflexivity. Qed.

Lemma int_rstrip_no_space (s : string) :
  all_chars (fun c => negb (is_int_space c)) s = true -> int_rstrip s = s.
Proof.
  induction s as [|c s IH]; [done|].
  cbn [all_chars int_rstrip]. intros [Hc Hs]%andb_true_iff.
  rewrite (IH Hs). apply negb_true_iff in Hc. rewrite Hc. by destruct s.
Qed.

Lemma int_strip_no_space (s : string) :
  all_chars (fun c => negb (is_int_space c)) s = true ->
  int_rstrip (int_lstrip s) = s.
Proof.
  intros Hs. replace (int_lstrip s) with s; [by apply int_rstrip_no_space|].
  destruct s as [|c s]; [done|]. cbn [all_chars] in Hs.
  apply andb_true_iff in Hs as [Hc _]. apply negb_true_iff in Hc.
  cbn [int_lstrip]. by rewrite Hc.
Qed.

Lemma format_int_no_int_space (z : Z) :
  int_rstrip (int_lstrip (format_int z)) = format_int z.
Proof.
  apply int_strip_no_space. eapply all_chars_impl; [|apply format_int_chars].
  intros c. unfold is_int_char, is_digit, is_int_space.
  destruct (Ascii.eqb_spec c "-") as [->|_]; [done|]. rewrite orb_false_r.
  intros [H1 H2]%andb_true_iff. apply Nat.leb_le in H1, H2.
  repeat match goal with
         | |- context [(?a <=? ?b)%nat] => destruct (Nat.leb_spec a b)
         | |- context [(?a =? ?b)%nat] => destruct (Nat.eqb_spec a b)
         end; cbn; (done || lia).
Qed.

(** Digits without underscores are their own digits. *)
Lemma digits_of_digits (b : bool) (s : string) :
  all_chars is_digit s = true -> s <> "" -> digits_of b s = Some s.
Proof.
  revert b. induction s as [|c s IH]; intros b; [done|].
  cbn [all_chars digits_of]. intros [Hc Hs]%andb_true_iff _. rewrite Hc.
  destruct s as [|d s]; [done|]. by rewrite IH.
Qed.

Lemma int_of_digits (u : Decimal.uint) (neg : bool) :
  u <> Decimal.Nil ->
  match digits_of false (NilEmpty.string_of_uint u) ≫= NilEmpty.uint_of_string with
  | Some u' => Ok (if neg then - Z.of_uint u' else Z.of_uint u')
  | None => Raise ValueError
  end = Ok (if neg then - Z.of_uint u else Z.of_uint u).
Proof.
  intros Hu. rewrite digits_of_digits;
    [| apply string_of_uint_digits | by destruct u].
  cbn [mbind option_bind]. by rewrite NilEmpty.usu.
Qed.

(** [int] reads back what [format] wrote. *)
Lemma int_of_str_format_int (z : Z) : int_of_str (format_int z) = Ok z.
Proof.
  unfold int_of_str. rewrite format_int_no_int_space.
  pose proof (DecimalZ.of_to z) as Hz. unfold format_int.
  destruct z as [|p|p]; [reflexivity| |].
  - cbn [Z.to_int NilEmpty.string_of_int] in *. cbn [Z.of_int] in Hz.
    pose proof (DecimalPos.Unsigned.to_uint_nonnil p) as Hnil.
    pose proof (int_of_digits (Pos.to_uint p) false Hnil) as E.
    rewrite Hz in E.
    destruct (Pos.to_uint p); try done; exact E.
  - cbn [Z.to_int NilEmpty.string_of_int] in *. cbn [Z.of_int] in Hz.
    pose proof (DecimalPos.Unsigned.to_uint_nonnil p) as Hnil.
    pose proof (int_of_digits (Pos.to_uint p) true Hnil) as E.
    rewrite Hz in E. exact E.
Qed.

(** [int] on text that [format] does not write: digits grouped by
    underscores, a sign and zeros, whitespace around the numeral, and what it
    refuses. *)
Example int_of_str_examples :
  int_of_str "1_0" = Ok 10
  /\ int_of_str " +007 " = Ok 7
  /\ int_of_str "-1_000_000" = Ok (-1000000)
  /\ int_of_str "1__0" = Raise ValueError
  /\ int_of_str "_1" = Raise ValueError
  /\ int_of_str "1_" = Raise ValueError
  /\ int_of_str "- 1" = Raise ValueError
  /\ int_of_str "" = Raise ValueError
  /\ int_of_str (String (ascii_of_nat 28) "5") = Raise ValueError
  /\ Str.strip (String (ascii_of_nat 28) "5") = "5".
Proof. by split_and!. Qed.

(** The pieces of a field identifier. *)
Lemma split_field_id (q g : Z) :
  Str.split "_" (field_id q g) = Ok ["question"; format_int q; format_int g].
Proof.
  unfold Str.split, field_id. f_equal.
  change ("question_" +:+ format_int q +:+ "_" +:+ format_int g)
    with ("question" +:+ "_" +:+ format_int q +:+ "_" +:+ format_int g).
  rewrite split_from_clean_sep by (done || by apply clean_char).
  rewrite split_from_clean_sep
    by (done || apply clean_char, format_int_no_underscore).
  rewrite split_from_clean_end by apply clean_char, format_int_no_underscore.
  reflexivity.
Qed.

Lemma startswith_field_id (q g : Z) :
  Str.startswith (field_id q g) "question_" = true.
Proof. unfold Str.startswith, field_id. apply prefix_append. Qed.

(** The identifier written by [add_question] is read back by [save]. *)
Lemma parse_field_id (q g : Z) :
  (parts <- Str.split "_" (field_id q g) ;;
   q_id <- rbind (index parts 1) int_of_str ;;
   ag_id <- rbind (index parts 2) int_of_str ;;
   Ok (q_id, ag_id))%py = Ok (q, g).
Proof.
  rewrite split_field_id. cbn [rbind index lookup list_lookup].
  by rewrite !int_of_str_format_int.
Qed.

(** ** Saving one field (C2) *)

Section read_only.
Context `{Settings, Text, Random, Database}.

Lemma read_only_ret {A} (a : A) : read_only (ret a).
Proof. by intros w. Qed.

Lemma read_only_lift {A} (r : result A) : read_only (lift r).
Proof. by intros w. Qed.

Lemma read_only_get_self : read_only get_self.
Proof. by intros w. Qed.

Lemma read_only_get_store : read_only get_store.
Proof. by intros w. Qed.

Lemma read_only_modify_self u : read_only (modify_self u).
Proof. by intros w. Qed.

Lemma read_only_bind {A B} (m : M A) (k : A -> M B) :
  read_only m -> (forall a, read_only (k a)) -> read_only (bind m k).
Proof.
  intros Hm Hk w. unfold bind. specialize (Hm w).
  destruct (m w) as [[a|e] w']; [|exact Hm].
  destruct Hm as [<- <-]. apply Hk.
Qed.

End read_only.

Create HintDb read_only.

#[local] Hint Resolve read_only_ret read_only_lift read_only_get_self
  read_only_get_store read_only_modify_self : read_only.

Ltac read_only_step :=
  match goal with
  | |- read_only (bind _ _) => apply read_only_bind; [|intros ?]
  | |- read_only (match ?x with _ => _ end) => destruct x
  | |- _ => solve [auto with read_only]
  end.

Ltac read_only := repeat read_only_step.

Section save_answer_facts.
Context `{Settings, Text, Random, Database}.

Lemma read_only_get_preexisting_response : read_only _get_preexisting_response.
Proof. unfold _get_preexisting_response. read_only. Qed.

Lemma read_only_fetch_answers : read_only fetch_answers.
Proof.
  unfold fetch_answers. pose proof read_only_get_preexisting_response. read_only.
Qed.

Lemma read_only_get_preexisting_answers : read_only _get_preexisting_answers.
Proof.
  unfold _get_preexisting_answers. pose proof read_only_fetch_answers. read_only.
Qed.

Lemma read_only_get_preexisting_answer q ag :
  read_only (_get_preexisting_answer q ag).
Proof.
  unfold _get_preexisting_answer, _get_preexisting_answer_all.
  pose proof read_only_get_preexisting_answers. read_only.
Qed.

(** What line 382 does to a value without a colon. *)
Lemma split_once_absent (sep s : string) :
  Str.contains sep s = false -> split_once sep s = [s].
Proof.
  induction s as [|c s IH]; [done|].
  intros Hs. cbn [split_once].
  rewrite (contains_prefix_false _ _ Hs), IH; [done|].
  by eapply contains_tail_false.
Qed.

Lemma split_image_value_absent (s : string) :
  Str.contains ":" s = false -> split_image_value (VStr s) = Raise ValueError.
Proof. intros Hs. unfold split_image_value. by rewrite split_once_absent. Qed.

(** [save_answer] on an identifier made by [add_question], once the identifier
    is read back and the question and the group are found. *)
Lemma save_answer_unfold (w : World) (response : Response) (q g : Z)
    (question : Question) (ag : AnswerGroup) (v : FieldValue) :
  Question_objects (store w) !! q = Some question ->
  AnswerGroup_objects (store w) !! g = Some ag ->
  save_answer response (field_id q g) v w
  = (let '(prior, w1) := _get_preexisting_answer question ag w in
     match prior with
     | Raise e => (Raise e, w1)
     | Ok prior =>
         match (if decide (ag_type ag = SELECT_IMAGE)
                then (_ <- split_image_value v ;; Ok tt)%py else Ok tt) with
         | Raise e => (Raise e, w1)
         | Ok _ =>
             let answer := filled (default (new_answer question ag) prior) response v in
             let '(answer, st') := Answer_save answer (store w1) in
             (Ok (Some (answer_question answer, body answer)),
              with_self
                (if bool_decide (is_Some prior) then
                   match answers (self w1) with
                   | CSome m =>
                       with_answers
                         (CSome (<[q_pk question :=
                                     od_set (ag_pk ag) answer
                                       (default [] (m !! q_pk question))]> m))
                         (self w1)
                   | _ => self w1
                   end
                 else self w1)
                {| self := self w1; store := st'; generator := generator w1;
                   sent := sent w1 |})
         end
     end).
Proof.
  intros Hq Hg. unfold save_answer. rewrite startswith_field_id.
  unfold bind at 1. unfold lift at 1. rewrite split_field_id.
  unfold bind at 1. unfold lift at 1.
  cbn [rbind index lookup list_lookup]. rewrite int_of_str_format_int.
  unfold bind at 1. unfold lift at 1.
  cbn [rbind index lookup list_lookup]. rewrite int_of_str_format_int.
  unfold bind at 1. cbn [get_store].
  unfold bind at 1. unfold lift at 1. unfold Question_get. rewrite Hq.
  unfold bind at 1. unfold lift at 1. unfold AnswerGroup_get. rewrite Hg.
  unfold bind at 1.
  destruct (_get_preexisting_answer question ag w) as [[prior|e] w1]; [|done].
  unfold bind at 1.
  destruct (decide (ag_type ag = SELECT_IMAGE)) as [Hi|Hi].
  - unfold bind at 1. unfold lift.
    destruct (split_image_value v) as [p|e]; [|done].
    cbn [rbind ret]. unfold bind at 1. cbn [get_store].
    fold (new_answer question ag).
    fold (filled (default (new_answer question ag) prior) response v).
    destruct (Answer_save _ (store w1)) as [answer st'].
    unfold bind, modify_store, modify_self, ret, with_self.
    by destruct (bool_decide (is_Some prior)).
  - cbn [ret]. unfold bind at 1. cbn [get_store].
    fold (new_answer question ag).
    fold (filled (default (new_answer question ag) prior) response v).
    destruct (Answer_save _ (store w1)) as [answer st'].
    unfold bind, modify_store, modify_self, ret, with_self.
    by destruct (bool_decide (is_Some prior)).
Qed.

End save_answer_facts.

Section C2.
Context `{Settings, Text, Random, Database}.

(** Saving an answer changes nothing of it but, for a new one, its key. *)
Lemma Answer_save_fst (a : Answer) (st : Store) :
  answer_question (fst (Answer_save a st)) = answer_question a
  /\ answer_group_id (fst (Answer_save a st)) = answer_group_id a
  /\ answer_response (fst (Answer_save a st)) = answer_response a
  /\ body (fst (Answer_save a st)) = body a.
Proof.
  unfold Answer_save. destruct (answer_pk a); [|done].
  by destruct (has_row _ _ _).
Qed.

(** X1.  The identifier of a field is ["question_<q>_<g>"], and [save] reads [q] and
    [g] back from it; for a group that is not an image selection (or whose
    value holds a colon) exactly one answer is then saved, through one call of
    [Answer_save]: the stored answer of the group if the cache has one, a new
    one for question [q] and group [g] otherwise, with the submitted value as
    its body. *)
Lemma save_answer_field_id (w w1 : World) (response : Response) (q g : Z)
    (question : Question) (ag : AnswerGroup) (v : FieldValue)
    (prior : option Answer) :
  Question_objects (store w) !! q = Some question ->
  AnswerGroup_objects (store w) !! g = Some ag ->
  (ag_type ag = SELECT_IMAGE -> is_ok (split_image_value v) = true) ->
  _get_preexisting_answer question ag w = (Ok prior, w1) ->
  let answer := filled (default (new_answer question ag) prior) response v in
  field_id q g = "question_" +:+ format_int q +:+ "_" +:+ format_int g
  /\ fst (save_answer response (field_id q g) v w) = Ok (Some (answer_question answer, v))
  /\ store (snd (save_answer response (field_id q g) v w))
     = snd (Answer_save answer (store w))
  /\ body (fst (Answer_save answer (store w))) = v
  /\ (prior = None ->
      Answer_objects (store (snd (save_answer response (field_id q g) v w)))
      = Answer_objects (store w)
        ++ [{| answer_pk := Some (next_answer_pk (store w));
               answer_response := response_pk response;
               answer_question := q_pk question;
               answer_group_id := ag_pk ag; body := v |}]).
Proof.
  intros Hq Hg Himg Hprior answer. split; [reflexivity|].
  pose proof (read_only_get_preexisting_answer question ag w) as [Hst _].
  rewrite Hprior in Hst. cbn [snd] in Hst.
  rewrite (save_answer_unfold w response q g question ag v Hq Hg), Hprior.
  assert (Hsplit : (if decide (ag_type ag = SELECT_IMAGE)
                    then (_ <- split_image_value v ;; Ok tt)%py else Ok tt) = Ok tt).
  { destruct (decide (ag_type ag = SELECT_IMAGE)) as [Hi|]; [|done].
    specialize (Himg Hi). by destruct (split_image_value v). }
  rewrite Hsplit, Hst. subst answer. cbv zeta.
  set (answer := filled (default (new_answer question ag) prior) response v).
  pose proof (Answer_save_fst answer (store w)) as (Hquestion & _ & _ & Hbody).
  destruct (Answer_save answer (store w)) as [a st'] eqn:Esave.
  cbn [fst snd store with_self] in *. split_and!.
  - by rewrite Hquestion, Hbody.
  - reflexivity.
  - exact Hbody.
  - intros ->. unfold Answer_save in Esave. cbn in Esave.
    by injection Esave as <- <-.
Qed.

(** X2.  The value of an image selection without a colon is never saved: the
    unpacking of line 382 raises before the answer gets its body, and the
    store is as before. *)
Lemma save_answer_select_image (w : World) (response : Response) (q g : Z)
    (question : Question) (ag : AnswerGroup) (s : string) :
  Question_objects (store w) !! q = Some question ->
  AnswerGroup_objects (store w) !! g = Some ag ->
  ag_type ag = SELECT_IMAGE ->
  Str.contains ":" s = false ->
  is_ok (fst (save_answer response (field_id q g) (VStr s) w)) = false
  /\ (is_ok (fst (_get_preexisting_answer question ag w)) = true ->
      fst (save_answer response (field_id q g) (VStr s) w) = Raise ValueError)
  /\ store (snd (save_answer response (field_id q g) (VStr s) w)) = store w.
Proof.
  intros Hq Hg Hi Hs.
  pose proof (read_only_get_preexisting_answer question ag w) as [Hst _].
  rewrite (save_answer_unfold w response q g question ag _ Hq Hg).
  destruct (_get_preexisting_answer question ag w) as [[prior|e] w1]; [|done].
  rewrite decide_True by done. rewrite split_image_value_absent by done.
  done.
Qed.

End C2.

Section C2_examples.
Import Sample.
#[local] Existing Instances comma_settings ascii_text lcg nulls_last.

Lemma save_answer_field_id_witness :
  let w := submitted (args ALL_IN_ONE_PAGE true None) None (store_with []) [] in
  fst (save_answer alice_response (field_id 17 42) (VStr "red") w)
  = Ok (Some (17, VStr "red")).
Proof.
  intros w.
  refine (proj1 (proj2 (save_answer_field_id w _ alice_response 17 42 q17
                          (group 42 SELECT rgb) (VStr "red") None _ _ _ _))).
  - reflexivity.
  - reflexivity.
  - discriminate.
  - reflexivity.
Defined.

Lemma save_answer_select_image_witness :
  let w := submitted (args ALL_IN_ONE_PAGE true None) None (store_with []) [] in
  fst (save_answer alice_response (field_id 21 45) (VStr "red") w) = Raise ValueError.
Proof.
  intros w.
  refine (proj1 (proj2 (save_answer_select_image w alice_response 21 45 q21
                          (group 45 SELECT_IMAGE rgb) "red" _ _ _ _)) _);
    reflexivity.
Defined.

(** Submitting the field [question_17_42]: one answer row, for question 17
    and answer group 42, with the submitted value as its body. *)
Example save_question_17_42 :
  let w := submitted (args ALL_IN_ONE_PAGE true None) None schema
             [("question_17_42", VStr "red")] in
  field_id 17 42 = "question_17_42"
  /\ is_ok (fst (save w)) = true
  /\ Answer_objects (store (snd (save w)))
     = [{| answer_pk := Some 1; answer_response := Some 1; answer_question := 17;
           answer_group_id := 42; body := VStr "red" |}].
Proof. intros w. split_and!; vm_compute; reflexivity. Qed.

(** C2 at the input where the code fails it.  The validated field
    [question_21_45] belongs to an image selection and carries one of its
    choices, ["red"]: [save] raises a [ValueError], and although the response
    has been saved, no answer is. *)
Theorem save_select_image_raises :
  let w := submitted (args ALL_IN_ONE_PAGE true None) None schema
             [("question_21_45", VStr "red")] in
  field_id 21 45 = "question_21_45"
  /\ ag_type <$> (AnswerGroup_objects schema !! 45) = Some SELECT_IMAGE
  /\ ("red", "Red") ∈ get_choices (group 45 SELECT_IMAGE rgb)
  /\ fst (save w) = Raise ValueError
  /\ Answer_objects (store (snd (save w))) = []
  /\ length (Response_objects (store (snd (save w)))) = 1%nat.
Proof.
  intros w. split_and!; try (vm_compute; reflexivity).
  left.
Qed.

End C2_examples.

(* ===================================================================== *)
(** * Part III: further properties of the form *)
(* ===================================================================== *)

(** ** What a method keeps of the world *)

Section keeps.
Context `{Settings, Text, Random, Database}.
Variable R : World -> World -> Prop.
Hypothesis R_refl : forall w, R w w.
Hypothesis R_trans : forall w1 w2 w3, R w1 w2 -> R w2 w3 -> R w1 w3.

Lemma keeps_ret {A} (a : A) : keeps R (ret a).
Proof. intros w. apply R_refl. Qed.

Lemma keeps_lift {A} (r : result A) : keeps R (lift r).
Proof. intros w. apply R_refl. Qed.

Lemma keeps_get_self : keeps R get_self.
Proof. intros w. apply R_refl. Qed.

Lemma keeps_get_store : keeps R get_store.
Proof. intros w. apply R_refl. Qed.

Lemma keeps_modify_self (u : ResponseForm -> ResponseForm) :
  (forall w, R w (with_self (u (self w)) w)) -> keeps R (modify_self u).
Proof. intros Hu w. apply Hu. Qed.

Lemma keeps_modify_store (u : Store -> Store) :
  (forall w, R w (with_store (u (store w)) w)) -> keeps R (modify_store u).
Proof. intros Hu w. apply Hu. Qed.

Lemma keeps_put_generator g :
  (forall w, R w (with_generator g w)) -> keeps R (put_generator g).
Proof. intros Hg w. apply Hg. Qed.

Lemma keeps_bind {A B} (m : M A) (k : A -> M B) :
  keeps R m -> (forall a, keeps R (k a)) -> keeps R (bind m k).
Proof.
  intros Hm Hk w. unfold bind. specialize (Hm w).
  destruct (m w) as [[a|e] w']; [|exact Hm].
  eapply R_trans; [exact Hm | apply Hk].
Qed.

(** After a pure step only the values it can return matter. *)
Lemma keeps_bind_lift {A B} (r : result A) (k : A -> M B) :
  (forall a, r = Ok a -> keeps R (k a)) -> keeps R (bind (lift r) k).
Proof.
  intros Hk w. unfold bind, lift. destruct r as [a|e]; [|apply R_refl].
  by apply Hk.
Qed.

Lemma keeps_for_each_Forall {A} (P : A -> Prop) (l : list A) (body : A -> M unit) :
  Forall P l -> (forall a, P a -> keeps R (body a)) -> keeps R (for_each l body).
Proof.
  intros Hl Hb. induction Hl as [|a l Ha _ IH]; [apply keeps_ret|].
  apply keeps_bind; [by apply Hb | intros _; exact IH].
Qed.

Lemma keeps_for_each {A} (l : list A) (body : A -> M unit) :
  (forall a, keeps R (body a)) -> keeps R (for_each l body).
Proof.
  intros Hb. apply (keeps_for_each_Forall (fun _ => True)); [|auto].
  by apply Forall_forall.
Qed.

End keeps.

(** Take a method apart along its binds and case distinctions, for [keeps]. *)
Ltac keeps_step :=
  match goal with
  | |- forall _, keeps _ _ => intros ?
  | |- keeps _ (bind _ _) => apply keeps_bind; try assumption
  | |- keeps _ (for_each _ _) => apply keeps_for_each; try assumption
  | |- keeps _ (modify_self _) => apply keeps_modify_self; try assumption; intros ?
  | |- keeps _ (put_generator _) => apply keeps_put_generator; try assumption; intros ?
  | |- keeps _ (ret _) => apply keeps_ret; assumption
  | |- keeps _ (lift _) => apply keeps_lift; assumption
  | |- keeps _ get_self => apply keeps_get_self; assumption
  | |- keeps _ get_store => apply keeps_get_store; assumption
  | |- keeps _ (match ?x with _ => _ end) => destruct x
  | |- keeps _ (let '(_, _) := ?x in _) => destruct x
  | |- _ => solve [auto]
  end.

Ltac keeps := repeat keeps_step.

Lemma get_question_fields_attrs (question : Question) (kwargs : FieldKwargs)
    (l : list (AnswerGroup * Field)) :
  get_question_fields question kwargs = Ok l ->
  Forall (fun agf => attrs agf.2 = ∅) l.
Proof.
  unfold get_question_fields.
  generalize (order_by pk_leb (q_answer_groups question)). intros ags.
  revert l. induction ags as [|ag ags IH]; intros l; cbn [mapM].
  - intros [= <-]. constructor.
  - destruct (field_initial _ _) as [i|e]; [|done]. cbn [rbind].
    destruct (mapM _ ags) as [l'|e]; [|done]. cbn [rbind].
    intros [= <-]. constructor; [done | by apply IH].
Qed.

(** The methods that build the form keep every relation that the lookup of
    the response, the cache of the answers, the generator and the
    registration of a new field keep. *)
Section keeps_methods.
Context `{Settings, Text, Random, Database}.
Variable R : World -> World -> Prop.
Hypothesis R_refl : forall w, R w w.
Hypothesis R_trans : forall w1 w2 w3, R w1 w2 -> R w2 w3 -> R w1 w3.
Hypothesis R_lookup : keeps R _get_preexisting_response.
Hypothesis R_answers : forall a w, R w (with_self (with_answers a (self w)) w).

Lemma keeps_fetch_answers : keeps R fetch_answers.
Proof. unfold fetch_answers. keeps. Qed.

Lemma keeps_get_preexisting_answers : keeps R _get_preexisting_answers.
Proof. unfold _get_preexisting_answers. pose proof keeps_fetch_answers. keeps. Qed.

Lemma keeps_get_preexisting_answer_all q : keeps R (_get_preexisting_answer_all q).
Proof.
  unfold _get_preexisting_answer_all. pose proof keeps_get_preexisting_answers.
  keeps.
Qed.

Lemma keeps_get_preexisting_answer q ag : keeps R (_get_preexisting_answer q ag).
Proof.
  unfold _get_preexisting_answer. pose proof (keeps_get_preexisting_answer_all q).
  keeps.
Qed.

Lemma keeps_get_question_initial q data : keeps R (get_question_initial q data).
Proof.
  unfold get_question_initial. pose proof (keeps_get_preexisting_answer_all q).
  keeps.
Qed.

Hypothesis R_generator : forall g w, R w (with_generator g w).

Lemma keeps_seeded_shuffle {A} (l : list A) : keeps R (seeded_shuffle l).
Proof. unfold seeded_shuffle. keeps. Qed.

Lemma keeps_all_questions : keeps R all_questions.
Proof.
  unfold all_questions. pose proof (@keeps_seeded_shuffle Question). keeps.
Qed.

Lemma keeps_questions_of_category_step k : keeps R (questions_of_category_step k).
Proof.
  unfold questions_of_category_step.
  pose proof (@keeps_seeded_shuffle Question). keeps.
Qed.

Hypothesis R_register :
  forall q ag fld w,
    attrs fld = ∅ ->
    R w (with_self (register_field q (decorate q (ag, fld)) (self w)) w).

Lemma keeps_add_question q data : keeps R (add_question q data).
Proof.
  unfold add_question. apply keeps_bind; [done | apply keeps_get_question_initial |].
  intros i. apply keeps_bind_lift; [done|]. intros l Hl.
  apply get_question_fields_attrs in Hl.
  apply (keeps_for_each_Forall R R_refl R_trans
           (fun agf => exists ag fld, agf = decorate q (ag, fld) /\ attrs fld = ∅)).
  - apply Forall_forall. intros agf (agf0 & -> & Hin)%list_elem_of_fmap.
    rewrite Forall_forall in Hl. destruct agf0 as [ag fld].
    exists ag, fld. split; [done|]. by apply (Hl _ Hin).
  - intros agf (ag & fld & -> & Hfld). apply keeps_modify_self. intros w.
    by apply R_register.
Qed.

Lemma keeps_add_questions data : keeps R (add_questions data).
Proof.
  unfold add_questions.
  pose proof keeps_all_questions. pose proof keeps_questions_of_category_step.
  pose proof (fun q => keeps_add_question q data). keeps.
Qed.

End keeps_methods.

(** The same for a relation between the form before and the form after. *)
Section keeps_on_self.
Context `{Settings, Text, Random, Database}.
Variable R : ResponseForm -> ResponseForm -> Prop.
Hypothesis R_refl : forall f, R f f.
Hypothesis R_trans : forall f1 f2 f3, R f1 f2 -> R f2 f3 -> R f1 f3.
Hypothesis R_lookup : keeps (on_self R) _get_preexisting_response.
Hypothesis R_answers : forall a f, R f (with_answers a f).

Lemma on_self_refl (w : World) : on_self R w w.
Proof. apply R_refl. Qed.

Lemma on_self_trans (w1 w2 w3 : World) :
  on_self R w1 w2 -> on_self R w2 w3 -> on_self R w1 w3.
Proof. apply R_trans. Qed.

Lemma on_self_get_question_initial q data :
  keeps (on_self R) (get_question_initial q data).
Proof.
  apply keeps_get_question_initial;
    [apply on_self_refl | apply on_self_trans | apply R_lookup |].
  intros a w. apply R_answers.
Qed.

Hypothesis R_register :
  forall q ag fld f, attrs fld = ∅ -> R f (register_field q (decorate q (ag, fld)) f).

Lemma on_self_add_questions data : keeps (on_self R) (add_questions data).
Proof.
  apply keeps_add_questions;
    [apply on_self_refl | apply on_self_trans | apply R_lookup | | |].
  - intros a w. apply R_answers.
  - intros g w. apply R_refl.
  - intros q ag fld w Hfld. by apply R_register.
Qed.

End keeps_on_self.

(** ** Constructed forms *)

Section constructed.
Context `{Settings, Text, Random, Database}.

Lemma init_constructed (a : InitArgs) st g out (w : World) :
  __init__ a st g out = Ok w -> constructed (self w).
Proof.
  intros Hinit. destruct (init_schema _ _ _ _ _ Hinit) as (k & z & _ & Hs).
  by exists a, k, z.
Qed.

(** The attributes that lines 61-68 derive from the survey. *)
Lemma constructed_attributes (f : ResponseForm) :
  constructed f ->
  categories f = non_empty_categories (survey f)
  /\ qs_with_no_cat f
     = order_by order_id_leb (filter_category_isnull (survey_questions (survey f)))
  /\ randomize_questions f = filter_order_isnull (survey_questions (survey f))
  /\ steps_count f = init_steps_count (survey f) (categories f) (qs_with_no_cat f).
Proof.
  intros (a & k & z & Hs & _ & _ & _ & Hc & Hq & Hr & Hn).
  cbn [new_form survey categories qs_with_no_cat randomize_questions steps_count] in *.
  rewrite Hs, Hc, Hq, Hr, Hn. done.
Qed.

Lemma frame_constructed {A} (m : M A) (w : World) :
  frame m -> constructed (self w) -> constructed (self (snd (m w))).
Proof.
  intros Hm (a & k & z & Hs). exists a, k, z.
  eapply same_schema_trans; [exact Hs | apply Hm].
Qed.

End constructed.

(** ** The shuffle, whatever the generator does *)

Section shuffle_ok.
Context `{Random}.

Lemma shuffle_from_ok_perm {A} (i : nat) (x x' : list A) (g : rng) :
  fst (shuffle_from i x g) = Ok x' -> x' ≡ₚ x.
Proof.
  revert x g. induction i as [|i IH]; intros x g; cbn [shuffle_from].
  - by intros [= ->].
  - destruct (randbelow (S (S i)) g) as [j g'].
    destruct (x !! S i) as [xi|] eqn:Hi; [|done].
    destruct (x !! j) as [xj|] eqn:Hj; [|done].
    intros Hx'. rewrite (IH _ _ Hx'). by apply swap_perm.
Qed.

(** [random.shuffle] either raises or returns a rearrangement of its
    argument; it never loses or invents an element. *)
Lemma shuffle_ok_perm {A} (x x' : list A) (g : rng) :
  fst (shuffle x g) = Ok x' -> x' ≡ₚ x.
Proof. apply shuffle_from_ok_perm. Qed.

End shuffle_ok.

(** ** The step of a survey shown by category *)

Section category_step.
Context `{Settings, Text, Random, Database}.

Lemma seeded_shuffle_ok_perm {A} (l l' : list A) (w : World) :
  fst (seeded_shuffle l w) = Ok l' -> l' ≡ₚ l.
Proof. rewrite seeded_shuffle_unfold. apply shuffle_ok_perm. Qed.

Lemma index_Z_elem_of {A} (l : list A) (i : Z) (x : A) :
  index_Z l i = Ok x -> x ∈ l.
Proof.
  unfold index_Z, index.
  destruct ((0 <=? i) && (i <? Z.of_nat (length l))).
  - destruct (l !! Z.to_nat i) eqn:E; [|done].
    intros [= <-]. by eapply list_elem_of_lookup_2.
  - destruct ((- Z.of_nat (length l) <=? i) && (i <? 0)); [|done].
    destruct (l !! Z.to_nat (Z.of_nat (length l) + i)) eqn:E; [|done].
    intros [= <-]. by eapply list_elem_of_lookup_2.
Qed.

(** The questions of a step are those of its category, in some order. *)
Lemma questions_of_category_step_perm (w : World) (k : Z) (qs : list Question) :
  fst (questions_of_category_step k w) = Ok qs ->
  (k = Z.of_nat (length (categories (self w))) -> qs ≡ₚ qs_with_no_cat (self w))
  /\ (k <> Z.of_nat (length (categories (self w))) ->
      exists c,
        index_Z (categories (self w)) k = Ok c
        /\ c ∈ categories (self w)
        /\ qs ≡ₚ filter_category c (survey_questions (survey (self w)))
        /\ Forall (fun q => category_id q = Some (cat_id c)) qs).
Proof.
  rewrite questions_of_category_step_unfold. intros Hqs. split.
  - intros ->. rewrite Z.eqb_refl in Hqs.
    destruct (randomize_questions (self w)).
    + by injection Hqs as <-.
    + by apply seeded_shuffle_ok_perm in Hqs.
  - intros Hk. apply Z.eqb_neq in Hk. rewrite Hk in Hqs.
    destruct (index_Z (categories (self w)) k) as [c|e] eqn:Hc; [|done].
    cbn [rbind] in Hqs. exists c.
    assert (Hperm : qs ≡ₚ filter_category c (survey_questions (survey (self w)))).
    { destruct (randomize_questions (self w)).
      - injection Hqs as <-. apply order_by_perm.
      - apply seeded_shuffle_ok_perm in Hqs. by rewrite Hqs, order_by_perm. }
    split_and!; [done | by eapply index_Z_elem_of | done |].
    rewrite Hperm. unfold filter_category. apply Forall_forall.
    intros q Hq. by apply list_elem_of_filter in Hq as [? _].
Qed.

(** X3.  The questions that [add_questions] takes for step [k] of a survey shown
    by category: for [k] the number of categories, the questions without a
    category; otherwise the questions of the category at index [k], all of
    them and nothing else, in some order. *)
Theorem category_step_questions (w : World) (k : Z) (qs : list Question) :
  fst (questions_of_category_step k w) = Ok qs ->
  (k = Z.of_nat (length (categories (self w))) -> qs ≡ₚ qs_with_no_cat (self w))
  /\ (k <> Z.of_nat (length (categories (self w))) ->
      exists c,
        index_Z (categories (self w)) k = Ok c
        /\ c ∈ categories (self w)
        /\ qs ≡ₚ filter_category c (survey_questions (survey (self w)))
        /\ Forall (fun q => category_id q = Some (cat_id c)) qs).
Proof. apply questions_of_category_step_perm. Qed.

(** X4.  The header that [current_categories] gives for the step is the category of
    every question of the step; at the step after the last category, on a
    constructed form, the header is "No category" and no question of the step
    has a category. *)
Theorem step_header_matches_questions (w : World) (k : Z) (qs : list Question) :
  display_method (survey (self w)) = BY_CATEGORY ->
  step (self w) = Some k ->
  fst (questions_of_category_step k w) = Ok qs ->
  (k < Z.of_nat (length (categories (self w))) ->
   exists c, current_categories (self w) = Ok [Saved c]
             /\ Forall (fun q => q_category q <> None /\ category_id q = Some (cat_id c)) qs)
  /\ (k = Z.of_nat (length (categories (self w))) ->
      current_categories (self w) = Ok [no_category]
      /\ (constructed (self w) -> Forall (fun q => q_category q = None) qs)).
Proof.
  intros Hm Hstep Hqs.
  destruct (questions_of_category_step_perm w k qs Hqs) as [Hlast Hcat].
  unfold current_categories. rewrite decide_True, Hstep by done. split.
  - intros Hk. destruct Hcat as (c & Hc & _ & _ & Hall); [lia|].
    exists c. replace (k <? _) with true by lia. rewrite Hc. split; [done|].
    eapply Forall_impl; [exact Hall|]. intros q Hq. split; [|done].
    unfold category_id in Hq. by destruct (q_category q).
  - intros ->. rewrite Z.ltb_irrefl. split; [done|].
    intros Hf. destruct (constructed_attributes _ Hf) as (_ & Hno & _).
    rewrite (Hlast eq_refl), Hno, order_by_perm.
    unfold filter_category_isnull. apply Forall_forall.
    intros q Hq. by apply list_elem_of_filter in Hq as [? _].
Qed.

(** X5.  A step beyond the categories makes the construction of a form shown by
    category fail with an [IndexError], before any field is added. *)
Theorem category_step_out_of_range (data : option (odict string FieldValue))
    (w : World) (k : Z) :
  display_method (survey (self w)) = BY_CATEGORY ->
  step (self w) = Some k ->
  k > Z.of_nat (length (categories (self w)))
  \/ k < - Z.of_nat (length (categories (self w))) ->
  add_questions data w = (Raise IndexError, w).
Proof.
  intros Hm Hstep Hk. unfold add_questions, bind at 1. cbn [get_self].
  rewrite Hstep. rewrite decide_True by done.
  unfold bind at 1. rewrite questions_of_category_step_unfold.
  replace (k =? _) with false by lia.
  unfold index_Z. replace ((0 <=? k) && (k <? _)) with false by lia.
  replace ((- _ <=? k) && (k <? 0)) with false by lia. reflexivity.
Qed.

End category_step.

Section category_step_examples.
Import Sample.
#[local] Existing Instances comma_settings ascii_text lcg nulls_last.

Lemma category_step_questions_witness :
  let w := world (args BY_CATEGORY true None) (Some 0) schema in
  [q9; q17] ≡ₚ filter_category colours (survey_questions (survey (self w))).
Proof.
  intros w.
  destruct (proj2 (category_step_questions w 0 [q9; q17] eq_refl)) as (c & Hc & _ & Hp & _).
  - discriminate.
  - injection Hc as <-. exact Hp.
Defined.

Lemma step_header_matches_questions_witness :
  let w := world (args BY_CATEGORY true None) (Some 2) schema in
  current_categories (self w) = Ok [no_category]
  /\ Forall (fun q => q_category q = None) [q21; q22].
Proof.
  intros w.
  destruct (proj2 (step_header_matches_questions w 2 [q21; q22] eq_refl eq_refl eq_refl)
              eq_refl) as [Hh Hq].
  split; [exact Hh|]. apply Hq.
  exists (args BY_CATEGORY true None), (Some 2), 5. apply same_schema_refl.
Defined.

Lemma category_step_out_of_range_witness :
  let w := world (args BY_CATEGORY true None) (Some 3) schema in
  add_questions None w = (Raise IndexError, w).
Proof.
  intros w. apply (category_step_out_of_range None w 3); [reflexivity..|].
  left. reflexivity.
Defined.

End category_step_examples.

(** ** Widgets and fields of a question *)

Lemma mapM_Forall2 {A B} (f : A -> result B) (l : list A) (l' : list B) :
  mapM f l = Ok l' <-> Forall2 (fun a b => f a = Ok b) l l'.
Proof.
  revert l'. induction l as [|a l IH]; intros l'; cbn [mapM].
  - split; [intros [= <-]; constructor | by intros ->%Forall2_nil_inv_l].
  - split.
    + destruct (f a) as [b|e] eqn:Ea; [|done]. cbn [rbind].
      destruct (mapM f l) as [bs|e]; [|done]. cbn [rbind].
      intros [= <-]. constructor; [done | by apply IH].
    + intros (b & bs & Hb & Hbs & ->)%Forall2_cons_inv_l.
      rewrite Hb. cbn [rbind]. apply IH in Hbs. by rewrite Hbs.
Qed.

Lemma mapM_raise_head {A B} (f : A -> result B) (a : A) (l : list A) (e : exn) :
  f a = Raise e -> mapM f (a :: l) = Raise e.
Proof. intros Ha. cbn [mapM]. by rewrite Ha. Qed.

Lemma mapM_is_ok {A B} (f : A -> result B) (l : list A) :
  Forall (fun a => is_ok (f a) = true) l -> is_ok (mapM f l) = true.
Proof.
  induction 1 as [|a l Ha _ IH]; [done|]. cbn [mapM].
  destruct (f a); [|done]. cbn [rbind]. by destruct (mapM f l).
Qed.







Section field_examples.
Import Sample.



End field_examples.

(** ** Insertion-ordered dictionaries *)

Section odict_facts.
Context {K V : Type} `{EqDecision K}.
Implicit Types d : odict K V.

Lemma od_get_elem_of k v d : od_get k d = Some v -> (k, v) ∈ d.
Proof.
  induction d as [|[k' v'] d IH]; [done|]. cbn [od_get].
  destruct (decide (k' = k)) as [->|].
  - intros [= ->]. left.
  - intros Hd. right. auto.
Qed.

Lemma elem_of_od_set x k v d : x ∈ od_set k v d -> x ∈ d \/ x = (k, v).
Proof.
  induction d as [|[k' v'] d IH]; cbn [od_set].
  - intros ->%list_elem_of_singleton. by right.
  - destruct (decide (k' = k)) as [->|].
    + intros [->|Hx]%elem_of_cons; [by right | left; by right].
    + intros [->|Hx]%elem_of_cons; [left; left|].
      destruct (IH Hx); [left; by right | by right].
Qed.

(** A lookup after an assignment. *)
Lemma od_get_od_set k k' v d :
  od_get k' (od_set k v d) = if decide (k = k') then Some v else od_get k' d.
Proof.
  induction d as [|[k0 v0] d IH]; cbn [od_set od_get].
  - destruct (decide (k = k')); done.
  - destruct (decide (k0 = k)) as [->|Hne]; cbn [od_get].
    + destruct (decide (k = k')); done.
    + rewrite IH. destruct (decide (k0 = k')) as [->|]; [|done].
      by rewrite decide_False.
Qed.

(** Assigning to a new key appends it. *)
Lemma od_set_fresh k v d : od_get k d = None -> od_set k v d = d ++ [(k, v)].
Proof.
  induction d as [|[k' v'] d IH]; [done|]. cbn [od_get od_set].
  destruct (decide (k' = k)); [done|]. intros Hd. by rewrite IH.
Qed.

Lemma od_mem_od_set k k' v d :
  od_mem k' (od_set k v d) = bool_decide (k = k') || od_mem k' d.
Proof.
  unfold od_mem. rewrite od_get_od_set.
  destruct (decide (k = k')); [by rewrite bool_decide_true|].
  by rewrite bool_decide_false.
Qed.

Lemma od_get_fmap (h : V -> V) k d :
  od_get k (map (fun '(n, x) => (n, h x)) d) = h <$> od_get k d.
Proof.
  induction d as [|[k' v'] d IH]; [done|]. cbn [map od_get].
  destruct (decide (k' = k)); done.
Qed.

End odict_facts.

(** ** Adding a question *)

(** Two field identifiers are equal only for the same question and group. *)
Lemma field_id_inj (q g q' g' : Z) :
  field_id q g = field_id q' g' -> q = q' /\ g = g'.
Proof.
  intros E. pose proof (parse_field_id q g) as H1.
  rewrite E, parse_field_id in H1. by injection H1 as -> ->.
Qed.

Section add_question_facts.
Context `{Settings, Text, Random, Database}.

Lemma for_each_modify_self {A} (l : list A) (u : A -> ResponseForm -> ResponseForm)
    (w : World) :
  for_each l (fun x => modify_self (u x)) w
  = (Ok tt, with_self (fold_left (fun f x => u x f) l (self w)) w).
Proof.
  revert w. induction l as [|x l IH]; intros w; cbn [for_each fold_left].
  - by rewrite with_self_same.
  - unfold bind, modify_self. by rewrite IH.
Qed.

Lemma add_question_unfold question data (w : World) :
  add_question question data w
  = (let '(r, w1) := get_question_initial question data w in
     match r with
     | Raise e => (Raise e, w1)
     | Ok initial =>
         match get_question_fields question (kwargs_of question initial) with
         | Raise e => (Raise e, w1)
         | Ok l =>
             (Ok tt,
              with_self (fold_left (fun f agf => register_field question agf f)
                           (map (decorate question) l) (self w1)) w1)
         end
     end).
Proof.
  unfold add_question, bind at 1.
  destruct (get_question_initial question data w) as [[initial|e] w1]; [|done].
  unfold bind at 1, lift. fold (kwargs_of question initial).
  destruct (get_question_fields _ _) as [l|e]; [|done].
  apply for_each_modify_self.
Qed.

End add_question_facts.

Lemma same_fields_refl f : same_fields f f.
Proof. done. Qed.

Lemma same_fields_trans f1 f2 f3 :
  same_fields f1 f2 -> same_fields f2 f3 -> same_fields f1 f3.
Proof. intros [? ?] [? ?]. split; congruence. Qed.

Section add_question_fields.
Context `{Settings, Text, Random, Database}.

Lemma same_fields_lookup : keeps (on_self same_fields) _get_preexisting_response.
Proof.
  pose proof (on_self_refl _ same_fields_refl).
  pose proof (on_self_trans _ same_fields_trans).
  unfold _get_preexisting_response. keeps; done.
Qed.

Lemma same_fields_get_question_initial q data :
  keeps (on_self same_fields) (get_question_initial q data).
Proof.
  apply on_self_get_question_initial;
    eauto using same_fields_refl, same_fields_trans, same_fields_lookup.
  by intros.
Qed.

(** X8.  Resubmitted data that holds a string (or a number) under ["question_<pk>"]
    makes [add_question] raise a [TypeError] on the first answer group, at
    the test [ag.pk in fkw["initial"]] of line 267: no field is added. *)
Theorem add_question_data_type_error (w : World) (question : Question)
    (d : odict string FieldValue) (v : FieldValue) :
  q_answer_groups question <> [] ->
  od_get (question_id (q_pk question)) d = Some v ->
  truthy v = true ->
  (forall l, v <> VList l) ->
  is_ok (fst (get_question_initial question None w)) = true ->
  fst (add_question question (Some d) w) = Raise TypeError
  /\ same_fields (self w) (self (snd (add_question question (Some d) w))).
Proof.
  intros Hgroups Hv Htrue Hlist Hrec.
  pose proof (same_fields_get_question_initial question (Some d) w) as Hsame.
  rewrite add_question_unfold.
  destruct (_get_preexisting_answer_all question w) as [r w1] eqn:E.
  rewrite (get_question_initial_unfold _ None _ _ _ E) in Hrec.
  rewrite (get_question_initial_unfold _ (Some d) _ _ _ E) in Hsame |- *.
  cbn [fst snd] in *. destruct r as [answers|e]; [|done]. cbn [rbind] in *.
  destruct (recovered (store w1) answers) as [i0|e]; [|done]. cbn [rbind].
  assert (Hi : overridden question (Some d) i0 = InitialData v).
  { unfold overridden. destruct d; [done|]. by rewrite Hv. }
  rewrite Hi. unfold kwargs_of, get_question_fields. cbn [initial_truthy kw_initial].
  rewrite Htrue.
  destruct (order_by pk_leb (q_answer_groups question)) as [|ag l] eqn:El.
  { by apply order_by_nil_iff in El. }
  rewrite (mapM_raise_head _ _ _ TypeError); [done|].
  cbn [field_initial]. destruct v; try done. by destruct (Hlist l0).
Qed.

Lemma decorate_fst question l : (map (decorate question) l).*1 = l.*1.
Proof.
  induction l as [|[ag fld] l IH]; [done|]. cbn. by rewrite IH.
Qed.

Lemma fold_register_fields question (l : list (AnswerGroup * Field))
    (f : ResponseForm) :
  NoDup (map ag_pk l.*1) ->
  Forall (fun ag => od_get (field_id (q_pk question) (ag_pk ag)) (fields f) = None) l.*1 ->
  (fields (fold_left (fun f agf => register_field question agf f) l f)).*1
  = (fields f).*1 ++ map (fun ag => field_id (q_pk question) (ag_pk ag)) l.*1.
Proof.
  revert f. induction l as [|[ag fld] l IH]; intros f Hnd Hfresh.
  - cbn. by rewrite app_nil_r.
  - cbn [fmap list_fmap fst map] in Hnd, Hfresh.
    apply NoDup_cons in Hnd as [Hag Hnd]. apply Forall_cons in Hfresh as [Hf Hfresh].
    cbn [fold_left]. rewrite IH; [| done |].
    + cbn [register_field with_fields fields]. rewrite od_set_fresh by done.
      rewrite fmap_app. cbn. by rewrite <- app_assoc.
    + cbn [register_field with_fields fields]. rewrite od_set_fresh by done.
      apply Forall_forall. intros ag' Hag'.
      rewrite Forall_forall in Hfresh. specialize (Hfresh ag' Hag').
      rewrite <- od_set_fresh by done. rewrite od_get_od_set.
      rewrite decide_False; [done|]. intros [_ E]%field_id_inj.
      apply Hag. rewrite E. by apply elem_of_map.
Qed.

Lemma fold_register_rows question (l : list (AnswerGroup * Field))
    (f : ResponseForm) (g : QuestionGroup) :
  od_get (question_id (q_pk question)) (answer_groups f) = Some g ->
  od_get (question_id (q_pk question))
    (answer_groups (fold_left (fun f agf => register_field question agf f) l f))
  = Some {| group_text := group_text g;
            group_fields :=
              group_fields g
              ++ map (fun ag => (field_id (q_pk question) (ag_pk ag),
                                 ag_prefix ag, ag_suffix ag)) l.*1 |}.
Proof.
  revert f g. induction l as [|[ag fld] l IH]; intros f g Hg.
  - cbn [fold_left fmap list_fmap map]. rewrite app_nil_r, Hg. by destruct g.
  - cbn [fold_left].
    assert (Hg' : od_get (question_id (q_pk question))
                    (answer_groups (register_field question (ag, fld) f))
                  = Some {| group_text := group_text g;
                            group_fields :=
                              group_fields g
                              ++ [(field_id (q_pk question) (ag_pk ag),
                                   ag_prefix ag, ag_suffix ag)] |}).
    { cbn [register_field with_fields answer_groups]. unfold od_mem.
      rewrite Hg. cbn beta iota. rewrite Hg, od_get_od_set. by rewrite decide_True. }
    rewrite (IH _ _ Hg'). cbn. by rewrite <- app_assoc.
Qed.

(** The names and the grouping of the fields that [add_question] adds. *)
Lemma add_question_names (w : World) (question : Question)
    (data : option (odict string FieldValue)) :
  fst (add_question question data w) = Ok tt ->
  NoDup (map ag_pk (q_answer_groups question)) ->
  Forall (fun idf => od_get idf (fields (self w)) = None) (field_ids question) ->
  let f' := self (snd (add_question question data w)) in
  (fields f').*1 = (fields (self w)).*1 ++ field_ids question
  /\ (q_answer_groups question <> [] ->
      od_get (question_id (q_pk question)) (answer_groups (self w)) = None ->
      od_get (question_id (q_pk question)) (answer_groups f')
      = Some {| group_text := q_text question; group_fields := field_rows question |}).
Proof.
  intros Hok Hnd Hfresh f'. subst f'.
  pose proof (same_fields_get_question_initial question data w) as [Hfs Hgs].
  rewrite add_question_unfold in Hok |- *.
  destruct (get_question_initial question data w) as [[initial|e] w1]; [|done].
  destruct (get_question_fields question (kwargs_of question initial)) as [l|e] eqn:El;
    [|done].
  cbn [fst snd with_self self] in *.
  assert (Hfst : l.*1 = order_by pk_leb (q_answer_groups question)).
  { unfold get_question_fields in El. apply mapM_Forall2 in El.
    induction El as [|a b l1 l2 Hab _ IH]; [done|]. cbn. rewrite IH. f_equal.
    destruct (field_initial _ _); [|done]. by injection Hab as <-. }
  split.
  - rewrite fold_register_fields; rewrite decorate_fst, Hfst.
    + by rewrite Hfs.
    + by rewrite order_by_perm.
    + rewrite Hfs. unfold field_ids in Hfresh. by rewrite Forall_fmap in Hfresh.
  - intros Hgroups Hnone. rewrite <- Hgs in Hnone.
    destruct (map (decorate question) l) as [|[ag fld] l'] eqn:Ed.
    { exfalso. apply Hgroups, (order_by_nil_iff pk_leb). rewrite <- Hfst.
      by destruct l. }
    cbn [fold_left].
    assert (Hg : od_get (question_id (q_pk question))
                   (answer_groups (register_field question (ag, fld) (self w1)))
                 = Some {| group_text := q_text question;
                           group_fields :=
                             [(field_id (q_pk question) (ag_pk ag),
                               ag_prefix ag, ag_suffix ag)] |}).
    { cbn [register_field with_fields answer_groups]. unfold od_mem.
      rewrite Hnone. cbn beta iota. rewrite od_get_od_set, decide_True by done.
      rewrite od_get_od_set, decide_True by done. done. }
    rewrite (fold_register_rows _ _ _ _ Hg).
    cbn [group_text group_fields app]. do 2 f_equal. unfold field_rows.
    rewrite <- Hfst, <- (decorate_fst question l), Ed. reflexivity.
Qed.

(** X9.  [add_question] on a question none of whose fields is in the form yet: the
    fields of the form are the former ones followed by one field
    ["question_<q>_<g>"] for each answer group [g], in ascending order of [g];
    and if the question had no entry in [answer_groups], its entry now holds
    the text of the question and exactly these identifiers, in that order,
    with the prefix and suffix of each group. *)
Theorem add_question_field_names (w : World) (question : Question)
    (data : option (odict string FieldValue)) :
  fst (add_question question data w) = Ok tt ->
  NoDup (map ag_pk (q_answer_groups question)) ->
  Forall (fun idf => od_get idf (fields (self w)) = None) (field_ids question) ->
  let f' := self (snd (add_question question data w)) in
  (fields f').*1 = (fields (self w)).*1 ++ field_ids question
  /\ (q_answer_groups question <> [] ->
      od_get (question_id (q_pk question)) (answer_groups (self w)) = None ->
      od_get (question_id (q_pk question)) (answer_groups f')
      = Some {| group_text := q_text question; group_fields := field_rows question |}).
Proof. apply add_question_names. Qed.

End add_question_fields.

Section add_question_examples.
Import Sample.
#[local] Existing Instances comma_settings ascii_text lcg nulls_last.

Lemma add_question_data_type_error_witness :
  let w := world (args ALL_IN_ONE_PAGE true None) None schema in
  fst (add_question q17 (Some [("question_17", VStr "red")]) w) = Raise TypeError.
Proof.
  intros w.
  refine (proj1 (add_question_data_type_error w q17 [("question_17", VStr "red")]
                   (VStr "red") _ _ _ _ _)); try done.
Defined.

Lemma add_question_field_names_witness :
  let w := world (args ALL_IN_ONE_PAGE true None) None schema in
  (fields (self (snd (add_question q17 None w)))).*1
  = ["question_17_42"; "question_17_43"].
Proof.
  intros w.
  refine (proj1 (add_question_field_names w q17 None _ _ _)).
  - vm_compute. reflexivity.
  - cbn. repeat constructor; type_cases.
  - repeat constructor.
Defined.

End add_question_examples.

(** ** The constructor *)

Section init_facts.
Context `{Settings, Text, Random, Database}.

(** The first lookup of the response of a form. *)
Lemma get_preexisting_response_fresh (w : World) (r : Response) :
  (forall r', response (self w) <> CSome r') ->
  is_authenticated (user (self w)) = true ->
  Response_get (user (self w)) (survey (self w)) (store w) = Ok r ->
  _get_preexisting_response w
  = (Ok (Some r), with_self (with_response (CSome r) (self w)) w).
Proof.
  intros Hc Hauth Hget. unfold _get_preexisting_response, bind at 1. cbn [get_self].
  destruct (response (self w)) as [| |c] eqn:E; [| |by destruct (Hc c)].
  all: rewrite Hauth; cbn [negb]; unfold bind at 1; cbn [get_store]; by rewrite Hget.
Qed.


Lemma init_questions_unfold data (w : World) :
  init_questions data w
  = (let '(r, w1) := _get_preexisting_response w in
     match r with
     | Raise e => (Raise e, w1)
     | Ok r =>
         let w2 := match r with
                   | Some r =>
                       with_self (with_seed_extra (response_random_seed r)
                                    (response_extra r) (self w1)) w1
                   | None => w1
                   end in
         let '(r3, w3) := add_questions data w2 in
         match r3 with
         | Raise e => (Raise e, w3)
         | Ok _ =>
             (Ok tt,
              if negb (editable_answers (survey (self w3)))
                 && is_not_None (response (self w3))
              then with_self (disable_all (self w3)) w3 else w3)
         end
     end).
Proof.
  unfold init_questions, bind at 1.
  destruct (_get_preexisting_response w) as [[r|e] w1]; [|done].
  unfold bind at 1.
  assert (E : (match r with
               | Some r => modify_self (with_seed_extra (response_random_seed r)
                                          (response_extra r))
               | None => ret tt
               end) w1
              = (Ok tt, match r with
                        | Some r =>
                            with_self (with_seed_extra (response_random_seed r)
                                         (response_extra r) (self w1)) w1
                        | None => w1
                        end)) by by destruct r.
  rewrite E. cbv zeta. unfold bind at 1.
  destruct (add_questions data _) as [[[]|e] w3]; [|done].
  unfold bind, get_self. by destruct (negb _ && _).
Qed.

(** What [__init__] does, once the keywords are read. *)
Lemma init_unfold (a : InitArgs) st g out (w : World) :
  __init__ a st g out = Ok w ->
  exists f0 g0,
    init_attributes a g = Ok (f0, g0)
    /\ survey f0 = arg_survey a /\ user f0 = arg_user a
    /\ extra f0 = default "" (arg_extra a)
    /\ response f0 = Unset /\ fields f0 = [] /\ answer_groups f0 = []
    /\ init_questions (arg_data a)
         {| self := f0; store := st; generator := g0; sent := out |}
       = (Ok tt, w).
Proof.
  unfold __init__. destruct (init_attributes a g) as [[f0 g0]|e] eqn:E; [|done].
  destruct (init_questions _ _) as [[[]|e] w'] eqn:Eq; [|done].
  intros [= ->]. exists f0, g0. split; [done|].
  unfold init_attributes in E. destruct (init_step _); [|done].
  destruct (match arg_seed a with Some _ => _ | None => _ end) as [z g'].
  injection E as <- <-. by split_and!.
Qed.

Lemma seed_and_response_stay_refl f : seed_and_response_stay f f.
Proof. split; [by split_and! | by intros r Hr]. Qed.

Lemma seed_and_response_stay_trans f1 f2 f3 :
  seed_and_response_stay f1 f2 -> seed_and_response_stay f2 f3 ->
  seed_and_response_stay f1 f3.
Proof.
  intros [(? & ? & ?) H12] [(? & ? & ?) H23]. split.
  - split_and!; congruence.
  - intros r Hr. by apply H23, H12.
Qed.

(** The lookup changes nothing of the form but the cached response, and
    never replaces a cached response. *)
Lemma get_preexisting_response_self (w : World) :
  exists c,
    self (snd (_get_preexisting_response w)) = with_response c (self w)
    /\ (forall r, response (self w) = CSome r -> c = CSome r).
Proof.
  unfold _get_preexisting_response, bind at 1. cbn [get_self].
  destruct (response (self w)) as [| |c] eqn:E.
  3:{ exists (CSome c). split; [|done]. cbn. by rewrite <- E, with_response_same. }
  all: destruct (is_authenticated (user (self w))); cbn [negb];
    [|by exists CNone].
  all: unfold bind at 1; cbn [get_store].
  all: destruct (Response_get _ _ _) as [r|[]];
    first [by exists (CSome r) | by exists CNone | idtac].
  all: exists (response (self w)); rewrite with_response_same; cbn; by rewrite E.
Qed.

Lemma seed_and_response_stay_lookup :
  keeps (on_self seed_and_response_stay) _get_preexisting_response.
Proof.
  intros w. unfold on_self.
  destruct (get_preexisting_response_self w) as (c & -> & Hc).
  split; [by split_and!|]. intros r Hr. cbn. by apply Hc.
Qed.

Lemma seed_and_response_stay_add_questions data :
  keeps (on_self seed_and_response_stay) (add_questions data).
Proof.
  apply on_self_add_questions;
    [apply seed_and_response_stay_refl | apply seed_and_response_stay_trans
    | apply seed_and_response_stay_lookup | |].
  - intros a f. split; [by split_and! | by intros r Hr].
  - intros q ag fld f _. destruct (decorate q (ag, fld)) as [ag' fld'].
    split; [by split_and! | by intros r Hr].
Qed.

(** X10.  A form constructed for a logged-in user whose response to the survey
    is stored takes up that response: it caches it, and replaces the seed and
    the passthrough string given to the constructor by the stored ones (lines
    75-78). *)
Theorem init_resumes_response (a : InitArgs) (st : Store) (g : rng)
    (out : list Signal) (w : World) (r : Response) :
  __init__ a st g out = Ok w ->
  is_authenticated (arg_user a) = true ->
  Response_get (arg_user a) (arg_survey a) st = Ok r ->
  response (self w) = CSome r
  /\ random_seed (self w) = response_random_seed r
  /\ extra (self w) = response_extra r.
Proof.
  intros (f0 & g0 & _ & Hs & Hu & _ & Hr & _ & _ & Hq)%init_unfold Hauth Hget.
  rewrite init_questions_unfold in Hq.
  rewrite (get_preexisting_response_fresh _ r) in Hq; cbn [self store];
    [| by rewrite Hr | by rewrite Hu | by rewrite Hs, Hu].
  cbv zeta in Hq.
  match type of Hq with
  | context [add_questions ?d ?w2] =>
      pose proof (seed_and_response_stay_add_questions d w2) as [(Hseed & Hextra & _) Hstay];
      destruct (add_questions d w2) as [[[]|e] w3]; [|done]
  end.
  cbn [snd with_self self with_seed_extra random_seed extra response with_response] in *.
  specialize (Hstay r eq_refl). injection Hq as <-.
  destruct (negb _ && _); cbn; by rewrite ?Hstay, ?Hseed, ?Hextra.
Qed.


End init_facts.

Section init_examples.
Import Sample.
#[local] Existing Instances comma_settings ascii_text lcg nulls_last.

Lemma init_resumes_response_witness :
  let a := {| arg_survey := survey_with ALL_IN_ONE_PAGE true; arg_user := alice;
              arg_extra := Some "ref=mail"; arg_step := None;
              arg_seed := Some (VInt 99); arg_data := None; arg_uuid := "u" |} in
  let st := store_with [] in
  random_seed (self (built (__init__ a st 0 []) (world a None st))) = 5.
Proof.
  intros a st.
  refine (proj1 (proj2 (init_resumes_response a st 0 [] _ alice_response _ _ _))).
  - vm_compute. reflexivity.
  - reflexivity.
  - reflexivity.
Defined.


End init_examples.

Lemma Forall_od_set {K V} `{EqDecision K} (P : K * V -> Prop) k v (d : odict K V) :
  Forall P d -> P (k, v) -> Forall P (od_set k v d).
Proof.
  intros Hd Hv. induction d as [|[k' v'] d IH]; cbn [od_set].
  - by constructor.
  - apply Forall_cons in Hd as [Hx Hd].
    destruct (decide (k' = k)) as [->|]; constructor; auto.
Qed.

Section init_fields.
Context `{Settings, Text, Random, Database}.

Lemma stay_enabled_refl f : stay_enabled f f.
Proof. by intros Hf. Qed.

Lemma stay_enabled_trans f1 f2 f3 :
  stay_enabled f1 f2 -> stay_enabled f2 f3 -> stay_enabled f1 f3.
Proof. intros H12 H23 Hf. by apply H23, H12. Qed.

Lemma stay_enabled_lookup : keeps (on_self stay_enabled) _get_preexisting_response.
Proof.
  intros w. unfold on_self.
  destruct (get_preexisting_response_self w) as (c & -> & _).
  intros Hf. exact Hf.
Qed.

Lemma decorate_enabled q ag fld :
  attrs fld = ∅ -> attrs (decorate q (ag, fld)).2 !! "disabled" = None.
Proof.
  intros Hfld. unfold decorate. cbn [snd].
  destruct (decide (ag_type ag = DATE)); cbn [set_attr attrs];
    rewrite ?lookup_insert_ne, Hfld by done; apply lookup_empty.
Qed.

Lemma stay_enabled_add_questions data :
  keeps (on_self stay_enabled) (add_questions data).
Proof.
  apply on_self_add_questions;
    [apply stay_enabled_refl | apply stay_enabled_trans | apply stay_enabled_lookup | |].
  - intros a f Hf. exact Hf.
  - intros q ag fld f Hfld Hf.
    pose proof (decorate_enabled q ag fld Hfld) as Hd.
    destruct (decorate q (ag, fld)) as [ag' fld'].
    unfold no_field_disabled. cbn [register_field with_fields fields].
    by apply Forall_od_set.
Qed.

Lemma disable_all_disabled f : all_fields_disabled (disable_all f).
Proof.
  unfold all_fields_disabled, disable_all. cbn [with_fields fields].
  induction (fields f) as [|[name fld] l IH]; constructor; [|done].
  cbn. apply lookup_insert_eq.
Qed.

(** X12.  Locking (lines 82-84).  When the answers of the survey cannot be
    edited and the store holds the response of the logged-in user, every
    field of the constructed form is disabled; when the answers can be
    edited, no field of the constructed form is. *)
Theorem init_locks_fields (a : InitArgs) (st : Store) (g : rng)
    (out : list Signal) (w : World) :
  __init__ a st g out = Ok w ->
  (editable_answers (arg_survey a) = false ->
   is_authenticated (arg_user a) = true ->
   is_ok (Response_get (arg_user a) (arg_survey a) st) = true ->
   all_fields_disabled (self w))
  /\ (editable_answers (arg_survey a) = true -> no_field_disabled (self w)).
Proof.
  intros (f0 & g0 & _ & Hs & Hu & _ & Hr & Hf & _ & Hq)%init_unfold.
  rewrite init_questions_unfold in Hq. split.
  - intros Hlock Hauth Hget.
    destruct (Response_get (arg_user a) (arg_survey a) st) as [r|] eqn:Er; [|done].
    rewrite (get_preexisting_response_fresh _ r) in Hq; cbn [self store];
      [| by rewrite Hr | by rewrite Hu | by rewrite Hs, Hu].
    cbv zeta in Hq.
    match type of Hq with
    | context [add_questions ?d ?w2] =>
        pose proof (seed_and_response_stay_add_questions d w2) as [_ Hstay];
        pose proof (frame_add_questions d w2) as (Hsurvey & _);
        destruct (add_questions d w2) as [[[]|e] w3]; [|done]
    end.
    cbn [snd with_self self with_seed_extra response with_response survey] in *.
    rewrite Hsurvey, Hs, Hlock, (Hstay r eq_refl) in Hq. injection Hq as <-.
    apply disable_all_disabled.
  - intros Hedit.
    destruct (get_preexisting_response_self
                {| self := f0; store := st; generator := g0; sent := out |})
      as (c & Hself & _).
    pose proof (frame_get_preexisting_response
                  {| self := f0; store := st; generator := g0; sent := out |})
      as (Hsurvey1 & _).
    destruct (_get_preexisting_response _) as [[r|e] w1]; [|done].
    cbv zeta in Hq. cbn [snd self] in Hself, Hsurvey1.
    match type of Hq with
    | context [add_questions ?d ?w2] =>
        pose proof (stay_enabled_add_questions d w2) as Hstay;
        pose proof (frame_add_questions d w2) as (Hsurvey & _);
        destruct (add_questions d w2) as [[[]|e] w3]; [|done]
    end.
    unfold on_self in Hstay. cbn [snd] in Hstay, Hsurvey.
    assert (Hw3 : no_field_disabled (self w3)).
    { apply Hstay. unfold no_field_disabled.
      destruct r; cbn [with_self self with_seed_extra fields];
        rewrite Hself; cbn [with_response fields]; rewrite Hf; constructor. }
    assert (Hs3 : survey (self w3) = arg_survey a).
    { rewrite Hsurvey. destruct r; cbn [with_self self with_seed_extra survey];
        by rewrite Hsurvey1. }
    rewrite Hs3, Hedit in Hq. by injection Hq as <-.
Qed.

Lemma looks_up_refl (w : World) : looks_up w w.
Proof. split_and!; try done. intros r Hr. by left. Qed.

Lemma looks_up_trans (w1 w2 w3 : World) :
  looks_up w1 w2 -> looks_up w2 w3 -> looks_up w1 w3.
Proof.
  intros (Hst & Hsent & Hs & Hu & H12) (Hst' & Hsent' & Hs' & Hu' & H23).
  split_and!; try congruence.
  intros r Hr. destruct (H23 r Hr) as [Hc|Hget]; [by apply H12|].
  right. by rewrite <- Hu, <- Hs, <- Hst.
Qed.

Lemma looks_up_with_self (w : World) (f : ResponseForm) :
  survey f = survey (self w) -> user f = user (self w) ->
  response f = response (self w) ->
  looks_up w (with_self f w).
Proof.
  intros Hs Hu Hr. split_and!; try done. intros r. cbn. rewrite Hr. by left.
Qed.

Lemma looks_up_lookup : keeps looks_up _get_preexisting_response.
Proof.
  intros w. unfold _get_preexisting_response, bind at 1. cbn [get_self].
  destruct (response (self w)) as [| |c] eqn:E; [| |apply looks_up_refl].
  all: destruct (is_authenticated (user (self w))); cbn [negb];
    [|split_and!; try done; cbn; by intros r [=]].
  all: unfold bind at 1; cbn [get_store].
  all: destruct (Response_get _ _ _) as [r|[]] eqn:Eg;
    first [apply looks_up_refl | idtac].
  all: split_and!; try done; cbn; intros r' [=]; subst; by right.
Qed.

Lemma looks_up_add_questions data : keeps looks_up (add_questions data).
Proof.
  apply keeps_add_questions;
    [apply looks_up_refl | apply looks_up_trans | apply looks_up_lookup | | |].
  - intros a w. by apply looks_up_with_self.
  - intros g w. split_and!; try done. intros r Hr. by left.
  - intros q ag fld w _. destruct (decorate q (ag, fld)) as [ag' fld'].
    by apply looks_up_with_self.
Qed.

Lemma looks_up_init_questions data : keeps looks_up (init_questions data).
Proof.
  pose proof looks_up_refl. pose proof looks_up_trans.
  pose proof looks_up_lookup. pose proof (looks_up_add_questions data).
  unfold init_questions. keeps; by apply looks_up_with_self.
Qed.

(** X13.  Constructing a form reads the store and writes nothing: the store
    and the signals sent are as before; and the response the form has cached,
    if any, is the one the store holds for its user and survey. *)
Theorem init_reads_only (a : InitArgs) (st : Store) (g : rng)
    (out : list Signal) (w : World) :
  __init__ a st g out = Ok w ->
  store w = st /\ sent w = out /\ cache_in_sync w.
Proof.
  intros (f0 & g0 & _ & _ & _ & _ & Hr & _ & _ & Hq)%init_unfold.
  pose proof (looks_up_init_questions (arg_data a)
                {| self := f0; store := st; generator := g0; sent := out |})
    as (Hst & Hsent & Hs & Hu & Hc).
  rewrite Hq in *. cbn [snd self store sent] in *. split_and!; [done..|].
  intros r Hw. destruct (Hc r Hw) as [Hf0|Hget]; [by rewrite Hr in Hf0|].
  by rewrite Hs, Hu, Hst.
Qed.

Lemma stay_grouped_refl f : stay_grouped f f.
Proof. by intros Hf. Qed.

Lemma stay_grouped_trans f1 f2 f3 :
  stay_grouped f1 f2 -> stay_grouped f2 f3 -> stay_grouped f1 f3.
Proof. intros H12 H23 Hf. by apply H23, H12. Qed.

Lemma stay_grouped_lookup : keeps (on_self stay_grouped) _get_preexisting_response.
Proof.
  intros w. unfold on_self.
  destruct (get_preexisting_response_self w) as (c & -> & _).
  intros Hf. exact Hf.
Qed.

Lemma register_field_grouped q agf f :
  grouped_fields_exist f -> grouped_fields_exist (register_field q agf f).
Proof.
  intros Hf. destruct agf as [ag fld]. unfold register_field.
  set (idf := field_id (q_pk q) (ag_pk ag)).
  set (idq := question_id (q_pk q)).
  set (gs0 := if od_mem idq (answer_groups f) then answer_groups f
              else od_set idq {| group_text := q_text q; group_fields := [] |}
                     (answer_groups f)).
  assert (Hold : forall idq' g idf' p s,
             (idq', g) ∈ gs0 -> (idf', p, s) ∈ group_fields g ->
             od_mem idf' (od_set idf fld (fields f)) = true).
  { intros idq' g idf' p s Hg Hrow. rewrite od_mem_od_set.
    apply orb_true_iff. right. subst gs0.
    destruct (od_mem idq (answer_groups f)); [by eapply Hf|].
    apply elem_of_od_set in Hg as [Hg|[= -> ->]]; [by eapply Hf|].
    by apply elem_of_nil in Hrow. }
  cbv zeta. intros idq' g idf' p s. cbn [with_fields answer_groups fields].
  fold idq idf gs0.
  destruct (od_get idq gs0) as [g0|] eqn:Eg0; [|apply Hold].
  intros [Hg|[= -> ->]]%elem_of_od_set; [by apply (Hold idq' g)|].
  cbn [group_fields]. intros [Hrow|Hrow]%elem_of_app.
  - apply od_get_elem_of in Eg0. by apply (Hold idq g0 idf' p s).
  - apply list_elem_of_singleton in Hrow. injection Hrow as -> _ _.
    rewrite od_mem_od_set. by rewrite bool_decide_true.
Qed.

Lemma stay_grouped_add_questions data :
  keeps (on_self stay_grouped) (add_questions data).
Proof.
  apply on_self_add_questions;
    [apply stay_grouped_refl | apply stay_grouped_trans | apply stay_grouped_lookup | |].
  - intros a f Hf. exact Hf.
  - intros q ag fld f _ Hf. by apply register_field_grouped.
Qed.

Lemma disable_all_grouped f :
  grouped_fields_exist f -> grouped_fields_exist (disable_all f).
Proof.
  intros Hf idq g idf p s Hg Hrow. specialize (Hf idq g idf p s Hg Hrow).
  unfold od_mem, disable_all in *. cbn [with_fields fields].
  rewrite (od_get_fmap (set_attr "disabled" ATrue)).
  by destruct (od_get idf (fields f)).
Qed.

Lemma groups_by_question_is_ok f :
  grouped_fields_exist f -> is_ok (groups_by_question f) = true.
Proof.
  intros Hf. unfold groups_by_question. apply mapM_is_ok, Forall_forall.
  intros [idq g] Hg.
  assert (Hrows : is_ok (mapM (fun '(k, p, s) =>
                                 match od_get k (fields f) with
                                 | Some field => Ok (field, p, s)
                                 | None => Raise KeyError
                                 end) (group_fields g)) = true).
  { apply mapM_is_ok, Forall_forall. intros [[idf p] s] Hrow.
    specialize (Hf idq g idf p s Hg Hrow). unfold od_mem in Hf.
    by destruct (od_get idf (fields f)). }
  by destruct (mapM _ (group_fields g)).
Qed.

(** X14.  On a constructed form [groups_by_question] never fails: every field
    named in [answer_groups] is a field of the form, so that [self[k]] of
    line 395 finds it; and it gives one entry for each question of the form,
    in order, under the text of the question. *)
Theorem groups_by_question_total (a : InitArgs) (st : Store) (g : rng)
    (out : list Signal) (w : World) :
  __init__ a st g out = Ok w ->
  grouped_fields_exist (self w)
  /\ exists l, groups_by_question (self w) = Ok l
               /\ l.*1 = map (fun p => group_text p.2) (answer_groups (self w)).
Proof.
  intros (f0 & g0 & _ & _ & _ & _ & _ & _ & Hg0 & Hq)%init_unfold.
  assert (Hw : grouped_fields_exist (self w)).
  { rewrite init_questions_unfold in Hq.
    destruct (get_preexisting_response_self
                {| self := f0; store := st; generator := g0; sent := out |})
      as (c & Hself & _).
    destruct (_get_preexisting_response _) as [[r|e] w1]; [|done].
    cbv zeta in Hq. cbn [snd self] in Hself.
    match type of Hq with
    | context [add_questions ?d ?w2] =>
        pose proof (stay_grouped_add_questions d w2) as Hstay;
        destruct (add_questions d w2) as [[[]|e] w3]; [|done]
    end.
    unfold on_self in Hstay. cbn [snd] in Hstay.
    assert (Hw3 : grouped_fields_exist (self w3)).
    { apply Hstay. intros idq gr idf p s Hgr.
      assert (Hnil : answer_groups (self w1) = []) by by rewrite Hself.
      destruct r; cbn [with_self self with_seed_extra answer_groups] in Hgr;
        rewrite Hnil in Hgr; by apply elem_of_nil in Hgr. }
    injection Hq as <-. destruct (negb _ && _); [|done].
    by apply disable_all_grouped. }
  split; [done|].
  pose proof (groups_by_question_is_ok _ Hw) as Hok.
  destruct (groups_by_question (self w)) as [l|e] eqn:El; [|done].
  exists l. split; [done|]. unfold groups_by_question in El.
  apply mapM_Forall2 in El. clear Hok.
  induction El as [|[idq gr] b l1 l2 Hab _ IH]; [done|]. cbn. rewrite IH. f_equal.
  destruct (mapM _ (group_fields gr)); [|done]. by injection Hab as <-.
Qed.

End init_fields.

Section init_fields_examples.
Import Sample.
#[local] Existing Instances comma_settings ascii_text lcg nulls_last.

Lemma init_locks_fields_witness :
  let a := args ALL_IN_ONE_PAGE false None in
  let st := store_with [] in
  let w := built (__init__ a st 0 []) (world a None st) in
  all_fields_disabled (self w).
Proof.
  intros a st w.
  refine (proj1 (@init_locks_fields comma_settings ascii_text lcg nulls_last
                   a st (0 : Z) [] w _) _ _ _).
  - vm_compute. reflexivity.
  - reflexivity.
  - reflexivity.
  - reflexivity.
Defined.

Lemma init_reads_only_witness :
  let a := args ALL_IN_ONE_PAGE false None in
  let st := store_with [] in
  let w := built (__init__ a st 0 []) (world a None st) in
  store w = st /\ sent w = [] /\ cache_in_sync w.
Proof.
  intros a st w.
  apply (@init_reads_only comma_settings ascii_text lcg nulls_last a st (0 : Z) [] w).
  vm_compute. reflexivity.
Defined.

Lemma groups_by_question_total_witness :
  let a := args BY_CATEGORY true (Some (VInt 0)) in
  let w := built (__init__ a schema 0 []) (world a (Some 0) schema) in
  is_ok (groups_by_question (self w)) = true.
Proof.
  intros a w.
  destruct (@groups_by_question_total comma_settings ascii_text lcg nulls_last
              a schema (0 : Z) [] w) as (_ & l & Hl & _).
  - vm_compute. reflexivity.
  - by rewrite Hl.
Defined.

End init_fields_examples.

(** ** Saving *)

Section save_facts.
Context `{Settings, Text, Random, Database}.

Lemma save_unfold (w : World) :
  save w
  = (let '(pre, w0) := _get_preexisting_response w in
     match pre with
     | Raise e => (Raise e, w0)
     | Ok pre =>
         if negb (editable_answers (survey (self w0))) && bool_decide (is_Some pre)
         then (Ok None, w0)
         else
           let '(r, st') := Response_save (stamped (self w0) pre) (store w0) in
           let w1 := {| self := match pre with
                                | Some _ => with_response (CSome r) (self w0)
                                | None => self w0
                                end;
                        store := st'; generator := generator w0; sent := sent w0 |} in
           let '(l, w2) := save_answers r (cleaned_data (self w0)) [] w1 in
           match l with
           | Raise e => (Raise e, w2)
           | Ok l => (Ok (Some r), with_sent (completed r l) w2)
           end
     end).
Proof.
  unfold save, bind at 1.
  destruct (_get_preexisting_response w) as [[pre|e] w0]; [|done].
  unfold bind at 1. cbn [get_self].
  destruct (negb _ && _); [done|].
  fold (stamped (self w0) pre).
  unfold bind at 1. cbn [get_store].
  destruct (Response_save _ _) as [r st'].
  unfold bind at 1. cbn [modify_store].
  unfold bind at 1.
  assert (E : forall w' : World,
             (match pre with
              | Some _ => modify_self (with_response (CSome r))
              | None => ret tt
              end) w'
             = (Ok tt, with_self (match pre with
                                  | Some _ => with_response (CSome r) (self w')
                                  | None => self w'
                                  end) w')).
  { intros w'. destruct pre; [done|]. by destruct w'. }
  rewrite E. cbn [with_self self store generator sent].
  unfold bind at 1.
  destruct (save_answers _ _ _ _) as [[l|e] w2]; [|done].
  reflexivity.
Qed.

Lemma writes_answers_only_refl (w : World) : writes_answers_only w w.
Proof. by split_and!. Qed.

Lemma writes_answers_only_trans (w1 w2 w3 : World) :
  writes_answers_only w1 w2 -> writes_answers_only w2 w3 ->
  writes_answers_only w1 w3.
Proof.
  intros (? & ? & ? & ? & ? & ?) (? & ? & ? & ? & ? & ?). split_and!; congruence.
Qed.

Lemma writes_answers_only_read (w w' : World) :
  store w' = store w -> sent w' = sent w -> generator w' = generator w ->
  writes_answers_only w w'.
Proof. intros Hst Hs Hg. unfold writes_answers_only. by rewrite Hst, Hs, Hg. Qed.

Lemma writes_answers_only_response :
  keeps writes_answers_only _get_preexisting_response.
Proof.
  intros w. apply writes_answers_only_read.
  - apply read_only_get_preexisting_response.
  - apply read_only_get_preexisting_response.
  - unfold _get_preexisting_response, bind, get_self, get_store, modify_self, ret, lift.
    destruct (response (self w)); try done;
      destruct (negb _); try done; by destruct (Response_get _ _ _) as [|[]].
Qed.

Lemma writes_answers_only_cache a (w : World) :
  writes_answers_only w (with_self (with_answers a (self w)) w).
Proof. by apply writes_answers_only_read. Qed.

Lemma Answer_save_responses (a : Answer) (st : Store) :
  Response_objects (snd (Answer_save a st)) = Response_objects st
  /\ next_response_pk (snd (Answer_save a st)) = next_response_pk st
  /\ Question_objects (snd (Answer_save a st)) = Question_objects st
  /\ AnswerGroup_objects (snd (Answer_save a st)) = AnswerGroup_objects st.
Proof.
  unfold Answer_save. destruct (answer_pk a); [|done]. by destruct (has_row _ _ _).
Qed.

(** One item of [cleaned_data]: the responses and the signals are left alone,
    and the pair that goes to the signal carries the submitted value. *)
Lemma save_answer_effect (response : Response) (name : string) (v : FieldValue)
    (w : World) :
  writes_answers_only w (snd (save_answer response name v w))
  /\ (forall o, fst (save_answer response name v w) = Ok o ->
      snd <$> o = if is_question_field (name, v) then Some v else None).
Proof.
  remember (save_answer response name v w) as p eqn:E.
  unfold save_answer in E. unfold is_question_field. cbn [fst].
  destruct (Str.startswith name "question_");
    [|subst p; split; [apply writes_answers_only_refl | by intros o [= <-]]].
  unfold bind at 1, lift at 1 in E.
  destruct (Str.split "_" name) as [parts|e];
    [|subst p; split; [apply writes_answers_only_refl | by intros o [=]]].
  unfold bind at 1, lift at 1 in E.
  destruct (rbind (index parts 1) int_of_str) as [q_id|e];
    [|subst p; split; [apply writes_answers_only_refl | by intros o [=]]].
  unfold bind at 1, lift at 1 in E.
  destruct (rbind (index parts 2) int_of_str) as [ag_id|e];
    [|subst p; split; [apply writes_answers_only_refl | by intros o [=]]].
  unfold bind at 1 in E. cbn [get_store] in E.
  unfold bind at 1, lift at 1 in E.
  destruct (Question_get q_id (store w)) as [question|e];
    [|subst p; split; [apply writes_answers_only_refl | by intros o [=]]].
  unfold bind at 1, lift at 1 in E.
  destruct (AnswerGroup_get ag_id (store w)) as [ag|e];
    [|subst p; split; [apply writes_answers_only_refl | by intros o [=]]].
  unfold bind at 1 in E.
  pose proof (keeps_get_preexisting_answer _ writes_answers_only_refl
                writes_answers_only_trans writes_answers_only_response
                writes_answers_only_cache question ag w) as Hprior.
  destruct (_get_preexisting_answer question ag w) as [[prior|e] w1];
    cbn [snd] in Hprior; [|subst p; split; [exact Hprior | by intros o [=]]].
  unfold bind, lift, ret, get_store, modify_store, modify_self in E.
  assert (Himg : forall (b : bool) (x : result (string * string)),
             (if b then
                match x with Ok _ => (Ok tt, w1) | Raise e => (Raise e, w1) end
              else (Ok tt, w1))
             = ((if b then match x with Ok _ => Ok tt | Raise e => Raise e end
                 else Ok tt), w1)).
  { intros [] x; [by destruct x | done]. }
  destruct (decide (ag_type ag = SELECT_IMAGE)) as [Hi|Hi].
  - destruct (split_image_value v) as [pair|e];
      [|subst p; split; [exact Hprior | by intros o [=]]].
    match type of E with
    | context [Answer_save ?a ?st] =>
        pose proof (Answer_save_fst a st) as (_ & _ & _ & Hbody);
        pose proof (Answer_save_responses a st) as (Hr1 & Hr2 & Hr3 & Hr4);
        destruct (Answer_save a st) as [answer st']
    end.
    cbn [fst snd body] in *.
    assert (Hw : forall f, writes_answers_only w
                   {| self := f; store := st'; generator := generator w1;
                      sent := sent w1 |}).
    { intros f. eapply writes_answers_only_trans; [exact Hprior|].
      by split_and!. }
    destruct (bool_decide (is_Some prior)); subst p; cbn [fst snd];
      (split; [apply Hw | intros o [= <-]; cbn; by rewrite Hbody]).
  - match type of E with
    | context [Answer_save ?a ?st] =>
        pose proof (Answer_save_fst a st) as (_ & _ & _ & Hbody);
        pose proof (Answer_save_responses a st) as (Hr1 & Hr2 & Hr3 & Hr4);
        destruct (Answer_save a st) as [answer st']
    end.
    cbn [fst snd body] in *.
    assert (Hw : forall f, writes_answers_only w
                   {| self := f; store := st'; generator := generator w1;
                      sent := sent w1 |}).
    { intros f. eapply writes_answers_only_trans; [exact Hprior|].
      by split_and!. }
    destruct (bool_decide (is_Some prior)); subst p; cbn [fst snd];
      (split; [apply Hw | intros o [= <-]; cbn; by rewrite Hbody]).
Qed.

Lemma save_answers_effect (response : Response) (items : odict string FieldValue)
    (acc : list (Z * FieldValue)) (w : World) :
  writes_answers_only w (snd (save_answers response items acc w))
  /\ (forall l, fst (save_answers response items acc w) = Ok l ->
      l.*2 = acc.*2 ++ (question_items items).*2).
Proof.
  revert acc w. induction items as [|[name v] items IH]; intros acc w.
  - cbn. split; [apply writes_answers_only_refl|]. intros l [= <-].
    by rewrite app_nil_r.
  - cbn [save_answers]. unfold bind.
    destruct (save_answer_effect response name v w) as [Hw Ho].
    destruct (save_answer response name v w) as [[o|e] w1]; cbn [fst snd] in *;
      [|split; [exact Hw | by intros l [=]]].
    specialize (Ho o eq_refl).
    match goal with
    | |- context [save_answers response items ?acc' w1] =>
        destruct (IH acc' w1) as [Hw' Hl]
    end.
    split; [by eapply writes_answers_only_trans|].
    intros l Hok. rewrite (Hl l Hok).
    unfold question_items. cbn [List.filter].
    destruct (is_question_field (name, v)).
    + destruct o as [[z v']|]; [|done].
      injection Ho as ->. rewrite fmap_app, fmap_cons. cbn.
      by rewrite <- app_assoc.
    + by destruct o.
Qed.

Lemma Response_save_fst (r : Response) (st : Store) :
  response_survey (fst (Response_save r st)) = response_survey r
  /\ response_user (fst (Response_save r st)) = response_user r
  /\ interview_uuid (fst (Response_save r st)) = interview_uuid r
  /\ response_random_seed (fst (Response_save r st)) = response_random_seed r
  /\ response_extra (fst (Response_save r st)) = response_extra r.
Proof.
  unfold Response_save. destruct (response_pk r); [|done].
  by destruct (has_row _ _ _).
Qed.

(** X15.  The signal of [save].  When [save] returns a response, exactly one
    signal has been sent, after everything before: it carries that response,
    the identifier of the survey, the identifier of the interview, and one
    pair for each item of [cleaned_data] whose name starts with [question_],
    in the order of the form, with the submitted value.  When [save] returns
    [None] or raises, nothing is sent. *)
Theorem save_signal (w : World) :
  match fst (save w) with
  | Ok (Some r) =>
      exists l,
        sent (snd (save w))
        = sent w ++ [{| signal_instance := r;
                        signal_survey_id := survey_id (survey (self w));
                        signal_interview_uuid := uuid (self w);
                        signal_responses := l |}]
        /\ l.*2 = (question_items (cleaned_data (self w))).*2
  | _ => sent (snd (save w)) = sent w
  end.
Proof.
  rewrite save_unfold.
  pose proof (read_only_get_preexisting_response w) as [_ Hsent].
  destruct (get_preexisting_response_self w) as (c & Hself & _).
  destruct (_get_preexisting_response w) as [[pre|e] w0]; cbn [fst snd] in *;
    [|done].
  destruct (negb _ && _); [done|].
  pose proof (Response_save_fst (stamped (self w0) pre) (store w0))
    as (Hsurvey & _ & Huuid & _).
  destruct (Response_save _ _) as [r st']. cbn [fst] in Hsurvey, Huuid.
  cbv zeta.
  match goal with
  | |- context [save_answers r ?items ?acc ?w1] =>
      destruct (save_answers_effect r items acc w1) as [(_ & _ & _ & _ & Hs & _) Hl];
      destruct (save_answers r items acc w1) as [[l|e] w2]
  end; cbn [fst snd sent with_sent] in *; [|congruence].
  exists l. split.
  - rewrite Hs, Hsent. unfold completed. rewrite Hsurvey, Huuid.
    cbn [stamped response_survey interview_uuid]. by rewrite Hself.
  - rewrite (Hl l eq_refl). by rewrite Hself.
Qed.

(** What the lookup of [save] returns, when the cache of the form agrees with
    the store. *)
Lemma lookup_in_sync (w : World) (pre : option Response) :
  cache_in_sync w ->
  fst (_get_preexisting_response w) = Ok pre ->
  match pre with
  | Some r0 => Response_get (user (self w)) (survey (self w)) (store w) = Ok r0
  | None =>
      is_authenticated (user (self w)) = true ->
      Response_get (user (self w)) (survey (self w)) (store w) = Raise DoesNotExist
  end.
Proof.
  intros Hsync. unfold _get_preexisting_response, bind at 1. cbn [get_self].
  specialize (Hsync).
  destruct (response (self w)) as [| |c] eqn:E.
  3:{ intros [= <-]. by apply Hsync. }
  all: destruct (is_authenticated (user (self w))); cbn [negb];
    [|by intros [= <-]].
  all: unfold bind at 1; cbn [get_store].
  all: destruct (Response_get _ _ _) as [r|[]]; cbn; intros [= <-]; done.
Qed.

Lemma Response_get_responses_of (u : User) (s : Survey) (st : Store) :
  Response_get u s st
  = match responses_of u s (Response_objects st) with
    | [] => Raise DoesNotExist
    | [r] => Ok r
    | _ => Raise MultipleObjectsReturned
    end.
Proof. reflexivity. Qed.

Lemma Response_get_Ok (u : User) (s : Survey) (st : Store) (r : Response) :
  Response_get u s st = Ok r <-> responses_of u s (Response_objects st) = [r].
Proof.
  rewrite Response_get_responses_of.
  destruct (responses_of _ _ _) as [|r1 [|r2 l]]; split; try done.
  - by intros [= ->].
  - by intros [= ->].
Qed.

Lemma responses_of_cons (u : User) (s : Survey) (x : Response) (rows : list Response) :
  responses_of u s (x :: rows)
  = if decide (response_user x = Some (user_id u) /\ response_survey x = survey_id s)
    then x :: responses_of u s rows else responses_of u s rows.
Proof. unfold responses_of. by rewrite filter_cons. Qed.

Lemma elem_of_responses_of (u : User) (s : Survey) (x : Response) (rows : list Response) :
  x ∈ responses_of u s rows
  <-> (response_user x = Some (user_id u) /\ response_survey x = survey_id s)
      /\ x ∈ rows.
Proof. unfold responses_of. by rewrite list_elem_of_filter. Qed.

Lemma update_row_cons (k : Z) (new x : Response) (rows : list Response) :
  update_row response_pk k new (x :: rows)
  = (if decide (response_pk x = Some k) then new else x)
    :: update_row response_pk k new rows.
Proof. reflexivity. Qed.

Lemma update_row_absent (k : Z) (new : Response) (rows : list Response) :
  Some k ∉ map response_pk rows -> update_row response_pk k new rows = rows.
Proof.
  induction rows as [|x rows IH]; [done|]. rewrite update_row_cons. cbn [map].
  intros [Hx Hrows]%not_elem_of_cons. rewrite decide_False by done.
  f_equal. by apply IH.
Qed.

(** Saving over the one response of a user replaces it, and it only. *)
Lemma update_row_own (u : User) (s : Survey) (k : Z) (r0 new : Response)
    (rows : list Response) :
  NoDup (map response_pk rows) ->
  responses_of u s rows = [r0] ->
  response_pk r0 = Some k ->
  response_user new = Some (user_id u) /\ response_survey new = survey_id s ->
  responses_of u s (update_row response_pk k new rows) = [new].
Proof.
  intros Hnd Hown Hk Hnew. induction rows as [|x rows IH]; [done|].
  cbn [map] in Hnd. apply NoDup_cons in Hnd as [Hx Hnd].
  rewrite responses_of_cons in Hown. rewrite update_row_cons.
  destruct (decide (response_pk x = Some k)) as [Hxk|Hxk].
  - rewrite Hxk in Hx. rewrite (update_row_absent _ _ _ Hx).
    rewrite responses_of_cons, decide_True by done. f_equal.
    destruct (decide (_ /\ _)) as [Hp|Hp].
    + by injection Hown as _ ->.
    + assert (Hin : r0 ∈ responses_of u s rows) by (rewrite Hown; left).
      apply elem_of_responses_of in Hin as [_ Hin]. exfalso. apply Hx.
      rewrite <- Hk. by apply elem_of_map.
  - rewrite responses_of_cons.
    destruct (decide (_ /\ _)) as [Hp|Hp].
    + injection Hown as -> _. by destruct Hxk.
    + by apply IH.
Qed.

Lemma has_row_elem_of (k : Z) (r0 : Response) (rows : list Response) :
  r0 ∈ rows -> response_pk r0 = Some k -> has_row response_pk k rows = true.
Proof.
  intros Hin Hk. unfold has_row. apply existsb_exists. exists r0.
  split; [by apply list_elem_of_In | by apply bool_decide_eq_true].
Qed.

Lemma update_row_other (k : Z) (new x : Response) (rows : list Response) :
  x ∈ rows -> response_pk x <> Some k -> x ∈ update_row response_pk k new rows.
Proof.
  intros Hin Hk. unfold update_row. apply list_elem_of_fmap. exists x.
  by rewrite decide_False.
Qed.

Lemma keyed_same_pk (st : Store) (x y : Response) :
  keyed st -> x ∈ Response_objects st -> y ∈ Response_objects st ->
  response_pk x = response_pk y -> x = y.
Proof.
  intros [Hnd _] Hx Hy Hpk.
  apply list_elem_of_lookup in Hx as [i Hi]. apply list_elem_of_lookup in Hy as [j Hj].
  assert (i = j) as ->.
  { eapply NoDup_lookup; [exact Hnd | |].
    - by rewrite list_lookup_fmap, Hi.
    - rewrite list_lookup_fmap, Hj. cbn. by rewrite Hpk. }
  congruence.
Qed.

(** X16.  Save, then look up.  When the logged-in user saves a form whose
    cache agrees with the store, and [save] returns a response, the store holds
    exactly one response of that user to that survey afterwards, and it is the
    one returned; it carries the identifier, the seed and the passthrough
    string of the form. *)
Theorem save_response_round_trip (w : World) (r : Response) :
  is_authenticated (user (self w)) = true ->
  keyed (store w) ->
  cache_in_sync w ->
  fst (save w) = Ok (Some r) ->
  Response_get (user (self w)) (survey (self w)) (store (snd (save w))) = Ok r
  /\ interview_uuid r = uuid (self w)
  /\ response_random_seed r = random_seed (self w)
  /\ response_extra r = extra (self w).
Proof.
  intros Hauth Hkeyed Hsync. rewrite save_unfold.
  pose proof (read_only_get_preexisting_response w) as [Hst _].
  pose proof (lookup_in_sync w) as Hpre. specialize (fun pre => Hpre pre Hsync).
  destruct (get_preexisting_response_self w) as (c & Hself & _).
  destruct (_get_preexisting_response w) as [[pre|e] w0]; cbn [fst snd] in *;
    [|done].
  specialize (Hpre pre eq_refl). destruct (negb _ && _); [done|].
  pose proof (Response_save_fst (stamped (self w0) pre) (store w0))
    as (Hsurvey & Huser & Huuid & Hseed & Hextra).
  assert (Hget : Response_get (user (self w)) (survey (self w))
                   (snd (Response_save (stamped (self w0) pre) (store w0)))
                 = Ok (fst (Response_save (stamped (self w0) pre) (store w0)))).
  { assert (Hown : response_user (stamped (self w0) pre) = Some (user_id (user (self w)))
                   /\ response_survey (stamped (self w0) pre) = survey_id (survey (self w))).
    { rewrite Hself. cbn. by rewrite Hauth. }
    apply Response_get_Ok. rewrite Hst. unfold Response_save.
    destruct pre as [r0|].
    - apply Response_get_Ok in Hpre.
      assert (Hin : r0 ∈ Response_objects (store w)).
      { eapply elem_of_responses_of. rewrite Hpre. left. }
      destruct Hkeyed as [Hnd Hpk]. rewrite Forall_forall in Hpk.
      specialize (Hpk r0 Hin).
      change (response_pk (stamped (self w0) (Some r0))) with (response_pk r0).
      destruct (response_pk r0) as [k|] eqn:Ek; [|done].
      rewrite (has_row_elem_of k r0) by done. cbn [fst snd with_responses Response_objects].
      by apply (update_row_own _ _ k r0).
    - specialize (Hpre Hauth). rewrite Response_get_responses_of in Hpre.
      change (response_pk (stamped (self w0) None)) with (@None Z).
      cbn [fst snd with_responses Response_objects].
      unfold responses_of. rewrite filter_app. fold (responses_of (user (self w)) (survey (self w)) (Response_objects (store w))).
      destruct (responses_of _ _ (Response_objects (store w))) as [|r1 [|r2 l]];
        [|done..].
      rewrite filter_cons, decide_True; [done|].
      cbn [set_response_pk response_user response_survey]. exact Hown. }
  destruct (Response_save _ _) as [r' st']. cbn [fst snd] in *. cbv zeta.
  match goal with
  | |- context [save_answers r' ?items ?acc ?w1] =>
      destruct (save_answers_effect r' items acc w1) as [(Hrows & _) _];
      destruct (save_answers r' items acc w1) as [[l|e] w2]
  end; cbn [fst snd store with_sent] in *; [|done].
  intros [= <-]. rewrite Huuid, Hseed, Hextra, Hself. split_and!; try done.
  rewrite Response_get_responses_of in Hget |- *. by rewrite Hrows.
Qed.

(** X17.  Whatever [save] does, and however it ends, the stored responses of
    other users, and those to other surveys, are still in the store
    afterwards. *)
Theorem save_keeps_other_responses (w : World) (x : Response) :
  keyed (store w) ->
  cache_in_sync w ->
  x ∈ Response_objects (store w) ->
  ~ (response_user x = Some (user_id (user (self w)))
     /\ response_survey x = survey_id (survey (self w))) ->
  x ∈ Response_objects (store (snd (save w))).
Proof.
  intros Hkeyed Hsync Hx Hother. rewrite save_unfold.
  pose proof (read_only_get_preexisting_response w) as [Hst _].
  pose proof (lookup_in_sync w) as Hpre. specialize (fun pre => Hpre pre Hsync).
  destruct (_get_preexisting_response w) as [[pre|e] w0]; cbn [fst snd] in *;
    [|by rewrite Hst].
  specialize (Hpre pre eq_refl).
  destruct (negb _ && _); [cbn [snd]; by rewrite Hst|].
  assert (Hin : x ∈ Response_objects
                      (snd (Response_save (stamped (self w0) pre) (store w0)))).
  { rewrite Hst. unfold Response_save.
    destruct (response_pk (stamped (self w0) pre)) as [k|] eqn:Ek; cbn in Ek.
    - destruct (has_row _ _ _); cbn [snd with_responses Response_objects];
        [|apply elem_of_app; by left].
      apply update_row_other; [done|]. intros Hxk.
      destruct pre as [r0|]; [|done]. cbn in Ek.
      apply Response_get_Ok in Hpre.
      assert (Hr0 : r0 ∈ responses_of (user (self w)) (survey (self w))
                          (Response_objects (store w))) by (rewrite Hpre; left).
      apply elem_of_responses_of in Hr0 as [Hown Hr0].
      assert (x = r0) as -> by (eapply keyed_same_pk; [done..|congruence]).
      by apply Hother.
    - cbn [snd with_responses Response_objects]. apply elem_of_app. by left. }
  destruct (Response_save _ _) as [r' st']. cbn [snd] in Hin. cbv zeta.
  match goal with
  | |- context [save_answers r' ?items ?acc ?w1] =>
      destruct (save_answers_effect r' items acc w1) as [(Hrows & _) _];
      destruct (save_answers r' items acc w1) as [[l|e] w2]
  end; cbn [fst snd store with_sent] in *; by rewrite Hrows.
Qed.

End save_facts.

Section save_examples.
Import Sample.
#[local] Existing Instances comma_settings ascii_text lcg nulls_last.

Lemma save_response_round_trip_witness :
  let w := submitted (args ALL_IN_ONE_PAGE true None) None (store_with [])
             [("question_17_42", VStr "blue")] in
  let r := {| response_pk := Some 1; response_survey := 1; response_user := Some 7;
              interview_uuid := "0f8fad5bd9cb469fa16570867728950e";
              response_random_seed := 5; response_extra := "" |} in
  Response_get alice (survey_with ALL_IN_ONE_PAGE true) (store (snd (save w))) = Ok r.
Proof.
  intros w r.
  refine (proj1 (save_response_round_trip w r _ _ _ _)).
  - reflexivity.
  - split; [cbn; repeat constructor; type_cases | by repeat constructor].
  - intros r0 Hr0. discriminate Hr0.
  - vm_compute. reflexivity.
Defined.

Lemma save_keeps_other_responses_witness :
  let w := submitted (args_for (three_categories true) None) None (store_with [])
             [("question_17_42", VStr "blue")] in
  alice_response ∈ Response_objects (store (snd (save w))).
Proof.
  intros w. apply (save_keeps_other_responses w alice_response).
  - split; [cbn; repeat constructor; type_cases | by repeat constructor].
  - intros r0 Hr0. discriminate Hr0.
  - left.
  - intros [_ Hs]. discriminate Hs.
Defined.

End save_examples.

(** ** The cache of the response *)

Section response_cache.
Context `{Settings, Text, Random, Database}.

Lemma get_preexisting_response_result (w : World) (pre : option Response) :
  fst (_get_preexisting_response w) = Ok pre ->
  response (self (snd (_get_preexisting_response w)))
  = match pre with Some r => CSome r | None => CNone end.
Proof.
  unfold _get_preexisting_response, bind, get_self, get_store, modify_self, ret, lift.
  destruct (response (self w)) as [| |c] eqn:E; cbn; try (by intros [= <-]).
  all: destruct (is_authenticated (user (self w))); cbn; try (by intros [= <-]).
  all: destruct (Response_get _ _ _) as [r|[]]; cbn; by intros [= <-].
Qed.

(** X18.  The lookup of the response is remembered only when it succeeds
    (lines 135-136 test the truth of the attribute).  Once a response has been
    found, later calls return it without reading the store, whatever the
    store has become, and change nothing.  When a logged-in user had no
    response, the next call asks the store again, and returns a response
    saved in between. *)
Theorem preexisting_response_memo (w : World) :
  (forall r st',
     fst (_get_preexisting_response w) = Ok (Some r) ->
     _get_preexisting_response (with_store st' (snd (_get_preexisting_response w)))
     = (Ok (Some r), with_store st' (snd (_get_preexisting_response w))))
  /\ (forall r st',
        fst (_get_preexisting_response w) = Ok None ->
        is_authenticated (user (self w)) = true ->
        Response_get (user (self w)) (survey (self w)) st' = Ok r ->
        fst (_get_preexisting_response
               (with_store st' (snd (_get_preexisting_response w))))
        = Ok (Some r)).
Proof.
  split.
  - intros r st' Hr. apply get_preexisting_response_result in Hr.
    unfold _get_preexisting_response at 1, bind at 1.
    cbn [get_self with_store self]. by rewrite Hr.
  - intros r st' Hnone Hauth Hget.
    apply get_preexisting_response_result in Hnone.
    pose proof (frame_get_preexisting_response w) as (Hs & Hu & _).
    rewrite (get_preexisting_response_fresh _ r); cbn [with_store self store];
      [done | by rewrite Hnone | by rewrite Hu | by rewrite Hs, Hu].
Qed.

End response_cache.

Section response_cache_examples.
Import Sample.
#[local] Existing Instances comma_settings ascii_text lcg nulls_last.

Lemma preexisting_response_memo_witness :
  let w := world (args ALL_IN_ONE_PAGE true None) None schema in
  fst (_get_preexisting_response
         (with_store (store_with []) (snd (_get_preexisting_response w))))
  = Ok (Some alice_response).
Proof.
  intros w.
  apply (proj2 (preexisting_response_memo w) alice_response (store_with []));
    reflexivity.
Defined.

End response_cache_examples.

(** ** Field identifiers *)

Section field_names.
Context `{Settings, Text, Random, Database}.

Lemma split_question_id (q : Z) :
  Str.split "_" (question_id q) = Ok ["question"; format_int q].
Proof.
  unfold Str.split, question_id. f_equal.
  change ("question_" +:+ format_int q) with ("question" +:+ "_" +:+ format_int q).
  rewrite split_from_clean_sep by (done || by apply clean_char).
  rewrite split_from_clean_end by apply clean_char, format_int_no_underscore.
  reflexivity.
Qed.

(** X19.  The name that [add_question] gives a field, ["question_<q>_<g>"],
    passes the test of [save], is read back by [save] as the question [q] and
    the answer group [g], and names no other pair. *)
Theorem field_id_round_trip (q g : Z) :
  Str.startswith (field_id q g) "question_" = true
  /\ (parts <- Str.split "_" (field_id q g) ;;
      q_id <- rbind (index parts 1) int_of_str ;;
      ag_id <- rbind (index parts 2) int_of_str ;;
      Ok (q_id, ag_id))%py = Ok (q, g)
  /\ (forall q' g', field_id q g = field_id q' g' -> q = q' /\ g = g').
Proof.
  split_and!; [apply startswith_field_id | apply parse_field_id |].
  intros q' g'. apply field_id_inj.
Qed.

(** X20.  The key under which [add_question] reads resubmitted data,
    ["question_<q>"], is not a name that [save] can take: it passes the test
    of line 369 and has no third part, so that [save] raises an [IndexError]
    on it, before it reads or writes anything. *)
Theorem save_answer_question_key (response : Response) (q : Z) (v : FieldValue)
    (w : World) :
  save_answer response (question_id q) v w = (Raise IndexError, w).
Proof.
  unfold save_answer.
  assert (Hstart : Str.startswith (question_id q) "question_" = true).
  { unfold Str.startswith, question_id. apply prefix_append. }
  rewrite Hstart. unfold bind at 1, lift at 1. rewrite split_question_id.
  unfold bind at 1, lift at 1. cbn [rbind index lookup list_lookup].
  rewrite int_of_str_format_int. unfold bind at 1, lift at 1. reflexivity.
Qed.

End field_names.

(** ** The addresses of the steps *)

Section step_urls.
Context `{Urls}.

(** X21.  There is a next address exactly when [has_next_step] is true; it
    is then the address that [current_step_url] gives for the form at the
    following step, and that step is below the number of steps. *)
Theorem next_step_url_target (f : ResponseForm) :
  (has_next_step f = Ok false -> next_step_url f = Ok None)
  /\ (has_next_step f = Ok true ->
      exists k,
        step f = Some k /\ k + 1 < steps_count f
        /\ next_step_url f = Ok (Some (current_step_url (with_step (k + 1) f))))
  /\ (forall e, has_next_step f = Raise e -> next_step_url f = Raise e).
Proof.
  unfold next_step_url. split_and!.
  - by intros ->.
  - intros Hnext. rewrite Hnext. cbn [rbind].
    unfold has_next_step in Hnext.
    destruct (negb (is_all_in_one_page (survey f))); [|done].
    destruct (step f) as [k|]; [|done].
    destruct (Z.ltb_spec k (steps_count f - 1)); [|done].
    exists k. split_and!; [done | lia | done].
  - by intros e ->.
Qed.

End step_urls.

Section step_urls_examples.
Import Sample.
#[local] Existing Instances comma_settings ascii_text lcg nulls_last path_urls.

Lemma next_step_url_target_witness :
  let f := self (world (args BY_QUESTION true None) (Some 3) schema) in
  next_step_url f = Ok (Some "/survey/1-4-0/").
Proof.
  intros f.
  destruct (proj1 (proj2 (next_step_url_target f)) eq_refl) as (k & Hk & _ & Hu).
  injection Hk as <-. exact Hu.
Defined.

End step_urls_examples.

(** ** The fields of a form on one page *)

Lemma od_get_None_keys {K V} `{EqDecision K} (k : K) (d : odict K V) :
  od_get k d = None <-> k ∉ d.*1.
Proof.
  induction d as [|[k' v'] d IH]; cbn [od_get fmap list_fmap].
  - split; [intros _; apply not_elem_of_nil | done].
  - rewrite not_elem_of_cons. cbn [fst].
    destruct (decide (k' = k)) as [->|Hne]; [split; [done | by intros [? _]]|].
    rewrite IH. split; [by intros ? | by intros [_ ?]].
Qed.

Section one_page.
Context `{Settings, Text, Random, Database}.

Lemma for_each_enumerate data (b : Z -> bool) (qs : list Question) (i : Z) (w : World) :
  for_each (enumerate_from i qs)
    (fun '(i, question) => if false && b i then ret tt else add_question question data) w
  = for_each qs (fun question => add_question question data) w.
Proof.
  revert i w. induction qs as [|q qs IH]; intros i w; [done|].
  cbn [enumerate_from for_each andb]. unfold bind.
  destruct (add_question q data w) as [[[]|e] w1]; [|done]. apply IH.
Qed.

Lemma field_ids_disjoint (q q' : Question) (idf : string) :
  q_pk q <> q_pk q' -> idf ∈ field_ids q -> idf ∉ field_ids q'.
Proof.
  unfold field_ids. intros Hne (ag & -> & _)%list_elem_of_fmap
    (ag' & [E _]%field_id_inj & _)%list_elem_of_fmap.
  by apply Hne.
Qed.

(** The fields after a run of [add_question]: those of the questions, in
    turn, after the fields that were there. *)
Lemma for_each_add_question_names data (qs : list Question) (w : World) :
  NoDup (map q_pk qs) ->
  Forall (fun q => NoDup (map ag_pk (q_answer_groups q))) qs ->
  Forall (fun q => Forall (fun idf => idf ∉ (fields (self w)).*1) (field_ids q)) qs ->
  fst (for_each qs (fun question => add_question question data) w) = Ok tt ->
  (fields (self (snd (for_each qs (fun question => add_question question data) w)))).*1
  = (fields (self w)).*1 ++ concat (map field_ids qs).
Proof.
  revert w. induction qs as [|q qs IH]; intros w Hpk Hgroups Hfresh.
  - intros _. cbn. by rewrite app_nil_r.
  - cbn [map] in Hpk. apply NoDup_cons in Hpk as [Hq Hpk].
    apply Forall_cons in Hgroups as [Hg Hgroups].
    apply Forall_cons in Hfresh as [Hf Hfresh].
    cbn [for_each]. unfold bind.
    assert (Hf' : Forall (fun idf => od_get idf (fields (self w)) = None) (field_ids q)).
    { eapply Forall_impl; [exact Hf|]. intros idf. apply od_get_None_keys. }
    pose proof (add_question_names w q data) as Hnames.
    destruct (add_question q data w) as [[[]|e] w1]; [|done].
    cbn [fst snd] in Hnames. specialize (Hnames eq_refl Hg Hf') as [Hnames _].
    intros Hok. rewrite (IH w1); [| done | done | | done].
    + rewrite Hnames. cbn [map concat]. by rewrite <- app_assoc.
    + rewrite Hnames. apply Forall_forall. intros q' Hq'. apply Forall_forall.
      intros idf Hidf. rewrite Forall_forall in Hfresh.
      specialize (Hfresh q' Hq'). rewrite Forall_forall in Hfresh.
      apply not_elem_of_app. split; [by apply Hfresh|].
      intros Hin. eapply field_ids_disjoint; [|exact Hin|exact Hidf].
      intros E. apply Hq. rewrite E. by apply elem_of_map.
Qed.

(** X22.  A form shown on one page has one field for each answer group of each
    question of the survey, and nothing else: taking the questions in the
    order of the form (a rearrangement of the questions of the survey; their
    stored order when no question lacks one), the names of the fields are the
    names ["question_<q>_<g>"] of the groups of the first question in
    ascending order of [g], then those of the second, and so on. *)
Theorem one_page_fields (data : option (odict string FieldValue)) (w : World) :
  display_method (survey (self w)) = ALL_IN_ONE_PAGE ->
  fields (self w) = [] ->
  NoDup (map q_pk (survey_questions (survey (self w)))) ->
  Forall (fun q => NoDup (map ag_pk (q_answer_groups q)))
         (survey_questions (survey (self w))) ->
  fst (add_questions data w) = Ok tt ->
  exists qs,
    fst (all_questions w) = Ok qs
    /\ qs ≡ₚ survey_questions (survey (self w))
    /\ (randomize_questions (self w) = [] ->
        qs = order_by order_id_leb (survey_questions (survey (self w))))
    /\ (fields (self (snd (add_questions data w)))).*1 = concat (map field_ids qs).
Proof.
  intros Hmode Hempty Hpk Hgroups.
  assert (Hrun : add_questions data w
                 = (let '(r, w1) := all_questions w in
                    match r with
                    | Ok qs => for_each qs (fun question => add_question question data) w1
                    | Raise e => (Raise e, w1)
                    end)).
  { unfold add_questions, bind at 1. cbn [get_self]. rewrite Hmode.
    destruct (decide (ALL_IN_ONE_PAGE = BY_CATEGORY)) as [|_]; [done|].
    unfold bind at 1. destruct (all_questions w) as [[qs|e] w1]; [|done].
    rewrite bool_decide_false by done. apply for_each_enumerate. }
  rewrite Hrun. clear Hrun.
  assert (Hself : self (snd (all_questions w)) = self w).
  { rewrite all_questions_unfold. cbv zeta.
    destruct (randomize_questions (self w)); [done|].
    by rewrite seeded_shuffle_unfold. }
  assert (Hperm : forall qs, fst (all_questions w) = Ok qs ->
            qs ≡ₚ survey_questions (survey (self w))
            /\ (randomize_questions (self w) = [] ->
                qs = order_by order_id_leb (survey_questions (survey (self w))))).
  { rewrite all_questions_unfold. cbv zeta. intros qs.
    destruct (randomize_questions (self w)).
    - intros [= <-]. split; [apply order_by_perm | done].
    - intros Hqs%seeded_shuffle_ok_perm. split; [|done].
      by rewrite Hqs, order_by_perm. }
  destruct (all_questions w) as [[qs|e] w1]; [|done].
  cbn [fst snd] in *. destruct (Hperm qs eq_refl) as [Hqs Hsorted].
  intros Hok. exists qs. split_and!; [done..|].
  rewrite for_each_add_question_names; [| | | |done].
  - by rewrite Hself, Hempty.
  - by rewrite Hqs.
  - by rewrite Hqs.
  - rewrite Hself, Hempty. apply Forall_forall. intros q _.
    apply Forall_forall. intros idf _. apply not_elem_of_nil.
Qed.

End one_page.

Section one_page_examples.
Import Sample.
#[local] Existing Instances comma_settings ascii_text lcg nulls_last.

Lemma one_page_fields_witness :
  let w := world (args ALL_IN_ONE_PAGE true None) None schema in
  (fields (self (snd (add_questions None w)))).*1
  = ["question_9_41"; "question_17_42"; "question_17_43"; "question_20_44";
     "question_21_45"; "question_22_46"].
Proof.
  intros w.
  destruct (one_page_fields None w) as (qs & Hqs & _ & _ & Hnames).
  - reflexivity.
  - reflexivity.
  - apply (bool_decide_unpack _). vm_compute. reflexivity.
  - apply (bool_decide_unpack _). vm_compute. reflexivity.
  - vm_compute. reflexivity.
  - vm_compute in Hqs. injection Hqs as <-. exact Hnames.
Defined.

End one_page_examples.

(** ** Stored answers in the form *)

Lemma group_answers_fold (l : list Answer) :
  group_answers l = fold_left group_answer l ∅.
Proof. reflexivity. Qed.

Lemma answer_of_group_answer (m : gmap Z (odict Z Answer)) (a : Answer) (q g : Z) :
  answer_of (group_answer m a) q g
  = if decide (answer_question a = q /\ answer_group_id a = g) then Some a
    else answer_of m q g.
Proof.
  assert (Hstep : group_answer m a
                  = <[answer_question a :=
                        od_set (answer_group_id a) a
                          (default [] (m !! answer_question a))]> m).
  { unfold group_answer. destruct (m !! answer_question a) as [d|] eqn:E.
    - cbv beta iota zeta.
      exact (f_equal (fun x => <[answer_question a :=
                                   od_set (answer_group_id a) a (default [] x)]> m) E).
    - cbv beta iota zeta. rewrite lookup_insert_eq. by rewrite insert_insert_eq. }
  rewrite Hstep. unfold answer_of.
  destruct (decide (answer_question a = q)) as [<-|Hq].
  - rewrite lookup_insert_eq. cbn [mbind option_bind].
    rewrite od_get_od_set.
    destruct (decide (answer_group_id a = g)) as [<-|Hg].
    + by rewrite decide_True.
    + rewrite decide_False by (by intros [_ ?]).
      by destruct (m !! answer_question a).
  - rewrite lookup_insert_ne by done.
    by rewrite decide_False by (by intros [? _]).
Qed.

Lemma answer_of_fold_sound (l : list Answer) m (q g : Z) (a : Answer) :
  answer_of (fold_left group_answer l m) q g = Some a ->
  (a ∈ l /\ answer_question a = q /\ answer_group_id a = g)
  \/ answer_of m q g = Some a.
Proof.
  revert m. induction l as [|x l IH]; intros m; cbn [fold_left]; [by right|].
  intros [(Hin & Hq & Hg)|Hm]%IH.
  - left. split; [by right | done].
  - rewrite answer_of_group_answer in Hm.
    destruct (decide (_ /\ _)) as [[Hq Hg]|]; [|by right].
    injection Hm as ->. left. split; [left | done].
Qed.

Lemma answer_of_fold_mono (l : list Answer) m (q g : Z) :
  is_Some (answer_of m q g) -> is_Some (answer_of (fold_left group_answer l m) q g).
Proof.
  revert m. induction l as [|x l IH]; intros m Hm; [done|].
  cbn [fold_left]. apply IH. rewrite answer_of_group_answer.
  by destruct (decide (_ /\ _)).
Qed.

Lemma answer_of_fold_complete (l : list Answer) m (a : Answer) :
  a ∈ l ->
  is_Some (answer_of (fold_left group_answer l m)
             (answer_question a) (answer_group_id a)).
Proof.
  revert m. induction l as [|x l IH]; intros m Hin; [by apply elem_of_nil in Hin|].
  cbn [fold_left]. apply elem_of_cons in Hin as [->|Hin]; [|by apply IH].
  apply answer_of_fold_mono. rewrite answer_of_group_answer.
  by rewrite decide_True.
Qed.

(** X23.  The dictionary of lines 166-170 holds stored answers only, each
    under its own question and answer group, and it has an entry for the
    question and group of every answer of the response. *)
Theorem group_answers_lookup (l : list Answer) :
  (forall q g a,
     answer_of (group_answers l) q g = Some a ->
     a ∈ l /\ answer_question a = q /\ answer_group_id a = g)
  /\ (forall a,
        a ∈ l ->
        exists a', answer_of (group_answers l) (answer_question a) (answer_group_id a)
                   = Some a').
Proof.
  rewrite group_answers_fold. split.
  - intros q g a [?|Hm]%answer_of_fold_sound; [done|].
    unfold answer_of in Hm. by rewrite lookup_empty in Hm.
  - intros a Hin. by apply (answer_of_fold_complete l ∅) in Hin as [a' ->]; eauto.
Qed.

Section prefill.
Context `{Settings, Text, Random, Database}.

Lemma initial_of_answers_plain (st : Store) (qa : odict Z Answer)
    (d0 : gmap Z FieldValue) :
  NoDup qa.*1 ->
  Forall (fun p => plainly_stored st p.2) qa ->
  exists d,
    initial_of_answers (AnswerGroup_objects st) qa d0 = Ok d
    /\ forall k, d !! k = match od_get k qa with
                          | Some a => Some (body a)
                          | None => d0 !! k
                          end.
Proof.
  revert d0. induction qa as [|[k1 a1] qa IH]; intros d0 Hnd Hplain.
  - by exists d0.
  - cbn [fmap list_fmap fst] in Hnd. apply NoDup_cons in Hnd as [Hk1 Hnd].
    apply Forall_cons in Hplain as [(g1 & Hg1 & Ht1) Hplain]. cbn [snd] in *.
    cbn [initial_of_answers]. unfold initial_of_answer. rewrite Hg1. cbn [fmap option_fmap option_map].
    assert (E : match ag_type g1 with
                | SELECT_MULTIPLE =>
                    match body a1 with
                    | VStr s => (l <- multiple_initial s ;; Ok (VList l))%py
                    | _ => Raise TypeError
                    end
                | _ => Ok (body a1)
                end = Ok (body a1)) by by destruct (ag_type g1).
    rewrite E. cbn [rbind].
    destruct (IH (<[k1 := body a1]> d0) Hnd Hplain) as (d & Hd & Hlook).
    exists d. split; [done|]. intros k. rewrite Hlook. cbn [od_get].
    destruct (decide (k1 = k)) as [<-|Hne].
    + apply od_get_None_keys in Hk1. by rewrite Hk1, lookup_insert_eq.
    + destruct (od_get k qa); [done|]. by rewrite lookup_insert_ne.
Qed.

(** X24.  Stored answers fill the form.  When the form holds the answers of
    the response, a question with stored answers (none of them a multiple
    choice) and no resubmitted data gets its fields without error, and the
    field of each answered group starts from the body of the stored answer,
    as it is. *)
Theorem stored_answers_prefill (w : World) (question : Question)
    (m : gmap Z (odict Z Answer)) (qa : odict Z Answer)
    (ag : AnswerGroup) (a : Answer) :
  answers (self w) = CSome m ->
  m !! q_pk question = Some qa ->
  NoDup qa.*1 ->
  Forall (fun p => plainly_stored (store w) p.2) qa ->
  ag ∈ q_answer_groups question ->
  od_get (ag_pk ag) qa = Some a ->
  exists i l fld,
    get_question_initial question None w = (Ok i, w)
    /\ get_question_fields question (kwargs_of question i) = Ok l
    /\ (ag, fld) ∈ l
    /\ initial fld = Some (body a).
Proof.
  intros Hm Hq Hnd Hplain Hag Ha.
  assert (Hne : m <> ∅) by (intros ->; by rewrite lookup_empty in Hq).
  assert (E : _get_preexisting_answer_all question w = (Ok qa, w)).
  { unfold _get_preexisting_answer_all, bind at 1.
    unfold _get_preexisting_answers, bind at 1. cbn [get_self].
    rewrite Hm, bool_decide_false by done. cbn [ret].
    exact (f_equal (fun x => (Ok (default [] x), w)) Hq). }
  rewrite (get_question_initial_unfold _ _ _ _ _ E). cbn [rbind].
  destruct (initial_of_answers_plain (store w) qa ∅ Hnd Hplain) as (d & Hd & Hlook).
  assert (Hrec : recovered (store w) qa = Ok (InitialDict d)).
  { unfold recovered. destruct qa; [done|]. by rewrite Hd. }
  rewrite Hrec. cbn [rbind overridden].
  assert (Hda : d !! ag_pk ag = Some (body a)) by by rewrite Hlook, Ha.
  assert (Hkw : kw_initial (kwargs_of question (InitialDict d)) = Some (InitialDict d)).
  { cbn. rewrite bool_decide_false; [done|]. intros ->. by rewrite lookup_empty in Hda. }
  exists (InitialDict d).
  destruct (get_question_fields question (kwargs_of question (InitialDict d)))
    as [l|e] eqn:El.
  - apply mapM_Forall2 in El.
    assert (Hin : ag ∈ order_by pk_leb (q_answer_groups question))
      by by rewrite order_by_perm.
    apply list_elem_of_lookup in Hin as [n Hn].
    destruct (Forall2_lookup_l _ _ _ _ _ El Hn) as ([ag' fld] & Hl & Hfld).
    rewrite Hkw in Hfld. cbn [field_initial rbind] in Hfld.
    injection Hfld as <- <-.
    exists l, {| field_class := match FIELDS (ag_type ag) with
                                | Ok c => c
                                | Raise _ => ChoiceField
                                end;
                 required := kw_required (kwargs_of question (InitialDict d));
                 label := ag_name ag;
                 initial := d !! ag_pk ag;
                 choices := kw_choices (kwargs_of question (InitialDict d))
                            ≫= (fun m => m !! ag_pk ag);
                 widget := kw_widget (kwargs_of question (InitialDict d))
                           ≫= (fun m => m !! ag_pk ag);
                 attrs := ∅ |}.
    split_and!; [done | done | by eapply list_elem_of_lookup_2 | done].
  - exfalso.
    assert (Hok : is_ok (get_question_fields question (kwargs_of question (InitialDict d)))
                  = true).
    { unfold get_question_fields. apply mapM_is_ok, Forall_forall. intros ag' _.
      by rewrite Hkw. }
    by rewrite El in Hok.
Qed.

End prefill.

Section prefill_examples.
Import Sample.
#[local] Existing Instances comma_settings ascii_text lcg nulls_last.

Lemma group_answers_lookup_witness :
  let l := [stored_answer 1 17 42 (VStr "red"); stored_answer 2 17 43 (VStr "blue")] in
  exists a', answer_of (group_answers l) 17 43 = Some a'.
Proof.
  intros l.
  apply (proj2 (group_answers_lookup l) (stored_answer 2 17 43 (VStr "blue"))).
  right. left.
Defined.

Lemma stored_answers_prefill_witness :
  let st := store_with [stored_answer 1 17 42 (VStr "red")] in
  let a := stored_answer 1 17 42 (VStr "red") in
  let w := with_self
             (with_answers (CSome {[ 17 := [(42, a)] ]})
                (self (world (args ALL_IN_ONE_PAGE true None) None st)))
             (world (args ALL_IN_ONE_PAGE true None) None st) in
  exists i l fld,
    get_question_initial q17 None w = (Ok i, w)
    /\ get_question_fields q17 (kwargs_of q17 i) = Ok l
    /\ (group 42 SELECT rgb, fld) ∈ l
    /\ initial fld = Some (VStr "red").
Proof.
  intros st a w.
  apply (stored_answers_prefill w q17 {[ 17 := [(42, a)] ]} [(42, a)]
           (group 42 SELECT rgb) a).
  - reflexivity.
  - reflexivity.
  - repeat constructor. apply not_elem_of_nil.
  - repeat constructor. exists (group 42 SELECT rgb). split; [reflexivity | discriminate].
  - left.
  - reflexivity.
Defined.

End prefill_examples.
